(** * rss_monitor: the extraction / deduplication / notification pipeline

    A shallow embedding of [rss-monitor/rss_monitor.py] (functions
    [save_config], [send_telegram_message] and [check_rss_feed]) and the
    properties of its deduplication stores, of its item discovery and of its
    per-item field recovery.

    Modelling conventions.
    - A Python [str] is a [string] whose characters are code points below 256;
      [lower], [strip] and the regular expression class [\d] are the Python
      ones restricted to that range.
    - A Python [dict] is an association list in insertion order without
      repeated keys ([Dict.t]); iteration, [sorted] and [dict(...)] see that
      order.
    - [datetime.now()] is a number of microseconds; the text written by
      [strftime('%Y-%m-%d %H:%M:%S')] is modelled by the whole second it
      denotes, which is what [strptime] reads back, and the order of such
      texts is the order of these seconds.
    - The records of the two stores are the ones the program writes: each
      has its fields and a time in the format above, so that reading them
      raises nothing.
    - BeautifulSoup, the HTTP session and the Telegram endpoint are outside
      the program: a parsed element carries the answers of [select],
      [find_all], [get_text(strip=True)] and [get('href')], and the outcome of
      each request is an input of the model. Logging, garbage collection and
      the random pauses are left out. *)

From Stdlib Require Import List String Ascii ZArith NArith Bool Lia.
From Stdlib Require Import Permutation Sorted.
Import ListNotations.
Open Scope string_scope.
Open Scope Z_scope.

(** ** Python strings *)

Module Str.

Definition code (c : ascii) : N := N_of_ascii c.

(** [str.lower] on one code point below 256: A-Z and the Latin-1 capitals
    (0xC0-0xDE except the multiplication sign 0xD7) move up by 32. *)
Definition lower_char (c : ascii) : ascii :=
  let n := code c in
  if ((65 <=? n) && (n <=? 90))%N
     || ((192 <=? n) && (n <=? 222) && negb (n =? 215))%N
  then ascii_of_N (n + 32) else c.

Fixpoint lower (s : string) : string :=
  match s with
  | EmptyString => EmptyString
  | String c r => String (lower_char c) (lower r)
  end.

(** [str.isspace] on one code point below 256. *)
Definition isspace (c : ascii) : bool :=
  let n := code c in
  (((9 <=? n) && (n <=? 13)) || ((28 <=? n) && (n <=? 32))
   || (n =? 133) || (n =? 160))%N.

Fixpoint lstrip (s : string) : string :=
  match s with
  | EmptyString => EmptyString
  | String c r => if isspace c then lstrip r else s
  end.

Fixpoint rstrip (s : string) : string :=
  match s with
  | EmptyString => EmptyString
  | String c r =>
      match rstrip r with
      | EmptyString => if isspace c then EmptyString else String c EmptyString
      | r' => String c r'
      end
  end.

Definition strip (s : string) : string := rstrip (lstrip s).

(** [len(s)] and the truth value of a string. *)
Definition len (s : string) : Z := Z.of_nat (String.length s).

Definition nonempty (s : string) : bool :=
  match s with EmptyString => false | _ => true end.

(** [s[:n]]. *)
Fixpoint take (n : nat) (s : string) : string :=
  match n, s with
  | S k, String c r => String c (take k r)
  | _, _ => EmptyString
  end.

(** The rest of [s] after the prefix [p], when [s.startswith(p)]. *)
Fixpoint after_prefix (p s : string) : option string :=
  match p, s with
  | EmptyString, _ => Some s
  | String a p', String b s' =>
      if Ascii.eqb a b then after_prefix p' s' else None
  | String _ _, EmptyString => None
  end.

Definition startswith (s p : string) : bool :=
  match after_prefix p s with Some _ => true | None => false end.

(** [needle in hay]. *)
Fixpoint contains (needle hay : string) : bool :=
  startswith hay needle
  || match hay with
     | EmptyString => false
     | String _ r => contains needle r
     end.

Definition isdigit (c : ascii) : bool :=
  let n := code c in ((48 <=? n) && (n <=? 57))%N.

(** The longest run of digits at the start of [s]: what [(\d+)] captures. *)
Fixpoint digits (s : string) : string :=
  match s with
  | String c r => if isdigit c then String c (digits r) else EmptyString
  | EmptyString => EmptyString
  end.

(** [re.search(prefix + r'(\d+)', s)]: the capture of the leftmost match. *)
Fixpoint search_digits_after (prefix s : string) : option string :=
  let here :=
    match after_prefix prefix s with
    | Some rest =>
        match digits rest with
        | EmptyString => None
        | d => Some d
        end
    | None => None
    end in
  match here with
  | Some d => Some d
  | None =>
      match s with
      | EmptyString => None
      | String _ r => search_digits_after prefix r
      end
  end.

(** [a] occurs in [b]: what [a in b] means. *)
Definition occurs_in (a b : string) : Prop :=
  exists p q, b = p ++ a ++ q.

(** [n] copies of the character [c]. *)
Definition replicate (n : positive) (c : ascii) : string :=
  Pos.iter (String c) EmptyString n.

End Str.

(** ** Python dictionaries, in insertion order *)

Module Dict.

Section Ops.
Context {V : Type}.

Definition t := list (string * V).

(** [d.get(k)]. *)
Fixpoint get (k : string) (d : t) : option V :=
  match d with
  | [] => None
  | (k', v) :: r => if String.eqb k k' then Some v else get k r
  end.

(** [k in d]. *)
Definition mem (k : string) (d : t) : bool :=
  match get k d with Some _ => true | None => false end.

(** [d[k] = v]: an existing key keeps its place, a new key goes last. *)
Fixpoint set (k : string) (v : V) (d : t) : t :=
  match d with
  | [] => [(k, v)]
  | (k', v') :: r =>
      if String.eqb k k' then (k, v) :: r else (k', v') :: set k v r
  end.

(** [del d[k]]. *)
Fixpoint del (k : string) (d : t) : t :=
  match d with
  | [] => []
  | (k', v') :: r =>
      if String.eqb k k' then r else (k', v') :: del k r
  end.

(** [dict(items)]. *)
Definition of_items (items : list (string * V)) : t :=
  fold_left (fun d kv => set (fst kv) (snd kv) d) items [].

(** [len(d)]. *)
Definition len (d : t) : Z := Z.of_nat (List.length d).

(** No key occurs twice: what every Python dictionary satisfies. *)
Definition wf (d : t) : Prop := NoDup (map fst d).
End Ops.

Arguments t : clear implicits.

(** A check of [wf] that computes. *)
Fixpoint distinct (keys : list string) : bool :=
  match keys with
  | [] => true
  | k :: rest => negb (existsb (String.eqb k) rest) && distinct rest
  end.

End Dict.

(** ** [sorted(d.items(), key=time, reverse=True)[:n]] *)

Section Newest.
Context {V : Type}.
Variable time : V -> Z.

(** Python's sort is stable, and with [reverse=True] records of equal time
    keep their original order: [x], which stood before every element of the
    sorted tail, goes before the first element that is not newer. *)
Fixpoint insert_newest (x : string * V) (l : list (string * V)) :=
  match l with
  | [] => [x]
  | y :: r =>
      if time (snd x) <? time (snd y) then y :: insert_newest x r
      else x :: l
  end.

Definition sorted_newest (l : list (string * V)) : list (string * V) :=
  fold_right insert_newest [] l.

(** The branch taken when a store is over its cap [n]. *)
Definition keep_newest (n : nat) (d : Dict.t V) : Dict.t V :=
  Dict.of_items (firstn n (sorted_newest d)).

(** What [keep_newest] drops. *)
Definition evicted (n : nat) (d : Dict.t V) : list (string * V) :=
  skipn n (sorted_newest d).

(** [if len(d) > n: d = dict(sorted(...)[:n])]. *)
Definition limit_newest (n : nat) (d : Dict.t V) : Dict.t V :=
  if Z.of_nat n <? Dict.len d then keep_newest n d else d.

(** [x] is no older than [y]. *)
Definition no_older (x y : string * V) : Prop :=
  time (snd y) <= time (snd x).

(** A list in the order of [sorted_newest]. *)
Definition newest_first (l : list (string * V)) : Prop :=
  StronglySorted no_older l.
End Newest.

(** ** The state record *)

(** A value of [config['notified_entries']]. *)
Record NotifiedEntry := {
  ne_title : string;
  ne_link : string;
  ne_keywords : list string;
  ne_time : Z
}.

(** A value of [config['title_notifications']]. *)
Record TitleEntry := {
  te_title : string;
  te_link : string;
  te_time : Z
}.

Record Telegram := {
  bot_token : string;
  chat_id : string
}.

(** [config], with the four keys [check_rss_feed] makes sure of. *)
Record Config := {
  keywords : list string;
  notified_entries : Dict.t NotifiedEntry;
  title_notifications : Dict.t TitleEntry;
  telegram : Telegram
}.

Definition set_notified_entries (d : Dict.t NotifiedEntry) (c : Config) :=
  {| keywords := keywords c; notified_entries := d;
     title_notifications := title_notifications c; telegram := telegram c |}.

Definition set_title_notifications (d : Dict.t TitleEntry) (c : Config) :=
  {| keywords := keywords c; notified_entries := notified_entries c;
     title_notifications := d; telegram := telegram c |}.

(** Both stores are dictionaries. *)
Definition config_wf (config : Config) : Prop :=
  Dict.wf (notified_entries config) /\ Dict.wf (title_notifications config).

(** ** Time *)

Definition usec_per_sec : Z := 1000000.

(** [strptime(current_time.strftime(...))]: the microseconds are dropped. *)
Definition strftime (current_time : Z) : Z := current_time / usec_per_sec.

(** [(current_time - last_time).total_seconds()], counted in microseconds,
    where [last_time] was read back from a record. *)
Definition age (current_time last_time : Z) : Z :=
  current_time - last_time * usec_per_sec.

(** ** [json.dumps(config, ensure_ascii=False)]: the length of the text *)

Module Json.

(** Characters one code point takes inside a JSON string. *)
Definition char_len (c : ascii) : Z :=
  let n := Str.code c in
  if ((n =? 34) || (n =? 92))%N then 2
  else if ((n =? 8) || (n =? 9) || (n =? 10) || (n =? 12) || (n =? 13))%N
       then 2
  else if (n <? 32)%N then 6
  else 1.

Fixpoint body_len (s : string) : Z :=
  match s with
  | EmptyString => 0
  | String c r => char_len c + body_len r
  end.

Definition str (s : string) : Z := 2 + body_len s.

(** The text of a time: ['YYYY-MM-DD HH:MM:SS'] between quotes. *)
Definition time : Z := 21.

(** Elements of the given lengths, separated by [', ']. *)
Fixpoint joined (lens : list Z) : Z :=
  match lens with
  | [] => 0
  | [x] => x
  | x :: r => x + 2 + joined r
  end.

Definition arr (lens : list Z) : Z := 2 + joined lens.

(** An object: each member is its key, [': '] and its value. *)
Definition obj (members : list (string * Z)) : Z :=
  arr (map (fun kv => str (fst kv) + 2 + snd kv) members).

Definition notified_entry (e : NotifiedEntry) : Z :=
  obj [("title", str (ne_title e)); ("link", str (ne_link e));
       ("keywords", arr (map str (ne_keywords e))); ("time", time)].

Definition title_entry (e : TitleEntry) : Z :=
  obj [("title", str (te_title e)); ("link", str (te_link e));
       ("time", time)].

Definition dict {V} (value : V -> Z) (d : Dict.t V) : Z :=
  obj (map (fun kv => (fst kv, value (snd kv))) d).

(** [len(json.dumps(config, ensure_ascii=False))]. *)
Definition dumps_len (c : Config) : Z :=
  obj [("keywords", arr (map str (keywords c)));
       ("notified_entries", dict notified_entry (notified_entries c));
       ("title_notifications", dict title_entry (title_notifications c));
       ("telegram", obj [("bot_token", str (bot_token (telegram c)));
                         ("chat_id", str (chat_id (telegram c)))])].

End Json.

(** ** [save_config] *)

(** Lines 129-148: the two caps, applied to the caller's record. *)
Definition capped (config : Config) : Config :=
  let config :=
    set_notified_entries
      (limit_newest ne_time 50 (notified_entries config)) config in
  set_title_notifications
    (limit_newest te_time 100 (title_notifications config)) config.

(** Lines 159-181: [basic_config]. *)
Definition basic_config (config : Config) : Config :=
  {| keywords := keywords config;
     telegram := telegram config;
     notified_entries :=
       match notified_entries config with
       | [] => []
       | d => keep_newest ne_time 20 d
       end;
     title_notifications :=
       match title_notifications config with
       | [] => []
       | d => keep_newest te_time 20 d
       end |}.

(** The record [save_config] writes to the file. *)
Definition save_config (config : Config) : Config :=
  let config := capped config in
  if 1024 * 1024 <? Json.dumps_len config then basic_config config
  else config.

(** ** Parsed pages *)

(** A BeautifulSoup element, by what the program asks of it. Selectors are
    written without the quotation marks around their attribute values. *)
#[local] Set Warnings "-register-all".
Inductive Tag : Type := mkTag {
  name : string;                    (* [tag.name] *)
  get_text : string;                (* [tag.get_text(strip=True)] *)
  href : option string;             (* [tag.get('href')] *)
  select : string -> list Tag;      (* [tag.select(selector)], document order *)
  find_all : string -> list Tag     (* [tag.find_all(name)], document order *)
}.

(** [tag.select_one(selector)]. *)
Definition select_one (tag : Tag) (selector : string) : option Tag :=
  hd_error (select tag selector).

(** The parsed document: [soup.title.text] when there is a [title] element,
    whether that text holds the two-ideograph word for "forum" tested on
    line 413 (outside the modelled code points), and the document itself. *)
Record Soup := {
  soup_title : option string;
  soup_title_forum : bool;
  document : Tag
}.

Definition is_empty {A} (l : list A) : bool :=
  match l with [] => true | _ => false end.

Definition llen {A} (l : list A) : Z := Z.of_nat (List.length l).

(** ** Item discovery (lines 444-517) *)

Definition selectors_to_try : list string :=
  [".post-list .post-item"; ".post-card"; ".post-item"; ".category-post-item";
   "article"; ".topic-item"; ".thread-item"; ".card"; ".topic-list .topic";
   ".topic-list .topic-item"; ".topic-list tr"; ".row.topic-list-item";
   ".node-teaser"; "tbody tr"; ".item"; ".list-item"; ".thread"; ".post";
   "a.subject"; "[class*=post]"; "[class*=topic]"].

(** The loop of lines 472-478: the first selector with five matches or more
    ends it. *)
Fixpoint try_selectors (soup : Tag) (selectors : list string) : list Tag :=
  match selectors with
  | [] => []
  | selector :: rest =>
      let items := select soup selector in
      if negb (is_empty items) && (5 <=? llen items)
      then firstn 40 items
      else try_selectors soup rest
  end.

(** The loop of lines 490-495 over the [div] elements, [acc] being
    [potential_post_divs] so far. *)
Fixpoint scan_divs (divs : list Tag) (acc : list Tag) : list Tag :=
  match divs with
  | [] => acc
  | div :: rest =>
      let links := firstn 5 (find_all div "a") in
      if negb (is_empty links) && (20 <? Str.len (get_text div)) then
        let acc := (acc ++ [div])%list in
        if 40 <=? llen acc then acc else scan_divs rest acc
      else scan_divs rest acc
  end.

(** Line 492: a [div] with a link and more than 20 characters of text. *)
Definition has_link_and_text (div : Tag) : bool :=
  negb (is_empty (find_all div "a")) && (20 <? Str.len (get_text div)).

Definition potential_post_divs (soup : Tag) : list Tag :=
  scan_divs (firstn 100 (find_all soup "div")) [].

Definition content_links_selector : string :=
  "a[href*=/post/], a[href*=/topic/], a[href*=/thread/], a[href*=/discussion/]".

(** [soup.select(..., limit=40)] of line 504. *)
Definition link_elements (soup : Tag) : list Tag :=
  firstn 40 (select soup content_links_selector).

(** [soup.select('table tr', limit=40)] of line 514. *)
Definition table_rows (soup : Tag) : list Tag :=
  firstn 40 (select soup "table tr").

(** [post_items] when line 519 is reached. *)
Definition find_post_items (soup : Tag) : list Tag :=
  let post_items := try_selectors soup selectors_to_try in
  let post_items :=
    if is_empty post_items then
      let divs := potential_post_divs soup in
      if negb (is_empty divs) then firstn 40 divs else post_items
    else post_items in
  let post_items :=
    if is_empty post_items then
      let links := link_elements soup in
      if negb (is_empty links) then links else post_items
    else post_items in
  let post_items :=
    if is_empty post_items then
      let rows := table_rows soup in
      if negb (is_empty rows) && (1 <? llen rows) then
        if 40 <? llen rows then firstn 39 (skipn 1 rows) else skipn 1 rows
      else post_items
    else post_items in
  post_items.

(** ** Per-item field recovery (lines 546-660) *)

Definition title_selectors : list string :=
  ["a.post-title"; ".post-title"; "h3"; "h2"; ".title"; "h4";
   "a[href*=/post/]"; "a[href*=/topic/]"; "a[href*=/thread/]";
   "a.subject"; ".subject"; "a.title"; "td.topic-title a";
   "a[class*=title]"; ".topic-name a"; ".thread-title a"; "a.thread-link";
   "a"].

Definition link_selectors : list string :=
  ["a[href*=/post/]"; "a[href*=/topic/]"; "a[href*=/thread/]";
   "a[href*=/discussion/]"; "a.subject"; "a.title"; "a[class*=title]"; "a"].

(** Lines 556-560. *)
Fixpoint first_selected (post : Tag) (selectors : list string) : option Tag :=
  match selectors with
  | [] => None
  | selector :: rest =>
      match select_one post selector with
      | Some e => Some e
      | None => first_selected post rest
      end
  end.

(** Lines 547-573: [title_element]. *)
Definition find_title_element (post : Tag) : option Tag :=
  match first_selected post title_selectors with
  | Some e => Some e
  | None =>
      if String.eqb (name post) "a" then Some post
      else hd_error (firstn 3 (find_all post "a"))
  end.

(** Lines 580-593: [title] before the length test. *)
Definition recover_title (post title_element : Tag) : string :=
  let title := get_text title_element in
  if Str.nonempty title then title
  else
    let title := get_text post in
    if 50 <? Str.len title then Str.take 50 title ++ "..." else title.

(** A truthy [get('href')]. *)
Definition href_of (tag : Tag) : option string :=
  match href tag with
  | Some h => if Str.nonempty h then Some h else None
  | None => None
  end.

(** Lines 616-621. *)
Fixpoint first_href (post : Tag) (selectors : list string) : option string :=
  match selectors with
  | [] => None
  | selector :: rest =>
      match select_one post selector with
      | Some link_element =>
          match href_of link_element with
          | Some h => Some h
          | None => first_href post rest
          end
      | None => first_href post rest
      end
  end.

Definition site : string := "https://www.nodeseek.com".

(** Lines 624-629. *)
Definition to_absolute (link : string) : string :=
  if Str.startswith link "http" then link
  else if Str.startswith link "/" then site ++ link
  else site ++ "/" ++ link.

(** Lines 601-633: [link], when line 633 does not skip the post. *)
Definition recover_link (post title_element : Tag) : option string :=
  let link :=
    match href_of title_element with
    | Some h => Some h
    | None => first_href post link_selectors
    end in
  option_map to_absolute link.

Definition post_id_patterns : list string :=
  ["/post/"; "/topic/"; "/thread/"; "/space/"; "/discussion/"].

(** Lines 653-657. *)
Fixpoint find_post_id (patterns : list string) (link : string) : option string :=
  match patterns with
  | [] => None
  | pattern :: rest =>
      match Str.search_digits_after pattern link with
      | Some id => Some id
      | None => find_post_id rest link
      end
  end.

(** Line 660. *)
Definition entry_id (link : string) : string :=
  match find_post_id post_id_patterns link with
  | Some post_id => "post_" ++ post_id
  | None => link
  end.

(** A post that passed lines 546-638. *)
Record Item := {
  item_title : string;
  item_link : string
}.

Inductive Skip :=
| NoTitleElement   (* line 577 *)
| TitleTooShort    (* line 598 *)
| NoLink           (* line 633 *)
| UserSpaceLink.   (* line 638 *)

(** Lines 546-638 for one post. *)
Definition extract_item (post : Tag) : Item + Skip :=
  match find_title_element post with
  | None => inr NoTitleElement
  | Some title_element =>
      let title := recover_title post title_element in
      if Str.len title <? 2 then inr TitleTooShort
      else
        match recover_link post title_element with
        | None => inr NoLink
        | Some link =>
            if Str.contains "/space/" link then inr UserSpaceLink
            else inl {| item_title := title; item_link := link |}
        end
  end.

(** ** Deduplication and notification (lines 662-729) *)

(** What is sent: the matched keywords, the title and the link that the
    message text of line 722 is built from. *)
Record Notification := {
  n_keywords : list string;
  n_title : string;
  n_link : string
}.

Inductive Outcome :=
| Skipped (why : Skip)
| SimilarTitle                   (* line 689 *)
| KnownEntry                     (* line 694 *)
| NoKeyword                      (* [matched_keywords] is empty *)
| Sent (n : Notification)        (* line 724 *)
| SendFailed (n : Notification). (* line 726 *)

(** Line 663. *)
Definition normalized_title (title : string) : string :=
  Str.strip (Str.lower title).

(** Line 669. *)
Definition expired (current_time : Z) (t_data : TitleEntry) : bool :=
  86400 * usec_per_sec <? age current_time (te_time t_data).

(** Lines 666-670: [title_cleanup]. *)
Definition title_cleanup (current_time : Z) (d : Dict.t TitleEntry)
  : list string :=
  map fst (filter (fun kv => expired current_time (snd kv)) d).

(** Lines 672-674. *)
Definition purge_titles (current_time : Z) (d : Dict.t TitleEntry)
  : Dict.t TitleEntry :=
  fold_left (fun d t_key => if Dict.mem t_key d then Dict.del t_key d else d)
            (title_cleanup current_time d) d.

(** Line 680. *)
Definition similar (normalized_title t_key : string) : bool :=
  String.eqb normalized_title t_key
  || Str.contains normalized_title t_key
  || Str.contains t_key normalized_title.

(** Line 683. *)
Definition recent (current_time : Z) (t_data : TitleEntry) : bool :=
  age current_time (te_time t_data) <? 7200 * usec_per_sec.

(** Lines 677-686. *)
Definition title_already_notified (current_time : Z) (normalized_title : string)
    (d : Dict.t TitleEntry) : bool :=
  existsb (fun kv => similar normalized_title (fst kv)
                     && recent current_time (snd kv)) d.

(** Lines 697-700. *)
Definition matched_keywords (config : Config) (title : string) : list string :=
  filter (fun keyword => Str.contains (Str.lower keyword) (Str.lower title))
         (keywords config).

(** [send_telegram_message]: [endpoint_ok] tells whether the request, when it
    is made, is answered with status 200. *)
Definition send_telegram_message (config : Config) (endpoint_ok : bool) : bool :=
  if negb (Str.nonempty (bot_token (telegram config)))
     || negb (Str.nonempty (chat_id (telegram config)))
  then false
  else endpoint_ok.

(** Lines 643-729 for an item read at [current_time]. *)
Definition notify_item (config : Config) (current_time : Z) (endpoint_ok : bool)
    (item : Item) : Config * Outcome :=
  let title := item_title item in
  let link := item_link item in
  let entry_id := entry_id link in
  let normalized_title := normalized_title title in
  let config :=
    set_title_notifications
      (purge_titles current_time (title_notifications config)) config in
  if title_already_notified current_time normalized_title
       (title_notifications config)
  then (config, SimilarTitle)
  else if Dict.mem entry_id (notified_entries config)
  then (config, KnownEntry)
  else
    let matched_keywords := matched_keywords config title in
    if is_empty matched_keywords then (config, NoKeyword)
    else
      let config :=
        set_title_notifications
          (Dict.set normalized_title
             {| te_title := title; te_link := link;
                te_time := strftime current_time |}
             (title_notifications config)) config in
      let config :=
        set_notified_entries
          (Dict.set entry_id
             {| ne_title := title; ne_link := link;
                ne_keywords := matched_keywords;
                ne_time := strftime current_time |}
             (notified_entries config)) config in
      let n := {| n_keywords := matched_keywords; n_title := title;
                  n_link := link |} in
      if send_telegram_message config endpoint_ok then (config, Sent n)
      else
        let config :=
          if Dict.mem entry_id (notified_entries config)
          then set_notified_entries
                 (Dict.del entry_id (notified_entries config)) config
          else config in
        (config, SendFailed n).

(** What the world answers while one post is handled: the clock read on
    line 664 and the endpoint's answer to the request of line 723. *)
Record Moment := {
  current_time : Z;
  endpoint_ok : bool
}.

(** The body of the loop of line 539. *)
Definition process_post (config : Config) (m : Moment) (post : Tag)
  : Config * Outcome :=
  match extract_item post with
  | inr why => (config, Skipped why)
  | inl item => notify_item config (current_time m) (endpoint_ok m) item
  end.

(** Line 719. *)
Definition changes_config (o : Outcome) : bool :=
  match o with
  | Sent _ | SendFailed _ => true
  | _ => false
  end.

(** The loop of line 539. *)
Fixpoint process_posts (config : Config) (posts : list (Tag * Moment))
  : Config * list Outcome :=
  match posts with
  | [] => (config, [])
  | (post, m) :: rest =>
      let (config, o) := process_post config m post in
      let (config, os) := process_posts config rest in
      (config, o :: os)
  end.

(** Lines 739-765. *)
Definition limit_history (config : Config) : Config * bool :=
  let over_n := 50 <? Dict.len (notified_entries config) in
  let config :=
    if over_n
    then set_notified_entries
           (keep_newest ne_time 50 (notified_entries config)) config
    else config in
  let over_t := 100 <? Dict.len (title_notifications config) in
  let config :=
    if over_t
    then set_title_notifications
           (keep_newest te_time 100 (title_notifications config)) config
    else config in
  (config, over_n || over_t).

(** The result of an evaluation pass: the record in memory, what happened to
    each post, and the record written by [save_config] when line 769 runs. *)
Record Pass := {
  pass_config : Config;
  pass_outcomes : list Outcome;
  pass_saved : option Config
}.

(** Lines 539-771: from the posts found to the return. *)
Definition evaluate (config : Config) (posts : list (Tag * Moment)) : Pass :=
  let (config, outcomes) := process_posts config posts in
  let (config, trimmed) := limit_history config in
  let config_changed := existsb changes_config outcomes || trimmed in
  {| pass_config := if config_changed then capped config else config;
     pass_outcomes := outcomes;
     pass_saved := if config_changed then Some (save_config config) else None |}.

(** ** One call of [check_rss_feed] (lines 312-800) *)

Inductive Error :=
| CloudflareException
| RequestTimeout
| ConnectionError
| MemoryError
| OtherException.

(** The result of a request: a value, or an exception raised by it. *)
Inductive Fetched (A : Type) :=
| Got (a : A)
| Raised (e : Error).
Arguments Got {A} a.
Arguments Raised {A} e.

(** The answer to the request of line 374, with its body already parsed. *)
Record Response := {
  status_code : Z;
  text : string;
  soup : Soup
}.

(** What the world answers during one attempt: the status of the home page
    (asked for only when a session is acquired), the listing page, and the
    moments at which the posts are handled, by position. *)
Record Attempt := {
  homepage : Fetched Z;
  listing : Fetched Response;
  moment : nat -> Moment
}.

(** The two globals of lines 29-31: whether [scraper] is set, and the flag
    that forces a new session. *)
Record Session := {
  scraper : bool;
  need_cookie_refresh : bool
}.

Definition refresh (s : Session) (flag : bool) : Session :=
  {| scraper := scraper s; need_cookie_refresh := flag |}.

Definition max_retries : Z := 3.
Definition retry_delay : Z := 10.

(** How an attempt ends. *)
Inductive Next :=
| Continue    (* the loop of line 335 goes on with the next attempt *)
| Return.     (* [check_rss_feed] returns *)

(** The trace of one attempt. [att_backoff] lists the arguments of the
    [time.sleep] calls that wait before a retry (the random pauses of lines
    356 and 370 are left out). *)
Record Attempted := {
  att_session : Session;
  att_config : Config;
  att_outcomes : list Outcome;
  att_saved : option Config;
  att_backoff : list Z;
  att_next : Next
}.

(** Lines 411-419: [is_valid_page]. *)
Definition is_valid_page (s : Soup) : bool :=
  let by_title :=
    match soup_title s with
    | Some t => Str.contains "NodeSeek" t || soup_title_forum s
    | None => false
    end in
  if by_title then true
  else negb (is_empty (select (document s) ".navbar"))
       || negb (is_empty (select (document s) "header"))
       || negb (is_empty (select (document s) "footer")).

(** Line 375. *)
Definition looks_blocked (r : Response) : bool :=
  negb (status_code r =? 200)
  || Str.contains "Cloudflare" (text r)
  || Str.contains "captcha" (Str.lower (text r)).

(** The retry of lines 432-437 and 528-533: wait and go on, or return after
    the last attempt. *)
Definition retry_or_return (attempt : Z) (s : Session) (config : Config)
  : Attempted :=
  if attempt <? max_retries - 1 then
    {| att_session := s; att_config := config; att_outcomes := [];
       att_saved := None; att_backoff := [retry_delay * (attempt + 2)];
       att_next := Continue |}
  else
    {| att_session := s; att_config := config; att_outcomes := [];
       att_saved := None; att_backoff := []; att_next := Return |}.

(** Lines 773-800: an exception caught by the handlers of the attempt. *)
Definition handle_error (attempt : Z) (e : Error) (s : Session)
    (config : Config) : Attempted :=
  let s :=
    match e with
    | MemoryError => s
    | _ => refresh s true
    end in
  let recovery :=
    match e with
    | MemoryError =>
        if attempt <? max_retries - 1 then [retry_delay * 3] else []
    | _ => []
    end in
  let waits :=
    if attempt <? max_retries - 1 then [retry_delay * (attempt + 2)] else [] in
  {| att_session := s; att_config := config; att_outcomes := [];
     att_saved := None; att_backoff := (recovery ++ waits)%list;
     att_next := Continue |}.

(** Lines 374-771 once the session is there. *)
Definition read_listing (attempt : Z) (s : Session) (config : Config)
    (w : Attempt) : Attempted :=
  match listing w with
  | Raised e => handle_error attempt e s config
  | Got response =>
      if looks_blocked response then
        {| att_session := refresh s true; att_config := config;
           att_outcomes := []; att_saved := None; att_backoff := [];
           att_next := Continue |}
      else if negb (is_valid_page (soup response)) then
        retry_or_return attempt (refresh s true) config
      else
        let post_items := find_post_items (document (soup response)) in
        if is_empty post_items then
          retry_or_return attempt (refresh s true) config
        else
          let moments := map (moment w) (seq 0 (List.length post_items)) in
          let p := evaluate config (combine post_items moments) in
          {| att_session := s; att_config := pass_config p;
             att_outcomes := pass_outcomes p; att_saved := pass_saved p;
             att_backoff := []; att_next := Return |}
  end.

(** The body of the loop of line 335. *)
Definition attempt_once (attempt : Z) (s : Session) (config : Config)
    (w : Attempt) : Attempted :=
  if negb (scraper s) || need_cookie_refresh s then
    match homepage w with
    | Raised _ =>
        {| att_session := {| scraper := true; need_cookie_refresh := true |};
           att_config := config; att_outcomes := []; att_saved := None;
           att_backoff := []; att_next := Return |}
    | Got status =>
        read_listing attempt
          {| scraper := true; need_cookie_refresh := negb (status =? 200) |}
          config w
    end
  else read_listing attempt s config w.

(** The result of one call. *)
Record Checked := {
  chk_session : Session;
  chk_config : Config;
  chk_outcomes : list Outcome;
  chk_saved : option Config;
  chk_backoff : list Z
}.

(** The loop of line 335 from attempt number [attempt] on, the world
    answering the attempts in turn. *)
Fixpoint attempts (attempt : Z) (s : Session) (config : Config)
    (world : list Attempt) : Checked :=
  match world with
  | [] =>
      {| chk_session := s; chk_config := config; chk_outcomes := [];
         chk_saved := None; chk_backoff := [] |}
  | w :: rest =>
      let a := attempt_once attempt s config w in
      match att_next a with
      | Return =>
          {| chk_session := att_session a; chk_config := att_config a;
             chk_outcomes := att_outcomes a; chk_saved := att_saved a;
             chk_backoff := att_backoff a |}
      | Continue =>
          let c := attempts (attempt + 1) (att_session a) (att_config a) rest in
          {| chk_session := chk_session c; chk_config := chk_config c;
             chk_outcomes := chk_outcomes c; chk_saved := chk_saved c;
             chk_backoff := (att_backoff a ++ chk_backoff c)%list |}
      end
  end.

(** [check_rss_feed(config)]: nothing is done without keywords; otherwise at
    most [max_retries] attempts are made. *)
Definition check_rss_feed (s : Session) (config : Config)
    (world : list Attempt) : Checked :=
  if is_empty (keywords config) then
    {| chk_session := s; chk_config := config; chk_outcomes := [];
       chk_saved := None; chk_backoff := [] |}
  else attempts 0 s config (firstn (Z.to_nat max_retries) world).

(** ** More Python string operations *)

Module Text.

(** [s[n:]]. *)
Fixpoint drop (n : nat) (s : string) : string :=
  match n, s with
  | S k, String _ r => drop k r
  | _, _ => s
  end.

(** [re.sub(r'\s+', ' ', s)], [in_run] telling whether the character before
    was white space: a run of white space becomes one space. *)
Fixpoint sub_spaces_from (in_run : bool) (s : string) : string :=
  match s with
  | EmptyString => EmptyString
  | String c r =>
      if Str.isspace c
      then if in_run then sub_spaces_from true r
           else String " " (sub_spaces_from true r)
      else String c (sub_spaces_from false r)
  end.

Definition sub_spaces (s : string) : string := sub_spaces_from false s.

(** The white space [int] skips around a number: that of [str.isspace]
    without the four separators 0x1C-0x1F. *)
Definition int_space (c : ascii) : bool :=
  let n := Str.code c in
  (((9 <=? n) && (n <=? 13)) || (n =? 32) || (n =? 133) || (n =? 160))%N.

Fixpoint int_lstrip (s : string) : string :=
  match s with
  | EmptyString => EmptyString
  | String c r => if int_space c then int_lstrip r else s
  end.

Fixpoint int_rstrip (s : string) : string :=
  match s with
  | EmptyString => EmptyString
  | String c r =>
      match int_rstrip r with
      | EmptyString =>
          if int_space c then EmptyString else String c EmptyString
      | r' => String c r'
      end
  end.

(** [sys.get_int_max_str_digits()] as CPython sets it: a decimal text with
    more digits is refused by [int] with a [ValueError]. *)
Definition int_max_str_digits : Z := 4300.

(** The digits of a decimal literal, [acc] being the value read so far,
    [seen] the number of digits read so far (leading zeros count,
    underscores do not) and [after_digit] telling whether the character
    before was a digit: single underscores may stand between digits. *)
Fixpoint int_digits (s : string) (acc seen : Z) (after_digit : bool)
  : option Z :=
  match s with
  | EmptyString =>
      if after_digit && (seen <=? int_max_str_digits) then Some acc else None
  | String c r =>
      if Str.isdigit c
      then int_digits r (10 * acc + Z.of_N (Str.code c - 48)) (seen + 1) true
      else if Ascii.eqb c "_" && after_digit then int_digits r acc seen false
      else None
  end.

(** [int(s)], [None] standing for [ValueError]. *)
Definition int (s : string) : option Z :=
  match int_rstrip (int_lstrip s) with
  | String "+" r => int_digits r 0 0 false
  | String "-" r => option_map Z.opp (int_digits r 0 0 false)
  | t => int_digits t 0 0 false
  end.

(** [x in l] and [l.remove(x)] on a list of strings. *)
Definition mem (x : string) (l : list string) : bool :=
  existsb (String.eqb x) l.

Fixpoint remove (x : string) (l : list string) : list string :=
  match l with
  | [] => []
  | y :: r => if String.eqb x y then r else y :: remove x r
  end.

(** [l.pop(i)] for an index in range: the list without its element [i]. *)
Definition pop (i : nat) (l : list string) : list string :=
  (firstn i l ++ skipn (S i) l)%list.

(** The first character, if there is one, is not white space. *)
Definition starts_clean (s : string) : Prop :=
  match s with
  | EmptyString => True
  | String c _ => Str.isspace c = false
  end.

(** Every white space character is a space followed by a character that is
    not white space: no run of white space, and none at the end. *)
Fixpoint single_spaced (s : string) : Prop :=
  match s with
  | EmptyString => True
  | String c r =>
      (Str.isspace c = true ->
       c = " "%char
       /\ match r with
          | EmptyString => False
          | String d _ => Str.isspace d = false
          end)
      /\ single_spaced r
  end.

(** Every character is a digit. *)
Fixpoint all_digits (s : string) : Prop :=
  match s with
  | EmptyString => True
  | String c r => Str.isdigit c = true /\ all_digits r
  end.

(** The first character, if there is one, is not a digit. *)
Definition no_digit_ahead (s : string) : Prop :=
  match s with
  | EmptyString => True
  | String c _ => Str.isdigit c = false
  end.

(** [pattern] stands in [s] right after [before] and right before a digit:
    a place where [pattern + r'(\d+)'] matches. *)
Definition matches_at (pattern before s : string) : Prop :=
  exists c after,
    s = before ++ pattern ++ String c after /\ Str.isdigit c = true.

(** What [pattern + r'(\d+)'] captures when it matches at the very start
    of [s]: the test [search_digits_after] makes at each place. *)
Definition capture_at (pattern s : string) : option string :=
  match Str.after_prefix pattern s with
  | Some rest =>
      match Str.digits rest with
      | EmptyString => None
      | d => Some d
      end
  | None => None
  end.

(** [re.search(pattern + r'(\d+)', s)] finds something. *)
Definition digit_follows (pattern s : string) : Prop :=
  exists before, matches_at pattern before s.

End Text.

(** [kept] is [all] without some of its elements, the others in the order
    they have in [all]. *)
Inductive subsequence {A : Type} : list A -> list A -> Prop :=
| subsequence_nil : subsequence [] []
| subsequence_keep x kept all :
    subsequence kept all -> subsequence (x :: kept) (x :: all)
| subsequence_drop x kept all :
    subsequence kept all -> subsequence kept (x :: all).

Definition set_keywords (ks : list string) (c : Config) : Config :=
  {| keywords := ks; notified_entries := notified_entries c;
     title_notifications := title_notifications c; telegram := telegram c |}.

Definition set_telegram (t : Telegram) (c : Config) : Config :=
  {| keywords := keywords c; notified_entries := notified_entries c;
     title_notifications := title_notifications c; telegram := t |}.

(** ** [handle_telegram_commands] (lines 258-309) *)

(** An element of [result]: its [update_id], the text of its message and
    the identifier of the chat it comes from, as a string; a missing text or
    chat reads as the empty string. *)
Record Update := {
  update_id : Z;
  upd_text : string;
  upd_sender : string
}.

(** The answers of lines 281-303, by their content. *)
Inductive Reply :=
| ReplyAdded (keyword : string)        (* line 287 *)
| ReplyExistsOrEmpty                   (* line 289 *)
| ReplyDeleted (keyword : string)      (* line 295 *)
| ReplyNotFound                        (* line 297 *)
| ReplyList (ks : list string)         (* line 299, keywords present *)
| ReplyNoKeywords                      (* line 299, no keyword *)
| ReplyHelp                            (* line 301 *)
| ReplyUnknown.                        (* line 303 *)

(** What handling one update does: the record in memory, the record written
    when [save_config] is called, and the answer handed to
    [send_telegram_message]. *)
Record Handled := {
  h_config : Config;
  h_saved : option Config;
  h_reply : option Reply
}.

(** The body of the loop of line 272 after [last_update_id] is set. *)
Definition handle_update (config : Config) (u : Update) : Handled :=
  if negb (String.eqb (upd_sender u) (chat_id (telegram config))) then
    {| h_config := config; h_saved := None; h_reply := None |}
  else if Str.startswith (upd_text u) "/add " then
    let keyword := Str.strip (Text.drop 5 (upd_text u)) in
    if Str.nonempty keyword && negb (Text.mem keyword (keywords config)) then
      let config := set_keywords (keywords config ++ [keyword])%list config in
      {| h_config := capped config; h_saved := Some (save_config config);
         h_reply := Some (ReplyAdded keyword) |}
    else
      {| h_config := config; h_saved := None;
         h_reply := Some ReplyExistsOrEmpty |}
  else if Str.startswith (upd_text u) "/del " then
    let keyword := Str.strip (Text.drop 5 (upd_text u)) in
    if Text.mem keyword (keywords config) then
      let config := set_keywords (Text.remove keyword (keywords config)) config in
      {| h_config := capped config; h_saved := Some (save_config config);
         h_reply := Some (ReplyDeleted keyword) |}
    else
      {| h_config := config; h_saved := None; h_reply := Some ReplyNotFound |}
  else if Str.startswith (upd_text u) "/list" then
    {| h_config := config; h_saved := None;
       h_reply := Some (if is_empty (keywords config) then ReplyNoKeywords
                        else ReplyList (keywords config)) |}
  else if Str.startswith (upd_text u) "/help" then
    {| h_config := config; h_saved := None; h_reply := Some ReplyHelp |}
  else
    {| h_config := config; h_saved := None; h_reply := Some ReplyUnknown |}.

(** The state of the listener: its record, the offset of the next request,
    the last record it wrote and the answers it sent, oldest first. *)
Record Listener := {
  l_config : Config;
  last_update_id : option Z;
  l_file : option Config;
  l_replies : list Reply
}.

(** One update of the loop of line 272. *)
Definition listen (l : Listener) (u : Update) : Listener :=
  let h := handle_update (l_config l) u in
  {| l_config := h_config h;
     last_update_id := Some (update_id u + 1);
     l_file := match h_saved h with Some f => Some f | None => l_file l end;
     l_replies := (l_replies l ++
                   match h_reply h with Some r => [r] | None => [] end)%list |}.

(** [handle_telegram_commands(config)] over the updates received, in the
    order received: without a token or a chat identifier nothing is asked
    for (line 263). *)
Definition handle_telegram_commands (config : Config) (updates : list Update)
  : Listener :=
  let start := {| l_config := config; last_update_id := None;
                  l_file := None; l_replies := [] |} in
  if negb (Str.nonempty (bot_token (telegram config)))
     || negb (Str.nonempty (chat_id (telegram config)))
  then start
  else fold_left listen updates start.

(** ** The keyword menu (lines 1380-1463) *)

Inductive Added :=
| AddEmpty                        (* line 1400 *)
| AddExists (keyword : string)    (* line 1404 *)
| AddDone (keyword : string).     (* line 1408 *)

(** [add_keyword] on the record loaded and the line typed: what happened and
    the record written, if any. *)
Definition add_keyword (config : Config) (typed : string)
  : Added * option Config :=
  let keyword := Str.strip typed in
  let keyword := Str.strip (Text.sub_spaces keyword) in
  if negb (Str.nonempty keyword) then (AddEmpty, None)
  else if Text.mem keyword (keywords config) then (AddExists keyword, None)
  else
    (AddDone keyword,
     Some (save_config
             (set_keywords (keywords config ++ [keyword])%list config))).

Inductive Deleted :=
| DelNoKeywords                   (* line 1432 *)
| DelCancelled                    (* line 1444 *)
| DelNotANumber                   (* line 1457 *)
| DelInvalid                      (* line 1455 *)
| DelDone (keyword : string).     (* line 1452 *)

(** [delete_keyword] on the record loaded and the answer typed. *)
Definition delete_keyword (config : Config) (choice : string)
  : Deleted * option Config :=
  if is_empty (keywords config) then (DelNoKeywords, None)
  else if negb (Str.nonempty (Str.strip choice))
          || String.eqb (Str.strip choice) "0" then (DelCancelled, None)
  else
    match Text.int choice with
    | None => (DelNotANumber, None)
    | Some choice =>
        if (1 <=? choice) && (choice <=? llen (keywords config)) then
          let i := Z.to_nat (choice - 1) in
          (DelDone (nth i (keywords config) ""),
           Some (save_config
                   (set_keywords (Text.pop i (keywords config)) config)))
        else (DelInvalid, None)
    end.

(** ** [view_logs] (lines 1349-1377) *)




(** ** [is_monitoring_running] (lines 1046-1061) *)




(** ** [monitor_loop] (lines 803-1043) *)

Inductive Platform := Posix | Windows.

(** The locals of [monitor_loop] that outlive a cycle, with the record and
    the session [check_rss_feed] works on. *)
Record Loop := {
  gc_counter : Z;
  memory_check_counter : Z;
  reload_counter : Z;
  detection_counter : Z;
  consecutive_errors : Z;
  total_errors : Z;
  cf_errors : Z;
  last_gc_time : Z;
  loop_config : Config;
  loop_session : Session
}.

(** How the call of [check_rss_feed] on line 925 ends: it returns, the world
    having answered its attempts, or an exception with this message gets out
    of it (the record is then taken to be as it was). *)
Inductive Check :=
| Completes (world : list Attempt)
| Fails (error_msg : string).

(** What the world answers during one cycle: the clock of line 864, the two
    memory readings of lines 872 and 885 ([None] when the reading raises),
    what [load_config] returns if it is called, the call of
    [check_rss_feed], the clock of line 987, and whether the restart script
    of the Windows branch can be written and started. Clocks are in
    microseconds. *)
Record Cycle := {
  cy_clock : Z;
  cy_memory : option Z;
  cy_new_memory : option Z;
  cy_loaded : Config;
  cy_check : Check;
  cy_error_clock : Z;
  cy_script_ok : bool
}.

Definition memory_threshold : Z := 200 * 1024 * 1024.

(** [memory_threshold * 0.9], which the floating-point product gives
    exactly. *)
Definition leak_level : Z := 188743680.

Definition max_interval : Z := 40.
Definition max_consecutive_errors : Z := 5.
Definition max_detection_count : Z := 10.

(** How a cycle ends. *)
Inductive Ending :=
| GoesOn      (* the loop of line 856 goes on *)
| Restarts    (* [os.execv] replaces the process *)
| Exits.      (* [sys.exit(0)] ends it *)

(** A restart: [os.execv] elsewhere than on Windows; there, the script and
    [sys.exit(0)], or a logged failure after which the loop goes on. *)
Definition restart (os : Platform) (script_ok : bool) : Ending :=
  match os with
  | Posix => Restarts
  | Windows => if script_ok then Exits else GoesOn
  end.

(** The trace of one cycle: the locals after it, how it ends, whether the
    memory was read, whether [load_config] was called, what
    [check_rss_feed] did, the fixed waits in seconds, and whether the random
    wait of line 1035 was reached. *)
Record Step := {
  step_loop : Loop;
  step_ending : Ending;
  step_sampled : bool;
  step_reloaded : bool;
  step_checked : option Checked;
  step_pauses : list Z;
  step_interval : bool
}.

(** Lines 968-1011: the kind of an error, by its message. *)
Inductive ErrorKind :=
| CloudflareKind
| DescriptorKind
| MemoryKind
| OtherKind.

Definition classify (error_msg : string) : ErrorKind :=
  if Str.contains "403" error_msg
     || Str.contains "cloudflare" (Str.lower error_msg)
     || Str.contains "cloud" (Str.lower error_msg)
  then CloudflareKind
  else if Str.contains "Too many open files" error_msg then DescriptorKind
  else if Str.contains "MemoryError" error_msg
          || Str.contains "memory" (Str.lower error_msg)
  then MemoryKind
  else OtherKind.

(** Lines 859-864. *)
Definition tick_gc (l : Loop) (c : Cycle) : Loop :=
  let n := gc_counter l + 1 in
  {| gc_counter := if 10 <=? n then 0 else n;
     memory_check_counter := memory_check_counter l;
     reload_counter := reload_counter l;
     detection_counter := detection_counter l;
     consecutive_errors := consecutive_errors l;
     total_errors := total_errors l;
     cf_errors := cf_errors l;
     last_gc_time := if 10 <=? n then cy_clock c else last_gc_time l;
     loop_config := loop_config l;
     loop_session := loop_session l |}.

(** Lines 877-888: the memory is over the threshold and, after the
    collection, still over nine tenths of it. *)
Definition suspects_leak (c : Cycle) : bool :=
  match cy_memory c with
  | Some memory_usage =>
      (memory_threshold <? memory_usage)
      && match cy_new_memory c with
         | Some new_memory_usage => leak_level <? new_memory_usage
         | None => false
         end
  | None => false
  end.

Definition set_memory_check_counter (n : Z) (l : Loop) : Loop :=
  {| gc_counter := gc_counter l;
     memory_check_counter := n;
     reload_counter := reload_counter l;
     detection_counter := detection_counter l;
     consecutive_errors := consecutive_errors l;
     total_errors := total_errors l;
     cf_errors := cf_errors l;
     last_gc_time := last_gc_time l;
     loop_config := loop_config l;
     loop_session := loop_session l |}.

(** Lines 919-923. *)
Definition maybe_reload (l : Loop) (c : Cycle) : Loop * bool :=
  let reload := 10 <=? reload_counter l in
  ({| gc_counter := gc_counter l;
      memory_check_counter := memory_check_counter l;
      reload_counter := if reload then 0 else reload_counter l + 1;
      detection_counter := detection_counter l;
      consecutive_errors := consecutive_errors l;
      total_errors := total_errors l;
      cf_errors := cf_errors l;
      last_gc_time := last_gc_time l;
      loop_config := if reload then cy_loaded c else loop_config l;
      loop_session := loop_session l |}, reload).

(** Lines 925-961: the call returned. *)
Definition after_check (os : Platform) (l : Loop) (c : Cycle) (r : Checked)
    (sampled reloaded : bool) : Step :=
  let n := detection_counter l + 1 in
  let ending :=
    if max_detection_count <=? n then restart os (cy_script_ok c)
    else GoesOn in
  {| step_loop :=
       {| gc_counter := gc_counter l;
          memory_check_counter := memory_check_counter l;
          reload_counter := reload_counter l;
          detection_counter := if max_detection_count <=? n then 0 else n;
          consecutive_errors := 0;
          total_errors := total_errors l;
          cf_errors := cf_errors l;
          last_gc_time := last_gc_time l;
          loop_config := chk_config r;
          loop_session := chk_session r |};
     step_ending := ending;
     step_sampled := sampled;
     step_reloaded := reloaded;
     step_checked := Some r;
     step_pauses := [];
     step_interval := match ending with GoesOn => true | _ => false end |}.

(** Lines 962-1024: an exception reached the handler of the cycle. *)
Definition after_error (os : Platform) (l : Loop) (c : Cycle)
    (error_msg : string) (sampled reloaded : bool) : Step :=
  let kind := classify error_msg in
  let errors := consecutive_errors l + 1 in
  let stale := 3600 * usec_per_sec <? cy_error_clock c - last_gc_time l in
  let ending :=
    match kind with
    | MemoryKind => if stale then restart os (cy_script_ok c) else GoesOn
    | _ => GoesOn
    end in
  let pause :=
    match kind with
    | DescriptorKind | MemoryKind => [30]
    | _ => []
    end in
  let cooldown :=
    match ending with
    | GoesOn => max_consecutive_errors <=? errors
    | _ => false
    end in
  {| step_loop :=
       {| gc_counter := gc_counter l;
          memory_check_counter := memory_check_counter l;
          reload_counter :=
            if cooldown then 10
            else match kind with
                 | DescriptorKind => 10
                 | _ => reload_counter l
                 end;
          detection_counter := detection_counter l;
          consecutive_errors := if cooldown then 0 else errors;
          total_errors := total_errors l + 1;
          cf_errors :=
            match kind with
            | CloudflareKind => cf_errors l + 1
            | _ => cf_errors l
            end;
          last_gc_time := last_gc_time l;
          loop_config := loop_config l;
          loop_session := loop_session l |};
     step_ending := ending;
     step_sampled := sampled;
     step_reloaded := reloaded;
     step_checked := None;
     step_pauses :=
       (pause ++ if cooldown then [max_interval * 2] else [])%list;
     step_interval :=
       match ending with GoesOn => negb cooldown | _ => false end |}.

(** The body of the loop of line 856. *)
Definition cycle (os : Platform) (l : Loop) (c : Cycle) : Step :=
  let l := tick_gc l c in
  let n := memory_check_counter l + 1 in
  let sampled := 5 <=? n in
  let ending :=
    if sampled && suspects_leak c then restart os (cy_script_ok c)
    else GoesOn in
  match ending with
  | GoesOn =>
      let l := set_memory_check_counter (if sampled then 0 else n) l in
      let (l, reloaded) := maybe_reload l c in
      match cy_check c with
      | Completes world =>
          after_check os l c
            (check_rss_feed (loop_session l) (loop_config l) world)
            sampled reloaded
      | Fails error_msg => after_error os l c error_msg sampled reloaded
      end
  | _ =>
      {| step_loop := set_memory_check_counter n l;
         step_ending := ending;
         step_sampled := sampled;
         step_reloaded := false;
         step_checked := None;
         step_pauses := [];
         step_interval := false |}
  end.

(** The locals when the loop is entered: [config] is what [load_config]
    returned on line 841 and [clock] the time of line 849; the module starts
    without a scraper and with the refresh flag up. *)
Definition loop_start (config : Config) (clock : Z) : Loop :=
  {| gc_counter := 0; memory_check_counter := 0; reload_counter := 0;
     detection_counter := 0; consecutive_errors := 0; total_errors := 0;
     cf_errors := 0; last_gc_time := clock; loop_config := config;
     loop_session := {| scraper := false; need_cookie_refresh := true |} |}.

(** The loop of line 856 over the cycles the world allows, until one of
    them ends the process. *)
Fixpoint monitor_loop (os : Platform) (l : Loop) (cycles : list Cycle)
  : list Step :=
  match cycles with
  | [] => []
  | c :: rest =>
      let s := cycle os l c in
      s :: match step_ending s with
           | GoesOn => monitor_loop os (step_loop s) rest
           | _ => []
           end
  end.

(** What an attempt does to the record: it keeps the keywords and the
    Telegram settings, in memory and in what it saves. *)
Definition keeps_settings (config : Config) (a : Attempted) : Prop :=
  (keywords (att_config a) = keywords config
   /\ telegram (att_config a) = telegram config)
  /\ forall saved,
       att_saved a = Some saved ->
       keywords saved = keywords config /\ telegram saved = telegram config.

(** The counters of the loop are within their bounds. *)
Definition loop_in_range (l : Loop) : Prop :=
  0 <= gc_counter l < 10
  /\ 0 <= memory_check_counter l < 5
  /\ 0 <= reload_counter l <= 10
  /\ 0 <= detection_counter l < max_detection_count
  /\ 0 <= consecutive_errors l < max_consecutive_errors.

(** The call of [check_rss_feed] returns. *)
Definition completes (c : Cycle) : Prop :=
  match cy_check c with
  | Completes _ => True
  | Fails _ => False
  end.

(** An exception gets out of the call of [check_rss_feed]. *)
Definition fails (c : Cycle) : Prop :=
  match cy_check c with
  | Completes _ => False
  | Fails _ => True
  end.

(** ** Sample pages and records *)

(** An element without descendants. *)
Definition leaf (nm txt : string) (h : option string) : Tag :=
  mkTag nm txt h (fun _ => []) (fun _ => []).

(** [<a href=link>title</a>]. *)
Definition anchor (title link : string) : Tag := leaf "a" title (Some link).

(** [<div><a href=link>title</a></div>]. *)
Definition post_of (title link : string) : Tag :=
  let links := [anchor title link] in
  mkTag "div" title None
    (fun selector =>
       if String.eqb selector "a" then links
       else if String.eqb selector "a[href*=/post/]"
               && Str.contains "/post/" link then links
       else [])
    (fun nm => if String.eqb nm "a" then links else []).

Definition sample_telegram : Telegram :=
  {| bot_token := "123456:token"; chat_id := "1001" |}.

Definition sample_config : Config :=
  {| keywords := ["deal"]; notified_entries := []; title_notifications := [];
     telegram := sample_telegram |}.

(** A clock reading, from seconds. *)
Definition seconds (s : Z) : Z := s * usec_per_sec.

Definition at_time (s : Z) (ok : bool) : Moment :=
  {| current_time := seconds s; endpoint_ok := ok |}.

(** The post "Deal A" was notified at second 0 and is met again 25 hours
    later. *)
Definition day_old_config : Config :=
  {| keywords := ["deal"];
     notified_entries :=
       [("post_7", {| ne_title := "Deal A";
                      ne_link := "https://www.nodeseek.com/post/7";
                      ne_keywords := ["deal"]; ne_time := 0 |})];
     title_notifications :=
       [("deal a", {| te_title := "Deal A";
                      te_link := "https://www.nodeseek.com/post/7";
                      te_time := 0 |})];
     telegram := sample_telegram |}.

Definition deal_a : Item :=
  {| item_title := "Deal A"; item_link := "https://www.nodeseek.com/post/7" |}.

Definition deal_a_again : Item :=
  {| item_title := "DEAL A"; item_link := "https://www.nodeseek.com/post/8" |}.

(** Posts with distinct titles of one width, none occurring in another. *)
Definition digit (n : N) : ascii := ascii_of_N (48 + n mod 10).

Definition three_digits (n : N) : string :=
  String (digit (n / 100)) (String (digit (n / 10)) (String (digit n) "")).

Definition numbered_post (n : N) : Tag :=
  post_of ("deal no " ++ three_digits n) ("/post/" ++ three_digits n).

(** Forty posts numbered from [start], all handled at second [s]. *)
Definition batch (start : N) (s : Z) : list (Tag * Moment) :=
  map (fun i => (numbered_post (start + N.of_nat i), at_time s true))
      (seq 0 40).

(** Five passes in 140 seconds: "Deal A", then three pages of forty new
    matching posts, then "DEAL A" under another link. *)
Definition busy_pass1 : Pass :=
  evaluate sample_config [(post_of "Deal A" "/post/7", at_time 0 true)].
Definition busy_pass2 : Pass := evaluate (pass_config busy_pass1) (batch 100 35).
Definition busy_pass3 : Pass := evaluate (pass_config busy_pass2) (batch 200 70).
Definition busy_pass4 : Pass := evaluate (pass_config busy_pass3) (batch 300 105).
Definition busy_pass5 : Pass :=
  evaluate (pass_config busy_pass4)
           [(post_of "DEAL A" "/post/8", at_time 140 true)].

(** The same five passes when the delivery for "Deal A" fails at second 0
    and the very same post is met again at second 140. *)
Definition failed_pass1 : Pass :=
  evaluate sample_config [(post_of "Deal A" "/post/7", at_time 0 false)].
Definition failed_pass2 : Pass :=
  evaluate (pass_config failed_pass1) (batch 100 35).
Definition failed_pass3 : Pass :=
  evaluate (pass_config failed_pass2) (batch 200 70).
Definition failed_pass4 : Pass :=
  evaluate (pass_config failed_pass3) (batch 300 105).
Definition failed_pass5 : Pass :=
  evaluate (pass_config failed_pass4)
           [(post_of "Deal A" "/post/7", at_time 140 true)].

(** Seven content links on a page that nothing else matches. *)
Definition seven_links : list Tag :=
  map (fun n => anchor ("deal no " ++ three_digits n)
                       ("/post/" ++ three_digits n))
      [1; 2; 3; 4; 5; 6; 7]%N.

Definition links_only_page : Tag :=
  mkTag "[document]" "" None
    (fun selector =>
       if String.eqb selector content_links_selector then seven_links else [])
    (fun _ => []).

(** [<div><a href=/post/9><img></a>Half-price ... only</div>]: the link has
    no text, the element has 51 characters of it. *)
Definition picture_link : Tag := anchor "" "/post/9".

Definition picture_post : Tag :=
  mkTag "div" "Half-price hosting for three months, this week only" None
    (fun selector => if String.eqb selector "a" then [picture_link] else [])
    (fun nm => if String.eqb nm "a" then [picture_link] else []).

(** A page titled as the site is, in which nothing is found. *)
Definition empty_page : Soup :=
  {| soup_title := Some "NodeSeek"; soup_title_forum := false;
     document := leaf "[document]" "" None |}.

Definition empty_listing : Attempt :=
  {| homepage := Got 200;
     listing := Got {| status_code := 200; text := "<html></html>";
                       soup := empty_page |};
     moment := fun _ => at_time 0 true |}.

Definition live_session : Session :=
  {| scraper := true; need_cookie_refresh := false |}.

(** Thirty identity records with titles of 40000 characters: more than a
    megabyte of JSON, under the cap of 50. *)
Definition bulky_entry (n : N) : string * NotifiedEntry :=
  ("post_" ++ three_digits n,
   {| ne_title := Str.replicate 40000 "x";
      ne_link := "https://www.nodeseek.com/post/" ++ three_digits n;
      ne_keywords := ["deal"];
      ne_time := Z.of_N n |}).

Definition bulky_config : Config :=
  {| keywords := ["deal"];
     notified_entries := map (fun i => bulky_entry (N.of_nat i)) (seq 1 30);
     title_notifications := [];
     telegram := sample_telegram |}.

(** An update from the chat of [sample_telegram], and one from elsewhere. *)
Definition owner_says (id : Z) (said : string) : Update :=
  {| update_id := id; upd_text := said; upd_sender := "1001" |}.

Definition stranger_says (id : Z) (said : string) : Update :=
  {| update_id := id; upd_text := said; upd_sender := "666" |}.

(** A cycle in which the page is valid but empty, and one in which an
    exception gets out of [check_rss_feed]; the memory is far below the
    threshold in both. *)
Definition quiet_cycle : Cycle :=
  {| cy_clock := seconds 100; cy_memory := Some 50000000;
     cy_new_memory := None; cy_loaded := sample_config;
     cy_check := Completes [empty_listing; empty_listing; empty_listing];
     cy_error_clock := seconds 100; cy_script_ok := true |}.

Definition failing_cycle : Cycle :=
  {| cy_clock := seconds 100; cy_memory := Some 50000000;
     cy_new_memory := None; cy_loaded := day_old_config;
     cy_check := Fails "connection reset by peer";
     cy_error_clock := seconds 130; cy_script_ok := true |}.

(** Five failing cycles and a quiet one, from the start of a process. *)
Definition failed1 : Step :=
  cycle Posix (loop_start sample_config 0) failing_cycle.
Definition failed2 : Step := cycle Posix (step_loop failed1) failing_cycle.
Definition failed3 : Step := cycle Posix (step_loop failed2) failing_cycle.
Definition failed4 : Step := cycle Posix (step_loop failed3) failing_cycle.
Definition failed5 : Step := cycle Posix (step_loop failed4) failing_cycle.
Definition reloading : Step := cycle Posix (step_loop failed5) quiet_cycle.

(** * Properties *)

(** ** Strings *)

Module StrFacts.
Import Str.

Lemma after_prefix_spec p : forall s r,
  after_prefix p s = Some r <-> s = p ++ r.
Proof.
  induction p as [|a p IH]; intros s r; simpl.
  - split; [intros [= ->]; reflexivity | intros ->; reflexivity].
  - destruct s as [|b s].
    + split; discriminate.
    + destruct (Ascii.eqb_spec a b) as [->|Hab].
      * rewrite IH. split; [intros ->; reflexivity | intros [= ->]; reflexivity].
      * split; [discriminate | intros [= E _]; congruence].
Qed.

Lemma startswith_spec s p :
  startswith s p = true <-> exists r, s = p ++ r.
Proof.
  unfold startswith. split.
  - destruct (after_prefix p s) as [r|] eqn:E; [|discriminate].
    intros _. exists r. now apply after_prefix_spec.
  - intros [r Hr]. apply after_prefix_spec in Hr. now rewrite Hr.
Qed.

Lemma contains_unfold needle hay :
  contains needle hay =
  startswith hay needle
  || match hay with
     | EmptyString => false
     | String _ r => contains needle r
     end.
Proof. destruct hay; reflexivity. Qed.

Lemma contains_spec needle : forall hay,
  contains needle hay = true <-> occurs_in needle hay.
Proof.
  intros hay. split.
  - induction hay as [|c hay IH]; rewrite contains_unfold;
      intros H; apply orb_true_iff in H as [H|H].
    + apply startswith_spec in H as [r Hr]. now exists "", r.
    + discriminate.
    + apply startswith_spec in H as [r Hr]. now exists "", r.
    + destruct (IH H) as (p & q & ->). now exists (String c p), q.
  - intros (p & q & ->). induction p as [|c p IH].
    + rewrite contains_unfold. apply orb_true_iff. left.
      apply startswith_spec. now exists q.
    + rewrite contains_unfold. apply orb_true_iff. right. exact IH.
Qed.

Lemma length_take n : forall s,
  String.length (take n s) = Nat.min n (String.length s).
Proof.
  induction n as [|n IH]; intros [|c s]; simpl; auto.
Qed.

Lemma length_append a b :
  String.length (a ++ b) = (String.length a + String.length b)%nat.
Proof. induction a; simpl; auto. Qed.

End StrFacts.

(** ** Dictionaries *)

Module DictFacts.
Import Dict.

Section Facts.
Context {V : Type}.
Implicit Types (d : Dict.t V) (k : string) (v : V).

Lemma get_set_eq k v d : get k (set k v d) = Some v.
Proof.
  induction d as [|[k' v'] d IH]; simpl.
  - now rewrite String.eqb_refl.
  - destruct (String.eqb k k') eqn:E; simpl.
    + now rewrite String.eqb_refl.
    + now rewrite E.
Qed.

Lemma get_set_ne k k' v d : k <> k' -> get k' (set k v d) = get k' d.
Proof.
  intros Hne. induction d as [|[k0 v0] d IH]; simpl.
  - destruct (String.eqb_spec k' k); congruence.
  - destruct (String.eqb_spec k k0) as [->|Hk]; simpl.
    + destruct (String.eqb_spec k' k0); congruence.
    + now rewrite IH.
Qed.

Lemma get_None_keys k d : get k d = None <-> ~ In k (map fst d).
Proof.
  induction d as [|[k0 v0] d IH]; simpl.
  - tauto.
  - destruct (String.eqb_spec k k0) as [->|Hk].
    + split; [discriminate | intros H; exfalso; auto].
    + rewrite IH. split; [intros H [E|Hin]; congruence | tauto].
Qed.

Lemma mem_false_keys k d : mem k d = false <-> ~ In k (map fst d).
Proof.
  unfold mem. rewrite <- get_None_keys.
  destruct (get k d); split; congruence.
Qed.

Lemma set_fresh k v d : mem k d = false -> set k v d = (d ++ [(k, v)])%list.
Proof.
  induction d as [|[k0 v0] d IH]; simpl; [reflexivity|].
  unfold mem in *. simpl. destruct (String.eqb k k0); [discriminate|].
  intros H. now rewrite IH.
Qed.

Lemma keys_set k v d :
  map fst (set k v d) =
  if mem k d then map fst d else (map fst d ++ [k])%list.
Proof.
  induction d as [|[k0 v0] d IH]; simpl; [reflexivity|].
  unfold mem in *. simpl.
  destruct (String.eqb_spec k k0) as [->|Hk]; simpl; [reflexivity|].
  rewrite IH. now destruct (get k d).
Qed.

Lemma wf_nil : wf (@nil (string * V)).
Proof. constructor. Qed.

Lemma wf_set k v d : wf d -> wf (set k v d).
Proof.
  unfold wf. rewrite keys_set. destruct (mem k d) eqn:E; [easy|].
  intros H. apply mem_false_keys in E.
  apply NoDup_rev in H. rewrite <- (rev_involutive (_ ++ _)).
  apply NoDup_rev. rewrite rev_app_distr. simpl. constructor; [|exact H].
  now rewrite <- in_rev.
Qed.

Lemma del_absent k d : mem k d = false -> del k d = d.
Proof.
  induction d as [|[k0 v0] d IH]; simpl; [reflexivity|].
  unfold mem in *. simpl. destruct (String.eqb k k0); [discriminate|].
  intros H. now rewrite IH.
Qed.

Lemma del_set_fresh k v d : mem k d = false -> del k (set k v d) = d.
Proof.
  induction d as [|[k0 v0] d IH]; simpl.
  - now rewrite String.eqb_refl.
  - unfold mem in *. simpl. destruct (String.eqb k k0) eqn:E; [discriminate|].
    intros H. simpl. rewrite E. now rewrite IH.
Qed.

Lemma filter_all (f : string * V -> bool) d :
  (forall kv, In kv d -> f kv = true) -> filter f d = d.
Proof.
  induction d as [|kv d IH]; simpl; intros H; [reflexivity|].
  rewrite (H kv) by now left. f_equal. apply IH. intros; apply H; now right.
Qed.

Lemma del_filter k d :
  wf d -> del k d = filter (fun kv => negb (String.eqb k (fst kv))) d.
Proof.
  unfold wf. induction d as [|[k0 v0] d IH]; simpl; [reflexivity|].
  intros H. inversion H as [|? ? Hnin Hd]; subst.
  destruct (String.eqb_spec k k0) as [->|Hk]; simpl.
  - symmetry. apply filter_all. intros [k1 v1] Hin. simpl.
    destruct (String.eqb_spec k0 k1) as [->|]; [|reflexivity].
    exfalso. apply Hnin. now apply (in_map fst) in Hin.
  - now rewrite IH.
Qed.

Lemma wf_filter (f : string * V -> bool) d : wf d -> wf (filter f d).
Proof.
  unfold wf. induction d as [|[k0 v0] d IH]; simpl; [easy|].
  intros H. inversion H as [|? ? Hnin Hd]; subst.
  destruct (f (k0, v0)); simpl; [|auto].
  constructor; [|auto]. intros Hin. apply Hnin.
  apply in_map_iff in Hin as (kv & <- & Hkv).
  apply filter_In in Hkv as [Hkv _]. now apply in_map.
Qed.

Lemma wf_del k d : wf d -> wf (del k d).
Proof. intros H. rewrite del_filter by exact H. now apply wf_filter. Qed.

Lemma mem_del k d : wf d -> mem k (del k d) = false.
Proof.
  intros H. apply mem_false_keys. rewrite del_filter by exact H.
  intros Hin. apply in_map_iff in Hin as ([k1 v1] & <- & Hkv).
  apply filter_In in Hkv as [_ Hkv]. simpl in Hkv.
  now rewrite String.eqb_refl in Hkv.
Qed.

Lemma In_get k v d : wf d -> In (k, v) d <-> get k d = Some v.
Proof.
  unfold wf. induction d as [|[k0 v0] d IH]; simpl.
  - intros _. split; [tauto | discriminate].
  - intros H. inversion H as [|? ? Hnin Hd]; subst.
    destruct (String.eqb_spec k k0) as [->|Hk].
    + split.
      * intros [[= ->]|Hin]; [reflexivity|].
        exfalso. apply Hnin. now apply (in_map fst) in Hin.
      * intros [= ->]. now left.
    + rewrite <- IH by exact Hd. split.
      * intros [[= E _]|Hin]; congruence.
      * now right.
Qed.

Lemma get_In k v d : get k d = Some v -> In (k, v) d.
Proof.
  induction d as [|[k0 v0] d IH]; simpl; [discriminate|].
  destruct (String.eqb_spec k k0) as [->|Hk].
  - intros [= ->]. now left.
  - intros H. right. now apply IH.
Qed.

Lemma fold_set_fresh (l : list (string * V)) : forall d,
  NoDup (map fst (d ++ l)) ->
  fold_left (fun d kv => set (fst kv) (snd kv) d) l d = (d ++ l)%list.
Proof.
  induction l as [|[k v] l IH]; intros d H; simpl.
  - now rewrite app_nil_r.
  - rewrite set_fresh.
    + rewrite IH; rewrite <- app_assoc; [reflexivity | exact H].
    + apply mem_false_keys. rewrite map_app in H. simpl in H.
      apply NoDup_remove_2 in H. intros Hin. apply H.
      apply in_or_app. now left.
Qed.

Lemma of_items_wf (l : list (string * V)) : wf l -> of_items l = l.
Proof. intros H. unfold of_items. now rewrite fold_set_fresh. Qed.

Lemma length_set k v d : (List.length (set k v d) <= S (List.length d))%nat.
Proof.
  induction d as [|[k0 v0] d IH]; simpl; [lia|].
  destruct (String.eqb k k0); simpl; lia.
Qed.

Lemma length_of_items (l : list (string * V)) :
  (List.length (of_items l) <= List.length l)%nat.
Proof.
  unfold of_items.
  enough (forall d, (List.length
            (fold_left (fun d kv => set (fst kv) (snd kv) d) l d)
          <= List.length d + List.length l)%nat) as H by apply (H []).
  induction l as [|kv l IH]; intros d; simpl; [lia|].
  specialize (IH (set (fst kv) (snd kv) d)).
  pose proof (length_set (fst kv) (snd kv) d). lia.
Qed.

Lemma wf_of_items (l : list (string * V)) : wf (of_items l).
Proof.
  unfold of_items.
  enough (forall d, wf d ->
            wf (fold_left (fun d kv => set (fst kv) (snd kv) d) l d)) as H
    by apply (H [] wf_nil).
  induction l as [|kv l IH]; intros d Hd; simpl; [exact Hd|].
  apply IH. now apply wf_set.
Qed.

End Facts.
End DictFacts.

(** ** Keeping the newest records *)


Section NewestFacts.
Context {V : Type}.
Variable time : V -> Z.
Implicit Types (l d : list (string * V)) (x y : string * V).

Lemma insert_newest_perm x l : Permutation (insert_newest time x l) (x :: l).
Proof.
  induction l as [|y l IH]; simpl; [reflexivity|].
  destruct (time (snd x) <? time (snd y)); [|reflexivity].
  rewrite IH. apply perm_swap.
Qed.

Lemma sorted_newest_perm l : Permutation (sorted_newest time l) l.
Proof.
  induction l as [|x l IH]; simpl; [reflexivity|].
  rewrite insert_newest_perm. now constructor.
Qed.

Lemma insert_newest_sorted x l :
  newest_first time l -> newest_first time (insert_newest time x l).
Proof.
  unfold newest_first.
  induction l as [|y l IH]; simpl; intros H.
  - repeat constructor.
  - inversion H as [|? ? Hl Hy]; subst.
    destruct (Z.ltb_spec (time (snd x)) (time (snd y))) as [Hlt|Hge].
    + constructor; [auto|].
      apply Forall_forall. intros z Hz.
      apply (Permutation_in _ (insert_newest_perm x l)) in Hz.
      destruct Hz as [<-|Hz]; [unfold no_older; lia|].
      rewrite Forall_forall in Hy. now apply Hy.
    + constructor; [exact H|].
      constructor; [unfold no_older; lia|].
      apply Forall_forall. intros z Hz. rewrite Forall_forall in Hy.
      specialize (Hy z Hz). unfold no_older in *. lia.
Qed.

Lemma sorted_newest_sorted l : newest_first time (sorted_newest time l).
Proof.
  induction l as [|x l IH]; simpl; [constructor|].
  now apply insert_newest_sorted.
Qed.

(** Sorting again changes nothing: the sort is stable. *)
Lemma sorted_newest_fixed l : newest_first time l -> sorted_newest time l = l.
Proof.
  induction l as [|x l IH]; simpl; intros H; [reflexivity|].
  inversion H as [|? ? Hl Hx]; subst. rewrite IH by exact Hl.
  destruct l as [|y l]; simpl; [reflexivity|].
  inversion Hx as [|? ? Hxy _]; subst. unfold no_older in Hxy.
  destruct (Z.ltb_spec (time (snd x)) (time (snd y))); [lia | reflexivity].
Qed.

Lemma newest_first_app a b :
  newest_first time (a ++ b) ->
  newest_first time a /\ forall x y, In x a -> In y b -> no_older time x y.
Proof.
  unfold newest_first. induction a as [|z a IH]; simpl; intros H.
  - split; [constructor | intros ? ? []].
  - inversion H as [|? ? Hab Hz]; subst. destruct (IH Hab) as [Ha Hord].
    rewrite Forall_forall in Hz. split.
    + constructor; [exact Ha|]. apply Forall_forall. intros w Hw.
      apply Hz. apply in_or_app. now left.
    + intros x y [<-|Hx] Hy; [|now apply Hord].
      apply Hz. apply in_or_app. now right.
Qed.

(** The first [n] of the sorted records are no older than the others. *)
Lemma newest_first_split n l :
  newest_first time l ->
  newest_first time (firstn n l)
  /\ forall x y, In x (firstn n l) -> In y (skipn n l) -> no_older time x y.
Proof.
  intros H. apply newest_first_app. now rewrite firstn_skipn.
Qed.

Lemma wf_perm l l' : Permutation l l' -> Dict.wf l -> Dict.wf l'.
Proof.
  unfold Dict.wf. intros Hp. apply Permutation_NoDup.
  now apply Permutation_map.
Qed.

Lemma wf_firstn n l : Dict.wf l -> Dict.wf (firstn n l).
Proof.
  unfold Dict.wf. intros H. rewrite <- (firstn_skipn n l), map_app in H.
  now apply NoDup_app_remove_r in H.
Qed.

Lemma wf_sorted_newest l : Dict.wf l -> Dict.wf (sorted_newest time l).
Proof. apply wf_perm. symmetry. apply sorted_newest_perm. Qed.

(** On a dictionary, the over-the-cap branch is the first [n] records of
    the sorted items. *)
Lemma keep_newest_wf n d :
  Dict.wf d -> keep_newest time n d = firstn n (sorted_newest time d).
Proof.
  intros H. unfold keep_newest. apply DictFacts.of_items_wf.
  now apply wf_firstn, wf_sorted_newest.
Qed.

Lemma length_keep_newest n d : (List.length (keep_newest time n d) <= n)%nat.
Proof.
  unfold keep_newest.
  etransitivity; [apply DictFacts.length_of_items|]. apply firstn_le_length.
Qed.

Lemma len_limit_newest n d :
  Dict.len (limit_newest time n d) <= Z.of_nat n.
Proof.
  unfold limit_newest, Dict.len.
  destruct (Z.ltb_spec (Z.of_nat n) (Z.of_nat (List.length d))).
  - pose proof (length_keep_newest n d). lia.
  - lia.
Qed.

Lemma wf_keep_newest n d : Dict.wf (keep_newest time n d).
Proof. apply DictFacts.wf_of_items. Qed.

Lemma wf_limit_newest n d : Dict.wf d -> Dict.wf (limit_newest time n d).
Proof.
  unfold limit_newest. destruct (_ <? _); [intros _; apply wf_keep_newest | easy].
Qed.

(** Eviction takes the oldest records: the store splits into what is kept
    and what is dropped, nothing dropped is newer than anything kept, and
    nothing is dropped unless the store is over its cap. *)
Lemma limit_newest_oldest_first n d :
  Dict.wf d ->
  exists gone,
    Permutation d (limit_newest time n d ++ gone)
    /\ (forall x y, In x (limit_newest time n d) -> In y gone -> no_older time x y)
    /\ Dict.len (limit_newest time n d) = Z.min (Z.of_nat n) (Dict.len d)
    /\ (Dict.len d <= Z.of_nat n -> gone = []).
Proof.
  intros H. unfold limit_newest, Dict.len.
  destruct (Z.ltb_spec (Z.of_nat n) (Z.of_nat (List.length d))) as [Hlt|Hge].
  - exists (evicted time n d). rewrite keep_newest_wf by exact H.
    unfold evicted. repeat split.
    + rewrite firstn_skipn. symmetry. apply sorted_newest_perm.
    + apply newest_first_split, sorted_newest_sorted.
    + rewrite firstn_length_le.
      * lia.
      * rewrite (Permutation_length (sorted_newest_perm d)). lia.
    + lia.
  - exists []. rewrite app_nil_r. repeat split.
    + reflexivity.
    + intros ? ? _ [].
    + lia.
Qed.

End NewestFacts.

(** ** The purge of old title records *)

Section PurgeFacts.
Import Dict DictFacts.

Lemma filter_filter {A} (f g : A -> bool) (l : list A) :
  filter f (filter g l) = filter (fun x => g x && f x) l.
Proof.
  induction l as [|x l IH]; simpl; [reflexivity|].
  destruct (g x); simpl; [destruct (f x)|]; now rewrite IH.
Qed.

Lemma drop_key_filter {V} (k : string) (d : Dict.t V) :
  wf d ->
  (if mem k d then del k d else d)
  = filter (fun kv => negb (String.eqb k (fst kv))) d.
Proof.
  intros H. rewrite <- del_filter by exact H.
  destruct (mem k d) eqn:E; [reflexivity|]. now rewrite del_absent.
Qed.

Lemma drop_keys_filter {V} (ks : list string) : forall d : Dict.t V,
  wf d ->
  fold_left (fun d k => if mem k d then del k d else d) ks d
  = filter (fun kv => negb (existsb (String.eqb (fst kv)) ks)) d.
Proof.
  induction ks as [|k ks IH]; intros d H; simpl.
  - symmetry. now apply filter_all.
  - rewrite drop_key_filter by exact H.
    rewrite IH by now apply wf_filter.
    rewrite filter_filter. apply filter_ext. intros [k0 v0]. simpl.
    rewrite (String.eqb_sym k0 k). now rewrite negb_orb.
Qed.

(** On a dictionary, the purge keeps exactly the records that are not
    expired, in their order. *)
Lemma purge_titles_filter now (d : Dict.t TitleEntry) :
  wf d ->
  purge_titles now d = filter (fun kv => negb (expired now (snd kv))) d.
Proof.
  intros H. unfold purge_titles. rewrite drop_keys_filter by exact H.
  apply filter_ext_in. intros [k e] Hin. simpl. f_equal.
  unfold title_cleanup. destruct (expired now e) eqn:E.
  - apply existsb_exists. exists k. split; [|apply String.eqb_refl].
    apply in_map_iff. exists (k, e). split; [reflexivity|].
    apply filter_In. now split.
  - apply not_true_is_false. intros Hex.
    apply existsb_exists in Hex as (k' & Hk' & Heq).
    apply String.eqb_eq in Heq. subst k'.
    apply in_map_iff in Hk' as ([k1 e1] & Hfst & Hin1). simpl in Hfst. subst k1.
    apply filter_In in Hin1 as [Hin1 Hexp]. simpl in Hexp.
    apply (In_get _ _ _ H) in Hin. apply (In_get _ _ _ H) in Hin1.
    congruence.
Qed.

Lemma wf_purge_titles now (d : Dict.t TitleEntry) :
  wf d -> wf (purge_titles now d).
Proof.
  intros H. rewrite purge_titles_filter by exact H. now apply wf_filter.
Qed.

Lemma In_purge_titles now (d : Dict.t TitleEntry) kv :
  wf d ->
  In kv (purge_titles now d) <-> In kv d /\ expired now (snd kv) = false.
Proof.
  intros H. rewrite purge_titles_filter by exact H. rewrite filter_In.
  now rewrite negb_true_iff.
Qed.

End PurgeFacts.

(** ** Well-formed state records *)

Section PassFacts.
Import Dict DictFacts.

Lemma notify_item_wf config now ok item :
  config_wf config -> config_wf (fst (notify_item config now ok item)).
Proof.
  intros [Hn Ht]. unfold notify_item. cbn zeta.
  set (c1 := set_title_notifications _ config).
  assert (H1 : config_wf c1).
  { split; simpl; [exact Hn | now apply wf_purge_titles]. }
  destruct (title_already_notified _ _ _); [exact H1|].
  destruct (mem _ (notified_entries c1)); [exact H1|].
  destruct (is_empty _); [exact H1|].
  destruct H1 as [H1n H1t].
  destruct (send_telegram_message _ _); simpl.
  - split; simpl; now apply wf_set.
  - destruct (mem _ _); split; simpl;
      try apply wf_del; now apply wf_set.
Qed.

Lemma process_post_wf config m post :
  config_wf config -> config_wf (fst (process_post config m post)).
Proof.
  intros H. unfold process_post. destruct (extract_item post); [|exact H].
  now apply notify_item_wf.
Qed.

Lemma process_posts_wf posts : forall config,
  config_wf config -> config_wf (fst (process_posts config posts)).
Proof.
  induction posts as [|[post m] posts IH]; intros config H; simpl; [exact H|].
  pose proof (process_post_wf config m post H) as H1.
  destruct (process_post config m post) as [c1 o]. simpl in H1.
  specialize (IH c1 H1). destruct (process_posts c1 posts) as [c2 os].
  exact IH.
Qed.

Lemma limit_history_capped config : fst (limit_history config) = capped config.
Proof.
  destruct config as [kw ne tn tg].
  unfold limit_history, capped, limit_newest. simpl.
  change (Z.of_nat 50) with 50. change (Z.of_nat 100) with 100.
  destruct (50 <? len ne); simpl; destruct (100 <? len tn); reflexivity.
Qed.

Lemma capped_bounds config :
  len (notified_entries (capped config)) <= 50
  /\ len (title_notifications (capped config)) <= 100.
Proof.
  unfold capped. simpl. split.
  - apply (len_limit_newest ne_time 50).
  - apply (len_limit_newest te_time 100).
Qed.

Lemma capped_idem config : capped (capped config) = capped config.
Proof.
  pose proof (capped_bounds config) as [Hn Ht].
  destruct (capped config) as [kw ne tn tg] eqn:E. simpl in *.
  unfold capped, limit_newest. simpl.
  change (Z.of_nat 50) with 50. change (Z.of_nat 100) with 100.
  destruct (Z.ltb_spec 50 (len ne)); [lia|].
  destruct (Z.ltb_spec 100 (len tn)); [lia|]. reflexivity.
Qed.

(** The record in memory after a pass is the capped record reached by the
    loop over the posts. *)
Lemma pass_config_capped config posts :
  pass_config (evaluate config posts)
  = capped (fst (process_posts config posts)).
Proof.
  unfold evaluate. destruct (process_posts config posts) as [c1 os].
  cbn [fst]. pose proof (limit_history_capped c1) as H.
  destruct (limit_history c1) as [c2 trimmed]. cbn [fst] in H. subst c2.
  destruct (existsb changes_config os || trimmed); cbn [pass_config];
    [apply capped_idem | reflexivity].
Qed.
End PassFacts.

(** ** The identity gate *)

Lemma process_post_item config m post item :
  extract_item post = inl item ->
  process_post config m post
  = notify_item config (current_time m) (endpoint_ok m) item.
Proof. intros H. unfold process_post. now rewrite H. Qed.

(** C1, as amended. An item whose identity key is in [notified_entries] when
    it is evaluated is skipped, at the title gate or at the identity gate: no
    notification is sent for it, [notified_entries], the keywords and the
    Telegram settings stay as they are and no title record is written. The
    one change is the purge that precedes the title gate: the title records
    older than 24 hours are deleted, whatever their key, and the others stay. *)
Theorem known_entry_is_skipped config m post item :
  Dict.wf (title_notifications config) ->
  extract_item post = inl item ->
  Dict.mem (entry_id (item_link item)) (notified_entries config) = true ->
  let r := process_post config m post in
  (snd r = SimilarTitle \/ snd r = KnownEntry)
  /\ notified_entries (fst r) = notified_entries config
  /\ title_notifications (fst r)
     = purge_titles (current_time m) (title_notifications config)
  /\ (forall kv, In kv (title_notifications (fst r)) <->
                 In kv (title_notifications config)
                 /\ expired (current_time m) (snd kv) = false)
  /\ keywords (fst r) = keywords config
  /\ telegram (fst r) = telegram config.
Proof.
  intros Hwf Hitem Hmem r. subst r. rewrite (process_post_item _ _ _ _ Hitem).
  unfold notify_item. cbn zeta.
  set (c1 := set_title_notifications _ config).
  assert (Hpurge : forall kv, In kv (title_notifications c1) <->
                   In kv (title_notifications config)
                   /\ expired (current_time m) (snd kv) = false).
  { intros kv. now apply In_purge_titles. }
  destruct (title_already_notified _ _ _).
  - cbn [fst snd]. repeat split; try apply Hpurge; auto.
  - change (notified_entries c1) with (notified_entries config).
    rewrite Hmem. cbn [fst snd]. repeat split; try apply Hpurge; auto.
Qed.

Lemma known_entry_is_skipped_witness :
  Dict.wf (title_notifications day_old_config)
  /\ extract_item (post_of "Deal A" "/post/7") = inl deal_a
  /\ Dict.mem (entry_id (item_link deal_a)) (notified_entries day_old_config)
     = true
  /\ snd (process_post day_old_config (at_time 90000 true)
            (post_of "Deal A" "/post/7")) = KnownEntry.
Proof.
  assert (Hwf : Dict.wf (title_notifications day_old_config)).
  { unfold Dict.wf. simpl. repeat constructor. simpl. tauto. }
  split; [exact Hwf|]. split; [reflexivity|]. split; [reflexivity|].
  destruct (known_entry_is_skipped day_old_config (at_time 90000 true)
              (post_of "Deal A" "/post/7") deal_a Hwf eq_refl eq_refl)
    as [[H|H] _]; [discriminate H | exact H].
Defined.

(** C1, as stated, fails where the item's own title record is older than 24
    hours: the item is skipped at the identity gate, but its title record,
    present before, is gone after. *)
Lemma known_entry_title_record_deleted :
  let config := day_old_config in
  let post := post_of "Deal A" "/post/7" in
  let r := process_post config (at_time 90000 true) post in
  extract_item post = inl deal_a
  /\ Dict.mem (entry_id (item_link deal_a)) (notified_entries config) = true
  /\ snd r = KnownEntry
  /\ Dict.mem (normalized_title (item_title deal_a))
       (title_notifications config) = true
  /\ Dict.mem (normalized_title (item_title deal_a))
       (title_notifications (fst r)) = false.
Proof. vm_compute. repeat split; reflexivity. Qed.

(** A delivered notification leaves the item's key in [notified_entries], so
    the item is in the case above from then on, until a trim evicts the key. *)
Lemma sent_entry_is_known config now ok item c n :
  notify_item config now ok item = (c, Sent n) ->
  Dict.mem (entry_id (item_link item)) (notified_entries c) = true.
Proof.
  unfold notify_item. cbn zeta.
  destruct (title_already_notified _ _ _); [discriminate|].
  destruct (Dict.mem _ _); [discriminate|].
  destruct (is_empty _); [discriminate|].
  destruct (send_telegram_message _ _).
  - intros [= <- _]. cbn [notified_entries set_notified_entries].
    unfold Dict.mem. now rewrite DictFacts.get_set_eq.
  - destruct (Dict.mem _ _); discriminate.
Qed.

(** ** The title gate *)

(** A record written at [now1] and read at [now2], at most 7199 seconds
    later, is inside the two-hour window; the record holds whole seconds, so
    one second of the window is lost to rounding. *)
Lemma age_of_written now1 now2 :
  now2 - now1 <= seconds 7199 -> age now2 (strftime now1) < seconds 7200.
Proof.
  unfold age, strftime, seconds, usec_per_sec. intros H.
  pose proof (Z.mod_pos_bound now1 1000000 ltac:(lia)).
  pose proof (Z.div_mod now1 1000000 ltac:(lia)). lia.
Qed.

(** An item that gets a notification attempt leaves its title record. *)
Lemma notified_title_record config now ok item c o :
  notify_item config now ok item = (c, o) ->
  changes_config o = true ->
  Dict.get (normalized_title (item_title item)) (title_notifications c)
  = Some {| te_title := item_title item; te_link := item_link item;
            te_time := strftime now |}.
Proof.
  unfold notify_item. cbn zeta.
  destruct (title_already_notified _ _ _); [intros [= <- <-]; discriminate|].
  destruct (Dict.mem _ _); [intros [= <- <-]; discriminate|].
  destruct (is_empty _); [intros [= <- <-]; discriminate|].
  destruct (send_telegram_message _ _).
  - intros [= <- <-] _. simpl. apply DictFacts.get_set_eq.
  - destruct (Dict.mem _ _); intros [= <- <-] _; simpl;
      apply DictFacts.get_set_eq.
Qed.

(** A similar record inside the window closes the title gate. *)
Lemma title_gate_closed config now ok item t_key t_data :
  Dict.wf (title_notifications config) ->
  Dict.get t_key (title_notifications config) = Some t_data ->
  similar (normalized_title (item_title item)) t_key = true ->
  age now (te_time t_data) < seconds 7200 ->
  notify_item config now ok item
  = (set_title_notifications
       (purge_titles now (title_notifications config)) config, SimilarTitle).
Proof.
  intros Hwf Hget Hsim Hage. unfold notify_item. cbn zeta.
  set (c1 := set_title_notifications _ config).
  replace (title_already_notified now (normalized_title (item_title item))
             (title_notifications c1)) with true; [reflexivity|].
  symmetry. apply existsb_exists. exists (t_key, t_data). split.
  - apply In_purge_titles; [exact Hwf|]. split.
    + now apply DictFacts.get_In.
    + unfold expired. cbn [snd]. apply Z.ltb_ge.
      unfold seconds, usec_per_sec in *. lia.
  - cbn [fst snd]. rewrite Hsim. unfold recent. apply Z.ltb_lt. exact Hage.
Qed.

(** C2, as amended. Let a first item pass both gates and match a keyword at
    [now1], so that its title record is written, and let that record still be
    in the store (neither evicted by a trim nor purged) when a second item is
    evaluated at [now2]. If the normalized titles are equal or one occurs in
    the other, and [now2] is less than 7200 seconds after the whole second
    recorded for the first item, the second item is skipped at the title
    gate, whatever its link and identity key: nothing is sent and
    [notified_entries] stays as it is. *)
Theorem similar_title_is_skipped
    config1 now1 ok1 item1 c o config2 now2 ok2 item2 :
  notify_item config1 now1 ok1 item1 = (c, o) ->
  changes_config o = true ->
  Dict.wf (title_notifications config2) ->
  Dict.get (normalized_title (item_title item1)) (title_notifications config2)
  = Dict.get (normalized_title (item_title item1)) (title_notifications c) ->
  normalized_title (item_title item1) = normalized_title (item_title item2)
  \/ Str.occurs_in (normalized_title (item_title item1))
                        (normalized_title (item_title item2))
  \/ Str.occurs_in (normalized_title (item_title item2))
                        (normalized_title (item_title item1)) ->
  age now2 (strftime now1) < seconds 7200 ->
  snd (notify_item config2 now2 ok2 item2) = SimilarTitle
  /\ notified_entries (fst (notify_item config2 now2 ok2 item2))
     = notified_entries config2.
Proof.
  intros Hfirst Hchg Hwf Hkept Hsim Hage.
  rewrite (notified_title_record _ _ _ _ _ _ Hfirst Hchg) in Hkept.
  rewrite (title_gate_closed config2 now2 ok2 item2 _ _ Hwf Hkept).
  - split; reflexivity.
  - unfold similar. destruct Hsim as [->|[H|H]].
    + now rewrite String.eqb_refl.
    + apply StrFacts.contains_spec in H. rewrite H. apply orb_true_r.
    + apply StrFacts.contains_spec in H. rewrite H.
      rewrite orb_true_r. reflexivity.
  - exact Hage.
Qed.

Lemma similar_title_is_skipped_witness :
  let first := notify_item sample_config (seconds 0) true deal_a in
  changes_config (snd first) = true
  /\ normalized_title (item_title deal_a)
     = normalized_title (item_title deal_a_again)
  /\ age (seconds 600) (strftime (seconds 0)) < seconds 7200
  /\ snd (notify_item (fst first) (seconds 600) true deal_a_again)
     = SimilarTitle.
Proof.
  intros first. split; [reflexivity|]. split; [reflexivity|].
  split; [reflexivity|].
  refine (proj1 (similar_title_is_skipped sample_config (seconds 0) true deal_a
                   (fst first) (snd first) (fst first) (seconds 600) true
                   deal_a_again eq_refl eq_refl _ eq_refl
                   (or_introl eq_refl) eq_refl)).
  unfold Dict.wf. simpl. repeat constructor. simpl. tauto.
Defined.

(** C2, as stated, fails once the first item's title record has been
    evicted: "Deal A" is notified at second 0; 120 other matching posts
    notified in the next three passes push its record out of the 100 kept;
    "DEAL A", with the same normalized title, is notified at second 140. *)
Lemma evicted_title_is_notified_again :
  pass_outcomes busy_pass1
  = [Sent {| n_keywords := ["deal"]; n_title := "Deal A";
             n_link := "https://www.nodeseek.com/post/7" |}]
  /\ pass_outcomes busy_pass5
     = [Sent {| n_keywords := ["deal"]; n_title := "DEAL A";
                n_link := "https://www.nodeseek.com/post/8" |}]
  /\ normalized_title "Deal A" = normalized_title "DEAL A"
  /\ seconds 140 - seconds 0 < seconds 7200
  /\ Dict.mem (normalized_title "Deal A")
       (title_notifications (pass_config busy_pass1)) = true
  /\ Dict.mem (normalized_title "Deal A")
       (title_notifications (pass_config busy_pass4)) = false.
Proof. vm_compute. repeat split; reflexivity. Qed.

(** ** Failed deliveries *)

(** C3, as amended. When the send for a matched item fails, the identity
    record just written is removed, so [notified_entries] is what it was and
    the item's key is absent from it, while the title record just written
    stays. As long as that title record is still in the store (it is in the
    record the failed item leaves; a later trim may evict it), the same item
    evaluated again less than 7200 seconds after the recorded second is
    skipped at the title gate, with no notification; and wherever its key is
    absent from [notified_entries], as it is after the failure, the identity
    gate does not stop it. *)
Theorem failed_send_rolls_back_identity_only config now ok item c n :
  config_wf config ->
  notify_item config now ok item = (c, SendFailed n) ->
  notified_entries c = notified_entries config
  /\ Dict.mem (entry_id (item_link item)) (notified_entries c) = false
  /\ Dict.get (normalized_title (item_title item)) (title_notifications c)
     = Some {| te_title := item_title item; te_link := item_link item;
               te_time := strftime now |}
  /\ config_wf c
  /\ (forall config2 now2 ok2,
        Dict.wf (title_notifications config2) ->
        Dict.get (normalized_title (item_title item))
                 (title_notifications config2)
        = Dict.get (normalized_title (item_title item))
                   (title_notifications c) ->
        age now2 (strftime now) < seconds 7200 ->
        notify_item config2 now2 ok2 item
        = (set_title_notifications
             (purge_titles now2 (title_notifications config2)) config2,
           SimilarTitle))
  /\ (forall config2 now2 ok2,
        Dict.mem (entry_id (item_link item)) (notified_entries config2)
        = false ->
        snd (notify_item config2 now2 ok2 item) <> KnownEntry).
Proof.
  intros Hwf Hrun.
  pose proof (notify_item_wf config now ok item Hwf) as Hwfc.
  pose proof (notified_title_record _ _ _ _ _ _ Hrun eq_refl) as Hrec.
  rewrite Hrun in Hwfc. cbn [fst] in Hwfc.
  assert (Hid : notified_entries c = notified_entries config
                /\ Dict.mem (entry_id (item_link item)) (notified_entries c)
                   = false).
  { revert Hrun. unfold notify_item. cbn zeta.
    destruct (title_already_notified _ _ _); [discriminate|].
    destruct (Dict.mem _ _) eqn:Hmem; [discriminate|].
    destruct (is_empty _); [discriminate|].
    destruct (send_telegram_message _ _); [discriminate|].
    cbn [notified_entries set_notified_entries set_title_notifications] in *.
    unfold Dict.mem at 1. rewrite DictFacts.get_set_eq.
    intros [= <- _]. cbn [notified_entries set_notified_entries].
    rewrite DictFacts.del_set_fresh by exact Hmem. now split. }
  destruct Hid as [Hsame Habsent].
  split; [exact Hsame|]. split; [exact Habsent|]. split; [exact Hrec|].
  split; [exact Hwfc|]. split.
  - intros config2 now2 ok2 Hwf2 Hkept Hage. rewrite Hrec in Hkept.
    apply (title_gate_closed config2 now2 ok2 item _ _ Hwf2 Hkept);
      [|exact Hage].
    unfold similar. now rewrite String.eqb_refl.
  - intros config2 now2 ok2 Hfree. unfold notify_item. cbn zeta.
    cbn [notified_entries set_title_notifications].
    destruct (title_already_notified _ _ _); [discriminate|].
    rewrite Hfree.
    destruct (is_empty _); [discriminate|].
    destruct (send_telegram_message _ _); [discriminate|].
    destruct (Dict.mem _ _); discriminate.
Qed.

Lemma failed_send_rolls_back_identity_only_witness :
  let r := notify_item sample_config (seconds 0) false deal_a in
  config_wf sample_config
  /\ snd r
     = SendFailed {| n_keywords := ["deal"]; n_title := "Deal A";
                     n_link := "https://www.nodeseek.com/post/7" |}
  /\ notified_entries (fst r) = []
  /\ snd (notify_item (fst r) (seconds 3600) true deal_a) = SimilarTitle.
Proof.
  intros r.
  assert (Hwf : config_wf sample_config) by (split; constructor).
  destruct (failed_send_rolls_back_identity_only sample_config (seconds 0)
              false deal_a (fst r) _ Hwf eq_refl)
    as (Hsame & _ & _ & Hwfc & Hagain & _).
  split; [exact Hwf|]. split; [reflexivity|]. split; [exact Hsame|].
  now rewrite (Hagain (fst r) (seconds 3600) true (proj2 Hwfc) eq_refl eq_refl).
Defined.

(** C3, as stated, fails once the title record of the failed item has been
    evicted: the send for "Deal A" fails at second 0; 120 other matching
    posts notified in the next three passes push its title record out of the
    100 kept; the very same post, met again at second 140, is notified. *)
Lemma failed_item_is_notified_again :
  pass_outcomes failed_pass1
  = [SendFailed {| n_keywords := ["deal"]; n_title := "Deal A";
                   n_link := "https://www.nodeseek.com/post/7" |}]
  /\ notified_entries (pass_config failed_pass1) = []
  /\ Dict.mem (normalized_title "Deal A")
       (title_notifications (pass_config failed_pass1)) = true
  /\ Dict.mem (normalized_title "Deal A")
       (title_notifications (pass_config failed_pass4)) = false
  /\ seconds 140 - seconds 0 < seconds 7200
  /\ pass_outcomes failed_pass5
     = [Sent {| n_keywords := ["deal"]; n_title := "Deal A";
                n_link := "https://www.nodeseek.com/post/7" |}].
Proof. vm_compute. repeat split; reflexivity. Qed.

(** ** The caps on the two stores *)

Lemma capped_wf config : config_wf config -> config_wf (capped config).
Proof.
  intros [Hn Ht]. unfold capped. split; cbn.
  - now apply wf_limit_newest.
  - now apply wf_limit_newest.
Qed.

Lemma evaluate_wf config posts :
  config_wf config -> config_wf (pass_config (evaluate config posts)).
Proof.
  intros H. rewrite pass_config_capped. now apply capped_wf, process_posts_wf.
Qed.

Lemma basic_config_stores config :
  notified_entries (basic_config config)
  = keep_newest ne_time 20 (notified_entries config)
  /\ title_notifications (basic_config config)
     = keep_newest te_time 20 (title_notifications config).
Proof.
  unfold basic_config. simpl.
  destruct (notified_entries config), (title_notifications config);
    split; reflexivity.
Qed.

Lemma save_config_bounds config :
  Dict.len (notified_entries (save_config config)) <= 50
  /\ Dict.len (title_notifications (save_config config)) <= 100.
Proof.
  unfold save_config. destruct (_ <? _); [|apply capped_bounds].
  destruct (basic_config_stores (capped config)) as [-> ->].
  pose proof (length_keep_newest ne_time 20
                (notified_entries (capped config))).
  pose proof (length_keep_newest te_time 20
                (title_notifications (capped config))).
  unfold Dict.len. lia.
Qed.

(** C4. After an evaluation pass the record in memory holds at most 50
    identity records and at most 100 title records, and so does any record
    written by [save_config]. Each store splits into what the trim kept and
    what it dropped: nothing dropped is newer than anything kept, the number
    kept is the cap or the whole store when it is smaller, and nothing is
    dropped from a store within its cap. *)
Theorem history_is_bounded config posts :
  config_wf config ->
  let before := fst (process_posts config posts) in
  let after := pass_config (evaluate config posts) in
  Dict.len (notified_entries after) <= 50
  /\ Dict.len (title_notifications after) <= 100
  /\ (exists gone,
        Permutation (notified_entries before) (notified_entries after ++ gone)
        /\ (forall x y, In x (notified_entries after) -> In y gone ->
                        ne_time (snd y) <= ne_time (snd x))
        /\ Dict.len (notified_entries after)
           = Z.min 50 (Dict.len (notified_entries before))
        /\ (Dict.len (notified_entries before) <= 50 -> gone = []))
  /\ (exists gone,
        Permutation (title_notifications before)
                    (title_notifications after ++ gone)
        /\ (forall x y, In x (title_notifications after) -> In y gone ->
                        te_time (snd y) <= te_time (snd x))
        /\ Dict.len (title_notifications after)
           = Z.min 100 (Dict.len (title_notifications before))
        /\ (Dict.len (title_notifications before) <= 100 -> gone = []))
  /\ (forall saved, pass_saved (evaluate config posts) = Some saved ->
        Dict.len (notified_entries saved) <= 50
        /\ Dict.len (title_notifications saved) <= 100).
Proof.
  intros Hwf before after. subst after. rewrite pass_config_capped.
  fold before. destruct (process_posts_wf posts config Hwf) as [Hn Ht].
  fold before in Hn, Ht. pose proof (capped_bounds before) as [Bn Bt].
  split; [exact Bn|]. split; [exact Bt|]. unfold capped. simpl.
  split; [|split].
  - apply (limit_newest_oldest_first ne_time 50 _ Hn).
  - apply (limit_newest_oldest_first te_time 100 _ Ht).
  - intros saved. unfold evaluate.
    destruct (process_posts config posts) as [c1 os].
    destruct (limit_history c1) as [c2 trimmed].
    destruct (existsb changes_config os || trimmed); cbn [pass_saved];
      [|discriminate].
    intros [= <-]. apply save_config_bounds.
Qed.

Lemma history_is_bounded_witness :
  config_wf (pass_config busy_pass3)
  /\ Dict.len (notified_entries
                 (fst (process_posts (pass_config busy_pass3) (batch 300 105))))
     = 90
  /\ Dict.len (notified_entries (pass_config busy_pass4)) <= 50
  /\ Dict.len (title_notifications (pass_config busy_pass4)) <= 100.
Proof.
  assert (Hwf : config_wf (pass_config busy_pass3)).
  { unfold busy_pass3, busy_pass2, busy_pass1.
    repeat apply evaluate_wf. split; constructor. }
  split; [exact Hwf|]. split; [vm_compute; reflexivity|].
  unfold busy_pass4.
  destruct (history_is_bounded (pass_config busy_pass3) (batch 300 105) Hwf)
    as (Hn & Ht & _).
  split; [exact Hn | exact Ht].
Defined.

(** ** The 24-hour purge *)

Lemma In_set {V} (k : string) (v : V) (d : Dict.t V) kv :
  In kv (Dict.set k v d) -> kv = (k, v) \/ In kv d.
Proof.
  induction d as [|[k0 v0] d IH]; simpl.
  - intros [<-|[]]. now left.
  - destruct (String.eqb k k0); simpl.
    + intros [<-|H]; [now left | right; now right].
    + intros [<-|H]; [right; now left|].
      destruct (IH H) as [->|H']; [now left | right; now right].
Qed.

Lemma expired_false now t_data :
  expired now t_data = false <-> age now (te_time t_data) <= seconds 86400.
Proof. unfold expired. rewrite Z.ltb_ge. reflexivity. Qed.

Lemma age_now now : 0 <= age now (strftime now) < seconds 1.
Proof.
  unfold age, strftime, seconds, usec_per_sec.
  pose proof (Z.mod_pos_bound now 1000000 ltac:(lia)).
  pose proof (Z.div_mod now 1000000 ltac:(lia)). lia.
Qed.

(** The outcome is [SimilarTitle] exactly when the gate, asked on the purged
    store, answers yes. *)
Lemma similar_title_iff config now ok item :
  snd (notify_item config now ok item) = SimilarTitle
  <-> title_already_notified now (normalized_title (item_title item))
        (purge_titles now (title_notifications config)) = true.
Proof.
  unfold notify_item. cbn zeta.
  cbn [title_notifications set_title_notifications].
  destruct (title_already_notified _ _ _); [now split|].
  split; [|discriminate].
  destruct (Dict.mem _ _); [discriminate|].
  destruct (is_empty _); [discriminate|].
  destruct (send_telegram_message _ _); [discriminate|].
  destruct (Dict.mem _ _); discriminate.
Qed.

(** C5. Whatever the size of the store, the purge that runs before the title
    gate keeps exactly the title records that are at most 86400 seconds old;
    the gate is asked on the purged store, so an item skipped for its title
    was met by a similar record of the original store less than 7200 seconds
    old; and once the item is handled no record older than 24 hours is left
    in the store. *)
Theorem old_title_records_are_purged config now ok item :
  Dict.wf (title_notifications config) ->
  let purged := purge_titles now (title_notifications config) in
  let r := notify_item config now ok item in
  (forall kv, In kv purged <->
              In kv (title_notifications config)
              /\ age now (te_time (snd kv)) <= seconds 86400)
  /\ (snd r = SimilarTitle <->
      title_already_notified now (normalized_title (item_title item)) purged
      = true)
  /\ (snd r = SimilarTitle ->
      exists t_key t_data,
        In (t_key, t_data) (title_notifications config)
        /\ similar (normalized_title (item_title item)) t_key = true
        /\ age now (te_time t_data) < seconds 7200)
  /\ (forall kv, In kv (title_notifications (fst r)) ->
                 age now (te_time (snd kv)) <= seconds 86400).
Proof.
  intros Hwf purged r.
  assert (Hp : forall kv, In kv purged <->
                 In kv (title_notifications config)
                 /\ age now (te_time (snd kv)) <= seconds 86400).
  { intros kv. subst purged. rewrite In_purge_titles by exact Hwf.
    now rewrite expired_false. }
  split; [exact Hp|]. split; [apply similar_title_iff|]. split.
  - intros H. apply similar_title_iff in H.
    apply existsb_exists in H as ([t_key t_data] & Hin & Hok).
    apply andb_true_iff in Hok as [Hsim Hrec]. cbn [fst snd] in *.
    exists t_key, t_data. split; [|split; [exact Hsim|]].
    + now apply (Hp (t_key, t_data)).
    + unfold recent in Hrec. now apply Z.ltb_lt in Hrec.
  - subst r. unfold notify_item. cbn zeta.
    cbn [title_notifications set_title_notifications notified_entries].
    fold purged.
    assert (Hnew : forall kv k e,
               te_time e = strftime now ->
               In kv (Dict.set k e purged) ->
               age now (te_time (snd kv)) <= seconds 86400).
    { intros kv k e He Hin. apply In_set in Hin as [->|Hin].
      - cbn [snd]. rewrite He. pose proof (age_now now).
        unfold seconds, usec_per_sec in *. lia.
      - now apply Hp. }
    destruct (title_already_notified _ _ _); cbn [fst];
      [intros kv Hin; now apply Hp|].
    destruct (Dict.mem _ _); cbn [fst]; [intros kv Hin; now apply Hp|].
    destruct (is_empty _); cbn [fst]; [intros kv Hin; now apply Hp|].
    destruct (send_telegram_message _ _); cbn [fst].
    + intros kv. cbn [title_notifications set_title_notifications
                      set_notified_entries]. now apply Hnew.
    + destruct (Dict.mem _ _);
        intros kv; cbn [title_notifications set_title_notifications
                        set_notified_entries]; now apply Hnew.
Qed.

Lemma old_title_records_are_purged_witness :
  Dict.wf (title_notifications day_old_config)
  /\ purge_titles (seconds 90000) (title_notifications day_old_config) = []
  /\ snd (notify_item day_old_config (seconds 90000) true deal_a_again)
     = Sent {| n_keywords := ["deal"]; n_title := "DEAL A";
               n_link := "https://www.nodeseek.com/post/8" |}.
Proof.
  assert (Hwf : Dict.wf (title_notifications day_old_config)).
  { unfold Dict.wf. simpl. repeat constructor. simpl. tauto. }
  pose proof (old_title_records_are_purged day_old_config (seconds 90000) true
                deal_a_again Hwf) as (Hp & _).
  split; [exact Hwf|]. split; [|reflexivity].
  destruct (purge_titles (seconds 90000) (title_notifications day_old_config))
    as [|kv l] eqn:E; [reflexivity|].
  exfalso. destruct (proj1 (Hp kv) (or_introl eq_refl)) as [[Hin|[]] Hage].
  subst kv. vm_compute in Hage. now apply Hage.
Defined.

(** ** Item discovery *)

Section DiscoveryFacts.
Variable soup : Tag.

Lemma llen_firstn {A} n (l : list A) : llen (firstn n l) <= Z.of_nat n.
Proof. unfold llen. pose proof (firstn_le_length n l). lia. Qed.

Lemma is_empty_firstn {A} n (l : list A) :
  is_empty (firstn (S n) l) = is_empty l.
Proof. now destruct l. Qed.

Lemma is_empty_false_llen {A} (l : list A) :
  0 < llen l -> is_empty l = false.
Proof. destruct l; [unfold llen; simpl; lia | reflexivity]. Qed.

Lemma try_selectors_first pre selector post :
  (forall s, In s pre -> llen (select soup s) < 5) ->
  5 <= llen (select soup selector) ->
  try_selectors soup (pre ++ selector :: post)
  = firstn 40 (select soup selector).
Proof.
  intros Hpre Hsel. induction pre as [|s pre IH]; simpl.
  - rewrite is_empty_false_llen by lia.
    destruct (Z.leb_spec 5 (llen (select soup selector))); [reflexivity | lia].
  - destruct (Z.leb_spec 5 (llen (select soup s))) as [H|H].
    + specialize (Hpre s (or_introl eq_refl)). lia.
    + rewrite andb_false_r. apply IH. intros; apply Hpre; now right.
Qed.

Lemma try_selectors_none selectors :
  (forall s, In s selectors -> llen (select soup s) < 5) ->
  try_selectors soup selectors = [].
Proof.
  induction selectors as [|s selectors IH]; simpl; intros H; [reflexivity|].
  destruct (Z.leb_spec 5 (llen (select soup s))) as [Hs|Hs].
  - specialize (H s (or_introl eq_refl)). lia.
  - rewrite andb_false_r. apply IH. intros; apply H; now right.
Qed.

Lemma llen_try_selectors selectors :
  llen (try_selectors soup selectors) <= 40.
Proof.
  induction selectors as [|s selectors IH]; simpl; [unfold llen; simpl; lia|].
  destruct (_ && _); [apply (llen_firstn 40) | exact IH].
Qed.

(** The scan stops at forty: it yields the first forty [div] elements that
    qualify. *)
Lemma scan_divs_filter divs : forall acc,
  (List.length acc < 40)%nat ->
  scan_divs divs acc = firstn 40 (acc ++ filter has_link_and_text divs).
Proof.
  induction divs as [|div divs IH]; intros acc Hacc; cbn [scan_divs filter].
  - rewrite app_nil_r. symmetry. apply firstn_all2. lia.
  - rewrite is_empty_firstn. fold (has_link_and_text div).
    destruct (has_link_and_text div); [|now apply IH].
    assert (Hlen : List.length (acc ++ [div]) = S (List.length acc))
      by (rewrite length_app; simpl; lia).
    replace (acc ++ div :: filter has_link_and_text divs)%list
      with ((acc ++ [div]) ++ filter has_link_and_text divs)%list
      by now rewrite <- app_assoc.
    destruct (Z.leb_spec 40 (llen (acc ++ [div]))) as [H|H];
      unfold llen in H.
    + rewrite firstn_app.
      replace (40 - List.length (acc ++ [div]))%nat with 0%nat by lia.
      rewrite firstn_all2 by lia. cbn [firstn]. now rewrite app_nil_r.
    + apply IH. lia.
Qed.

Lemma potential_post_divs_filter :
  potential_post_divs soup
  = firstn 40 (filter has_link_and_text (firstn 100 (find_all soup "div"))).
Proof.
  unfold potential_post_divs.
  rewrite scan_divs_filter; [reflexivity | cbn [List.length]; lia].
Qed.
End DiscoveryFacts.

(** C6. Discovery never returns more than 40 elements. The selectors are
    tried in the order of the list, and the first one with at least 5 matches
    gives the result: its first 40 matches. When every selector has fewer
    than 5 matches, the result is, in this order of preference, the first 40
    [div] elements (among the first 100) that hold a link and more than 20
    characters of text; else the first 40 links to a content path; else the
    first 40 table rows without the first of them; else nothing. *)
Theorem discovery_strategies soup :
  let found := find_post_items soup in
  let divs := filter has_link_and_text (firstn 100 (find_all soup "div")) in
  let links := select soup content_links_selector in
  let rows := firstn 40 (select soup "table tr") in
  llen found <= 40
  /\ (forall pre selector post,
        selectors_to_try = (pre ++ selector :: post)%list ->
        (forall s, In s pre -> llen (select soup s) < 5) ->
        5 <= llen (select soup selector) ->
        found = firstn 40 (select soup selector))
  /\ ((forall s, In s selectors_to_try -> llen (select soup s) < 5) ->
      (divs <> [] -> found = firstn 40 divs)
      /\ (divs = [] -> links <> [] -> found = firstn 40 links)
      /\ (divs = [] -> links = [] -> found = tl rows)).
Proof.
  intros found divs links rows. split; [|split].
  - subst found. unfold find_post_items. cbn zeta.
    pose proof (llen_try_selectors soup selectors_to_try) as H0.
    destruct (try_selectors soup selectors_to_try) as [|x l] eqn:E0;
      [|exact H0].
    cbn [is_empty]. destruct (potential_post_divs soup) as [|d ds] eqn:E1.
    + cbn [is_empty negb]. unfold link_elements.
      destruct (firstn 40 (select soup content_links_selector))
        as [|a ls] eqn:E2.
      * cbn [is_empty negb]. unfold table_rows.
        pose proof (llen_firstn 40 (select soup "table tr")) as Hr.
        destruct (firstn 40 (select soup "table tr")) as [|r rs];
          [unfold llen; simpl; lia|].
        cbn [is_empty negb andb].
        destruct (1 <? llen (r :: rs)); [|unfold llen; simpl; lia].
        destruct (40 <? llen (r :: rs)).
        -- pose proof (llen_firstn 39 (skipn 1 (r :: rs))) as H39.
           change (Z.of_nat 39) with 39 in H39. lia.
        -- unfold llen in *. cbn [skipn List.length] in *.
           change (Z.of_nat 40) with 40 in Hr. lia.
      * cbn [is_empty negb]. rewrite <- E2. apply (llen_firstn 40).
    + cbn [is_empty negb]. apply (llen_firstn 40).
  - intros pre selector post Hsplit Hpre Hsel. subst found.
    unfold find_post_items. cbn zeta. rewrite Hsplit.
    rewrite (try_selectors_first soup pre selector post Hpre Hsel).
    assert (Hne : is_empty (firstn 40 (select soup selector)) = false).
    { destruct (select soup selector); [unfold llen in Hsel; simpl in Hsel; lia|].
      reflexivity. }
    now rewrite !Hne.
  - intros Hnone. subst found.
    unfold find_post_items, link_elements, table_rows. cbn zeta.
    rewrite (try_selectors_none soup _ Hnone). cbn [is_empty].
    rewrite potential_post_divs_filter. fold divs. fold links. fold rows.
    rewrite firstn_firstn. change (Nat.min 40 40) with 40%nat.
    rewrite !(is_empty_firstn 39).
    pose proof (llen_firstn 40 (select soup "table tr")) as Hr.
    fold rows in Hr. clearbody divs links rows. split; [|split].
    + intros Hd. destruct divs as [|d ds]; [congruence|]. reflexivity.
    + intros -> Hl. cbn [firstn is_empty negb].
      destruct links as [|a ls]; [congruence|]. reflexivity.
    + intros -> ->. cbn [firstn is_empty negb].
      destruct rows as [|r rs]; [reflexivity|].
      cbn [is_empty negb andb tl].
      destruct (Z.ltb_spec 1 (llen (r :: rs))) as [H1|H1].
      * destruct (Z.ltb_spec 40 (llen (r :: rs))); [lia|]. reflexivity.
      * destruct rs; [reflexivity|].
        unfold llen in H1. cbn [List.length] in H1. lia.
Qed.

Lemma discovery_strategies_witness :
  (forall s, In s selectors_to_try -> llen (select links_only_page s) < 5)
  /\ find_post_items links_only_page = seven_links.
Proof.
  assert (Hnone : forall s, In s selectors_to_try ->
                            llen (select links_only_page s) < 5).
  { intros s Hs. simpl in Hs.
    repeat (destruct Hs as [<-|Hs]; [vm_compute; reflexivity|]).
    destruct Hs. }
  split; [exact Hnone|].
  destruct (discovery_strategies links_only_page) as (_ & _ & Hfall).
  destruct (Hfall Hnone) as (_ & Hlinks & _).
  rewrite Hlinks; [reflexivity | reflexivity | discriminate].
Defined.

(** ** Title recovery *)

Lemma len_take_dots s :
  50 < Str.len s -> Str.len (Str.take 50 s ++ "...") = 53.
Proof.
  unfold Str.len. intros H.
  rewrite StrFacts.length_append, StrFacts.length_take.
  rewrite Nat.min_l by lia. reflexivity.
Qed.

Lemma first_selected_none post selectors :
  first_selected post selectors = None
  <-> forall selector, In selector selectors -> select post selector = [].
Proof.
  induction selectors as [|x rest IH]; cbn [first_selected].
  - split; [intros _ selector [] | reflexivity].
  - unfold select_one. destruct (select post x) as [|e es] eqn:E;
      cbn [hd_error].
    + rewrite IH. split.
      * intros H selector [<-|Hin]; [exact E | now apply H].
      * intros H selector Hin. apply H. now right.
    + split; [discriminate|]. intros H.
      specialize (H x (or_introl eq_refl)). congruence.
Qed.

(** C7, as amended. No title element is found exactly when none of the title
    selectors selects anything in the item element, the element is not
    itself a link and holds no link; such an item is skipped, whatever its
    text: no notification, no change to the record. When a title element is
    found, its text is the title unless it is empty; then the title is the
    full text of the item element, whole when it has at most 50 characters,
    and otherwise its first 50 characters followed by three dots, 53
    characters in all. Whichever way the title was obtained, an item whose
    title has fewer than 2 characters is skipped: no notification, no change
    to the record. *)
Theorem title_fallback_and_rejection post :
  (find_title_element post = None
   <-> (forall selector, In selector title_selectors ->
                         select post selector = [])
       /\ name post <> "a"
       /\ find_all post "a" = [])
  /\ (find_title_element post = None ->
      forall config m,
        process_post config m post = (config, Skipped NoTitleElement))
  /\ forall title_element,
       find_title_element post = Some title_element ->
       let full := get_text post in
       let title := recover_title post title_element in
       (get_text title_element <> "" -> title = get_text title_element)
       /\ (get_text title_element = "" ->
           (Str.len full <= 50 -> title = full)
           /\ (50 < Str.len full ->
               title = Str.take 50 full ++ "..." /\ Str.len title = 53))
       /\ (Str.len title < 2 ->
           forall config m,
             process_post config m post = (config, Skipped TitleTooShort)).
Proof.
  split; [|split].
  - unfold find_title_element. rewrite <- first_selected_none.
    destruct (first_selected post title_selectors) as [e|].
    + split; [discriminate | intros [H _]; discriminate].
    + destruct (String.eqb_spec (name post) "a") as [E|E].
      * split; [discriminate | intros (_ & H & _); contradiction].
      * destruct (find_all post "a") as [|a links]; cbn [firstn hd_error].
        -- split; [now intros _ | reflexivity].
        -- split; [discriminate | intros (_ & _ & H); discriminate].
  - intros Hnone config m. unfold process_post, extract_item.
    now rewrite Hnone.
  - intros title_element Hel full title. subst full title. split; [|split].
    + intros Hne. unfold recover_title.
      destruct (get_text title_element); [congruence | reflexivity].
    + intros He. unfold recover_title. rewrite He. cbn [Str.nonempty]. split.
      * intros H. destruct (Z.ltb_spec 50 (Str.len (get_text post))); [lia|].
        reflexivity.
      * intros H. destruct (Z.ltb_spec 50 (Str.len (get_text post))); [|lia].
        split; [reflexivity | now apply len_take_dots].
    + intros Hshort config m. unfold process_post, extract_item. rewrite Hel.
      destruct (Z.ltb_spec (Str.len (recover_title post title_element)) 2);
        [reflexivity | lia].
Qed.

Lemma title_fallback_and_rejection_witness :
  find_title_element picture_post = Some picture_link
  /\ get_text picture_link = ""
  /\ 50 < Str.len (get_text picture_post)
  /\ recover_title picture_post picture_link
     = "Half-price hosting for three months, this week onl..."
  /\ find_title_element (leaf "div" "Half-price hosting" None) = None
  /\ process_post sample_config (at_time 0 true)
       (leaf "div" "Half-price hosting" None)
     = (sample_config, Skipped NoTitleElement).
Proof.
  split; [reflexivity|]. split; [reflexivity|]. split; [reflexivity|].
  destruct (title_fallback_and_rejection picture_post) as (_ & _ & Hfound).
  destruct (Hfound picture_link eq_refl) as (_ & Hempty & _).
  destruct (Hempty eq_refl) as (_ & Hlong).
  destruct (Hlong eq_refl) as (Htitle & _). split; [exact Htitle|].
  destruct (title_fallback_and_rejection (leaf "div" "Half-price hosting" None))
    as (Hiff & Hskip & _).
  assert (Hnone : find_title_element (leaf "div" "Half-price hosting" None)
                  = None).
  { apply Hiff. split; [|split]; [reflexivity | discriminate | reflexivity]. }
  split; [exact Hnone | exact (Hskip Hnone sample_config (at_time 0 true))].
Defined.

(** C7, as stated, fails on a text of 51 characters: the title is not cut to
    50 characters but to 53, the last three being dots; and an element with
    no title element at all is skipped instead of being titled by its text. *)
Lemma long_text_title_exceeds_fifty :
  find_title_element picture_post = Some picture_link
  /\ get_text picture_link = ""
  /\ Str.len (get_text picture_post) = 51
  /\ Str.len (recover_title picture_post picture_link) = 53
  /\ recover_title picture_post picture_link
     <> Str.take 50 (get_text picture_post)
  /\ extract_item picture_post
     = inl {| item_title :=
                "Half-price hosting for three months, this week onl...";
              item_link := "https://www.nodeseek.com/post/9" |}
  /\ extract_item (leaf "div" "Half-price hosting" None)
     = inr NoTitleElement.
Proof. vm_compute. repeat split; try reflexivity. discriminate. Qed.

(** ** Links *)

(** What the link of an extracted item looks like: it starts with [http],
    being either the [href] found, when that starts with [http], or that
    [href] after the site origin; and it holds no [/space/]. *)
Lemma extracted_link_shape post item :
  extract_item post = inl item ->
  Str.startswith (item_link item) "http" = true
  /\ Str.contains "/space/" (item_link item) = false
  /\ exists h, item_link item = to_absolute h
               /\ (Str.startswith h "http" = false ->
                   Str.startswith (item_link item) site = true).
Proof.
  unfold extract_item. destruct (find_title_element post) as [e|]; [|discriminate].
  destruct (_ <? 2); [discriminate|].
  unfold recover_link.
  destruct (match href_of e with Some h => Some h | None => _ end) as [h|];
    [|discriminate].
  cbn [option_map]. destruct (Str.contains "/space/" (to_absolute h)) eqn:Hs;
    [discriminate|].
  intros [= <-]. cbn [item_link]. split; [|split; [exact Hs|]].
  - unfold to_absolute. destruct (Str.startswith h "http") eqn:Hh; [exact Hh|].
    destruct (Str.startswith h "/"); reflexivity.
  - exists h. split; [reflexivity|]. intros Hh. unfold to_absolute. rewrite Hh.
    destruct (Str.startswith h "/"); apply StrFacts.startswith_spec; eauto.
Qed.

(** C8, on the code. An [href] that is a relative path beginning with
    [http] is taken for an absolute URL: it reaches the gates and the
    notification as it is, without the site origin. *)
Lemma relative_link_reaches_notification :
  let post := post_of "Deal B" "httpd-tuning/post/12" in
  extract_item post
  = inl {| item_title := "Deal B"; item_link := "httpd-tuning/post/12" |}
  /\ Str.startswith "httpd-tuning/post/12" "http://" = false
  /\ Str.startswith "httpd-tuning/post/12" "https://" = false
  /\ snd (process_post sample_config (at_time 0 true) post)
     = Sent {| n_keywords := ["deal"]; n_title := "Deal B";
               n_link := "httpd-tuning/post/12" |}.
Proof. vm_compute. repeat split; reflexivity. Qed.

(** ** A valid page without items *)

(** C9, as amended. When the page is valid but discovery finds nothing, the
    attempt sets the session-refresh flag, exactly as it does for a page that
    is not valid; the record is untouched and nothing is sent or saved. On the
    first two attempts the call waits [retry_delay * (attempt + 2)] seconds
    and tries again; on the last it returns. *)
Theorem no_items_forces_refresh attempt s config w response :
  (negb (scraper s) || need_cookie_refresh s = true ->
   exists status, homepage w = Got status) ->
  listing w = Got response ->
  looks_blocked response = false ->
  is_valid_page (soup response) = true ->
  find_post_items (document (soup response)) = [] ->
  let a := attempt_once attempt s config w in
  need_cookie_refresh (att_session a) = true
  /\ att_config a = config
  /\ att_outcomes a = []
  /\ att_saved a = None
  /\ (attempt < max_retries - 1 ->
      att_next a = Continue /\ att_backoff a = [retry_delay * (attempt + 2)])
  /\ (max_retries - 1 <= attempt -> att_next a = Return /\ att_backoff a = [])
  /\ (forall w' response',
        homepage w' = homepage w ->
        listing w' = Got response' ->
        looks_blocked response' = false ->
        is_valid_page (soup response') = false ->
        attempt_once attempt s config w' = a).
Proof.
  intros Hhome Hlist Hblocked Hvalid Hnone a. subst a.
  assert (Hread : forall s0,
            read_listing attempt s0 config w
            = retry_or_return attempt (refresh s0 true) config).
  { intros s0. unfold read_listing. rewrite Hlist, Hblocked, Hvalid, Hnone.
    reflexivity. }
  assert (Hother : forall s0 w' response',
            listing w' = Got response' ->
            looks_blocked response' = false ->
            is_valid_page (soup response') = false ->
            read_listing attempt s0 config w'
            = retry_or_return attempt (refresh s0 true) config).
  { intros s0 w' response' Hl Hb Hv. unfold read_listing.
    rewrite Hl, Hb, Hv. reflexivity. }
  assert (Hshape : forall s0,
            let a := retry_or_return attempt (refresh s0 true) config in
            need_cookie_refresh (att_session a) = true
            /\ att_config a = config /\ att_outcomes a = []
            /\ att_saved a = None
            /\ (attempt < max_retries - 1 ->
                att_next a = Continue
                /\ att_backoff a = [retry_delay * (attempt + 2)])
            /\ (max_retries - 1 <= attempt ->
                att_next a = Return /\ att_backoff a = [])).
  { intros s0. unfold retry_or_return.
    unfold max_retries in *.
    destruct (Z.ltb_spec attempt (3 - 1)); cbn;
      repeat split; try reflexivity; intros; repeat split;
      try reflexivity; lia. }
  unfold attempt_once.
  destruct (negb (scraper s) || need_cookie_refresh s) eqn:Hs.
  - destruct (Hhome eq_refl) as [status Hst]. rewrite Hst, Hread.
    destruct (Hshape {| scraper := true;
                        need_cookie_refresh := negb (status =? 200) |})
      as (H1 & H2 & H3 & H4 & H5 & H6).
    repeat split; try assumption; try (apply H5; assumption);
      try (apply H6; assumption).
    intros w' response' Hh Hl Hb Hv. rewrite Hh.
    now apply (Hother _ w' response').
  - rewrite Hread.
    destruct (Hshape s) as (H1 & H2 & H3 & H4 & H5 & H6).
    repeat split; try assumption; try (apply H5; assumption);
      try (apply H6; assumption).
    intros w' response' Hh Hl Hb Hv. now apply (Hother _ w' response').
Qed.

Lemma no_items_forces_refresh_witness :
  looks_blocked {| status_code := 200; text := "<html></html>";
                   soup := empty_page |} = false
  /\ is_valid_page empty_page = true
  /\ find_post_items (document empty_page) = []
  /\ need_cookie_refresh
       (att_session (attempt_once 0 live_session sample_config empty_listing))
     = true.
Proof.
  split; [reflexivity|]. split; [reflexivity|]. split; [reflexivity|].
  refine (proj1 (no_items_forces_refresh 0 live_session sample_config
                   empty_listing _ _ eq_refl eq_refl eq_refl eq_refl)).
  intros H. discriminate H.
Defined.

(** C9, as stated, fails: with a session in place and the flag down, a valid
    page without items raises the flag; over a whole call the three attempts
    wait 20 and 30 seconds and leave the flag up. *)
Lemma no_items_sets_refresh_flag :
  let a := attempt_once 0 live_session sample_config empty_listing in
  let c := check_rss_feed live_session sample_config
             [empty_listing; empty_listing; empty_listing] in
  is_valid_page empty_page = true
  /\ find_post_items (document empty_page) = []
  /\ need_cookie_refresh live_session = false
  /\ need_cookie_refresh (att_session a) = true
  /\ att_next a = Continue
  /\ need_cookie_refresh (chk_session c) = true
  /\ chk_backoff c = [20; 30].
Proof. vm_compute. repeat split; reflexivity. Qed.

(** ** The one-megabyte cut of [save_config] *)

Lemma distinct_wf {V} (d : Dict.t V) :
  Dict.distinct (map fst d) = true -> Dict.wf d.
Proof.
  unfold Dict.wf. induction (map fst d) as [|k keys IH]; simpl; intros H.
  - constructor.
  - apply andb_true_iff in H as [Hk Hrest]. constructor; [|auto].
    intros Hin. apply negb_true_iff in Hk.
    assert (existsb (String.eqb k) keys = true); [|congruence].
    apply existsb_exists. exists k. split; [exact Hin | apply String.eqb_refl].
Qed.



(** * Further properties *)

(** ** What a pass never touches *)

(** [c'] has the keywords and the Telegram settings of [c]. *)
Lemma capped_settings config :
  keywords (capped config) = keywords config
  /\ telegram (capped config) = telegram config.
Proof. split; reflexivity. Qed.

Lemma save_config_settings config :
  keywords (save_config config) = keywords config
  /\ telegram (save_config config) = telegram config.
Proof. unfold save_config. destruct (_ <? _); split; reflexivity. Qed.

Lemma notify_item_settings config now ok item :
  keywords (fst (notify_item config now ok item)) = keywords config
  /\ telegram (fst (notify_item config now ok item)) = telegram config.
Proof.
  unfold notify_item. cbn zeta.
  destruct (title_already_notified _ _ _); [split; reflexivity|].
  destruct (Dict.mem _ _); [split; reflexivity|].
  destruct (is_empty _); [split; reflexivity|].
  destruct (send_telegram_message _ _); [split; reflexivity|].
  destruct (Dict.mem _ _); split; reflexivity.
Qed.

Lemma process_post_settings config m post :
  keywords (fst (process_post config m post)) = keywords config
  /\ telegram (fst (process_post config m post)) = telegram config.
Proof.
  unfold process_post. destruct (extract_item post); [|split; reflexivity].
  apply notify_item_settings.
Qed.

Lemma process_posts_settings posts : forall config,
  keywords (fst (process_posts config posts)) = keywords config
  /\ telegram (fst (process_posts config posts)) = telegram config.
Proof.
  induction posts as [|[post m] posts IH]; intros config; [split; reflexivity|].
  cbn [process_posts].
  pose proof (process_post_settings config m post) as [Hk Ht].
  destruct (process_post config m post) as [c1 o]. cbn [fst] in Hk, Ht.
  specialize (IH c1). destruct (process_posts c1 posts) as [c2 os].
  cbn [fst] in *. destruct IH as [IHk IHt]. split; congruence.
Qed.

Lemma evaluate_settings config posts :
  (keywords (pass_config (evaluate config posts)) = keywords config
   /\ telegram (pass_config (evaluate config posts)) = telegram config)
  /\ forall saved,
       pass_saved (evaluate config posts) = Some saved ->
       keywords saved = keywords config /\ telegram saved = telegram config.
Proof.
  pose proof (process_posts_settings posts config) as [Hk Ht]. split.
  - rewrite pass_config_capped. exact (conj Hk Ht).
  - intros saved. unfold evaluate.
    destruct (process_posts config posts) as [c1 os]. cbn [fst] in Hk, Ht.
    pose proof (limit_history_capped c1) as Hc.
    destruct (limit_history c1) as [c2 trimmed]. cbn [fst] in Hc. subst c2.
    destruct (existsb changes_config os || trimmed); cbn [pass_saved];
      [|discriminate].
    intros [= <-]. destruct (save_config_settings (capped c1)) as [-> ->].
    exact (conj Hk Ht).
Qed.

Lemma idle_keeps_settings config s outcomes backoff next :
  keeps_settings config
    {| att_session := s; att_config := config; att_outcomes := outcomes;
       att_saved := None; att_backoff := backoff; att_next := next |}.
Proof. split; [split; reflexivity | discriminate]. Qed.

Lemma read_listing_keeps_settings attempt s config w :
  keeps_settings config (read_listing attempt s config w).
Proof.
  unfold read_listing. destruct (listing w) as [response|e].
  - destruct (looks_blocked response); [apply idle_keeps_settings|].
    destruct (negb (is_valid_page (soup response))).
    + unfold retry_or_return. destruct (_ <? _); apply idle_keeps_settings.
    + destruct (is_empty _).
      * unfold retry_or_return. destruct (_ <? _); apply idle_keeps_settings.
      * apply evaluate_settings.
  - unfold handle_error. apply idle_keeps_settings.
Qed.

Lemma attempt_once_keeps_settings attempt s config w :
  keeps_settings config (attempt_once attempt s config w).
Proof.
  unfold attempt_once. destruct (negb (scraper s) || need_cookie_refresh s).
  - destruct (homepage w); [apply read_listing_keeps_settings|].
    apply idle_keeps_settings.
  - apply read_listing_keeps_settings.
Qed.

Lemma attempts_keep_settings world : forall attempt s config,
  let c := attempts attempt s config world in
  (keywords (chk_config c) = keywords config
   /\ telegram (chk_config c) = telegram config)
  /\ forall saved,
       chk_saved c = Some saved ->
       keywords saved = keywords config /\ telegram saved = telegram config.
Proof.
  induction world as [|w world IH]; intros attempt s config; cbn [attempts].
  - split; [split; reflexivity | discriminate].
  - destruct (attempt_once_keeps_settings attempt s config w) as [[Hk Ht] Hs].
    destruct (att_next (attempt_once attempt s config w)).
    + specialize (IH (attempt + 1)
                     (att_session (attempt_once attempt s config w))
                     (att_config (attempt_once attempt s config w))).
      cbn zeta in IH. destruct IH as [[IHk IHt] IHs].
      cbn [chk_config chk_saved]. split; [split; congruence|].
      intros saved Hsaved. destruct (IHs saved Hsaved). split; congruence.
    + cbn [chk_config chk_saved]. split; [exact (conj Hk Ht) | exact Hs].
Qed.

(** X1. A call of [check_rss_feed] never changes the keywords or the
    Telegram settings: the record it leaves in memory and the record it
    saves, when it saves one, carry those it was given. *)
Theorem check_rss_feed_keeps_settings s config world :
  let c := check_rss_feed s config world in
  keywords (chk_config c) = keywords config
  /\ telegram (chk_config c) = telegram config
  /\ forall saved,
       chk_saved c = Some saved ->
       keywords saved = keywords config /\ telegram saved = telegram config.
Proof.
  unfold check_rss_feed. destruct (is_empty (keywords config)).
  - cbn. repeat split; discriminate.
  - destruct (attempts_keep_settings
                (firstn (Z.to_nat max_retries) world) 0 s config)
      as [[Hk Ht] Hs].
    cbn zeta. split; [exact Hk|]. split; [exact Ht | exact Hs].
Qed.

(** ** Identity records and deliveries *)


Lemma send_needs_credentials config ok :
  bot_token (telegram config) = "" \/ chat_id (telegram config) = "" ->
  send_telegram_message config ok = false.
Proof.
  unfold send_telegram_message. intros [H|H]; rewrite H; cbn.
  - reflexivity.
  - now rewrite orb_true_r.
Qed.

Lemma notify_item_without_credentials config now ok item :
  bot_token (telegram config) = "" \/ chat_id (telegram config) = "" ->
  notified_entries (fst (notify_item config now ok item))
  = notified_entries config
  /\ forall n, snd (notify_item config now ok item) <> Sent n.
Proof.
  intros Hcred. unfold notify_item. cbn zeta.
  destruct (title_already_notified _ _ _); [split; [reflexivity | discriminate]|].
  cbn [notified_entries set_title_notifications].
  destruct (Dict.mem _ _) eqn:Hmem; [split; [reflexivity | discriminate]|].
  destruct (is_empty _); [split; [reflexivity | discriminate]|].
  rewrite send_needs_credentials by exact Hcred.
  cbn [fst snd]. split; [|discriminate].
  cbn [notified_entries set_notified_entries set_title_notifications].
  unfold Dict.mem at 1. rewrite DictFacts.get_set_eq.
  cbn [notified_entries set_notified_entries].
  now apply DictFacts.del_set_fresh.
Qed.

(** X3. With an empty bot token or chat identifier nothing is ever
    delivered: over a whole loop of posts no outcome is [Sent] and
    [notified_entries] stays what it was, however many posts match. *)
Theorem no_credentials_no_identity_records posts : forall config,
  bot_token (telegram config) = "" \/ chat_id (telegram config) = "" ->
  notified_entries (fst (process_posts config posts))
  = notified_entries config
  /\ Forall (fun o => forall n, o <> Sent n) (snd (process_posts config posts)).
Proof.
  induction posts as [|[post m] posts IH]; intros config Hcred.
  - split; [reflexivity | constructor].
  - cbn [process_posts].
    assert (H1 : notified_entries (fst (process_post config m post))
                 = notified_entries config
                 /\ forall n, snd (process_post config m post) <> Sent n).
    { unfold process_post. destruct (extract_item post).
      - now apply notify_item_without_credentials.
      - split; [reflexivity | discriminate]. }
    pose proof (process_post_settings config m post) as [_ Ht].
    destruct (process_post config m post) as [c1 o]. cbn [fst snd] in *.
    assert (Hcred1 : bot_token (telegram c1) = ""
                     \/ chat_id (telegram c1) = "") by now rewrite Ht.
    specialize (IH c1 Hcred1). destruct (process_posts c1 posts) as [c2 os].
    cbn [fst snd] in *. destruct H1 as [E1 N1], IH as [E2 N2].
    split; [congruence | now constructor].
Qed.

Lemma no_credentials_no_identity_records_witness :
  let config := set_telegram {| bot_token := ""; chat_id := "1001" |}
                  sample_config in
  (bot_token (telegram config) = "" \/ chat_id (telegram config) = "")
  /\ snd (process_posts config (batch 100 35))
     <> []
  /\ notified_entries (fst (process_posts config (batch 100 35))) = [].
Proof.
  intros config. split; [now left|]. split; [vm_compute; discriminate|].
  exact (proj1 (no_credentials_no_identity_records (batch 100 35) config
                  (or_introl eq_refl))).
Defined.

(** ** The size of a call *)

Lemma llen_find_post_items soup : llen (find_post_items soup) <= 40.
Proof.
  unfold find_post_items. cbn zeta.
  pose proof (llen_try_selectors soup selectors_to_try) as H0.
  destruct (try_selectors soup selectors_to_try) as [|x l]; [|exact H0].
  cbn [is_empty]. destruct (potential_post_divs soup) as [|d ds].
  - cbn [is_empty negb]. unfold link_elements.
    destruct (firstn 40 (select soup content_links_selector))
      as [|a ls] eqn:E2.
    + cbn [is_empty negb]. unfold table_rows.
      pose proof (llen_firstn 40 (select soup "table tr")) as Hr.
      destruct (firstn 40 (select soup "table tr")) as [|r rs];
        [unfold llen; simpl; lia|].
      cbn [is_empty negb andb].
      destruct (1 <? llen (r :: rs)); [|unfold llen; simpl; lia].
      destruct (40 <? llen (r :: rs)).
      * pose proof (llen_firstn 39 (skipn 1 (r :: rs))) as H39.
        change (Z.of_nat 39) with 39 in H39. lia.
      * unfold llen in *. cbn [skipn List.length] in *.
        change (Z.of_nat 40) with 40 in Hr. lia.
    + cbn [is_empty negb]. rewrite <- E2. apply (llen_firstn 40).
  - cbn [is_empty negb]. apply (llen_firstn 40).
Qed.

Lemma length_process_posts posts : forall config,
  List.length (snd (process_posts config posts)) = List.length posts.
Proof.
  induction posts as [|[post m] posts IH]; intros config; [reflexivity|].
  cbn [process_posts]. destruct (process_post config m post) as [c1 o].
  specialize (IH c1). destruct (process_posts c1 posts) as [c2 os].
  cbn [snd List.length] in *. now rewrite IH.
Qed.

Lemma pass_outcomes_evaluate config posts :
  pass_outcomes (evaluate config posts) = snd (process_posts config posts).
Proof.
  unfold evaluate. destruct (process_posts config posts) as [c1 os].
  destruct (limit_history c1) as [c2 trimmed]. reflexivity.
Qed.

Lemma attempt_once_outcomes attempt s config w :
  llen (att_outcomes (attempt_once attempt s config w)) <= 40.
Proof.
  assert (Hidle : llen (@nil Outcome) <= 40) by (unfold llen; simpl; lia).
  assert (Hread : forall s0,
            llen (att_outcomes (read_listing attempt s0 config w)) <= 40).
  { intros s0. unfold read_listing. destruct (listing w) as [response|e].
    - destruct (looks_blocked response); [exact Hidle|].
      destruct (negb (is_valid_page (soup response))).
      + unfold retry_or_return. destruct (_ <? _); exact Hidle.
      + destruct (is_empty _).
        * unfold retry_or_return. destruct (_ <? _); exact Hidle.
        * cbn [att_outcomes]. rewrite pass_outcomes_evaluate. unfold llen.
          rewrite length_process_posts, length_combine, length_map, length_seq.
          rewrite Nat.min_id.
          apply (llen_find_post_items (document (soup response))).
    - exact Hidle. }
  unfold attempt_once. destruct (negb (scraper s) || need_cookie_refresh s).
  - destruct (homepage w); [apply Hread | exact Hidle].
  - apply Hread.
Qed.

(** X4. One call of [check_rss_feed] handles at most 40 posts, and
    therefore sends at most 40 notifications, whatever the page holds and
    however many attempts are made. *)
Theorem check_rss_feed_handles_at_most_forty s config world :
  let outcomes := chk_outcomes (check_rss_feed s config world) in
  llen outcomes <= 40
  /\ llen (filter changes_config outcomes) <= 40.
Proof.
  cbn zeta.
  assert (H : llen (chk_outcomes (check_rss_feed s config world)) <= 40).
  { unfold check_rss_feed. destruct (is_empty (keywords config));
      [unfold llen; simpl; lia|].
    generalize (firstn (Z.to_nat max_retries) world) as ws.
    generalize 0 as attempt. revert s config.
    intros s config attempt ws. revert attempt s config.
    induction ws as [|w ws IH]; intros attempt s config; cbn [attempts].
    - unfold llen. simpl. lia.
    - pose proof (attempt_once_outcomes attempt s config w) as Ha.
      destruct (att_next (attempt_once attempt s config w));
        cbn [chk_outcomes]; [apply IH | exact Ha]. }
  split; [exact H|].
  pose proof (filter_length_le changes_config
                (chk_outcomes (check_rss_feed s config world))).
  unfold llen in *. lia.
Qed.

(** [b] is what attempt number [attempt] can wait before a retry. *)
Lemma attempt_once_backoff attempt s config w :
  0 <= attempt ->
  let b := att_backoff (attempt_once attempt s config w) in
  Forall (fun t => t = 20 \/ t = 30) b
  /\ fold_right Z.add 0 b
     <= (if attempt <? 1 then 50 else if attempt <? 2 then 60 else 0).
Proof.
  intros Ha. cbn zeta.
  assert (Hidle : Forall (fun t => t = 20 \/ t = 30) []
                  /\ fold_right Z.add 0 []
                     <= (if attempt <? 1 then 50
                         else if attempt <? 2 then 60 else 0)).
  { split; [constructor|]. cbn. destruct (attempt <? 1); [lia|].
    destruct (attempt <? 2); lia. }
  assert (Hretry : forall s0 c0,
            let b := att_backoff (retry_or_return attempt s0 c0) in
            Forall (fun t => t = 20 \/ t = 30) b
            /\ fold_right Z.add 0 b
               <= (if attempt <? 1 then 50
                   else if attempt <? 2 then 60 else 0)).
  { intros s0 c0. unfold retry_or_return, max_retries, retry_delay.
    destruct (Z.ltb_spec attempt (3 - 1)); [|exact Hidle].
    cbn [att_backoff].
    destruct (Z.ltb_spec attempt 1); [|destruct (Z.ltb_spec attempt 2)].
    - assert (attempt = 0) as -> by lia. cbn.
      split; [apply Forall_cons; [lia | apply Forall_nil] | lia].
    - assert (attempt = 1) as -> by lia. cbn.
      split; [apply Forall_cons; [lia | apply Forall_nil] | lia].
    - lia. }
  assert (Herr : forall e s0 c0,
            let b := att_backoff (handle_error attempt e s0 c0) in
            Forall (fun t => t = 20 \/ t = 30) b
            /\ fold_right Z.add 0 b
               <= (if attempt <? 1 then 50
                   else if attempt <? 2 then 60 else 0)).
  { intros e s0 c0. unfold handle_error, max_retries, retry_delay.
    cbn [att_backoff].
    destruct (Z.ltb_spec attempt (3 - 1)).
    - destruct (Z.ltb_spec attempt 1).
      + assert (attempt = 0) as -> by lia.
        destruct e; cbn; split; try lia;
          repeat (apply Forall_cons; [lia|]); apply Forall_nil.
      + destruct (Z.ltb_spec attempt 2); [|lia].
        assert (attempt = 1) as -> by lia.
        destruct e; cbn; split; try lia;
          repeat (apply Forall_cons; [lia|]); apply Forall_nil.
    - destruct e; exact Hidle. }
  assert (Hread : forall s0,
            let b := att_backoff (read_listing attempt s0 config w) in
            Forall (fun t => t = 20 \/ t = 30) b
            /\ fold_right Z.add 0 b
               <= (if attempt <? 1 then 50
                   else if attempt <? 2 then 60 else 0)).
  { intros s0. unfold read_listing. destruct (listing w) as [response|e].
    - destruct (looks_blocked response); [exact Hidle|].
      destruct (negb (is_valid_page (soup response))); [apply Hretry|].
      destruct (is_empty _); [apply Hretry | exact Hidle].
    - apply Herr. }
  unfold attempt_once. destruct (negb (scraper s) || need_cookie_refresh s).
  - destruct (homepage w); [apply Hread | exact Hidle].
  - apply Hread.
Qed.

Lemma attempts_backoff world : forall attempt s config,
  0 <= attempt ->
  let b := chk_backoff (attempts attempt s config world) in
  Forall (fun t => t = 20 \/ t = 30) b
  /\ fold_right Z.add 0 b
     <= (if attempt <? 1 then 110 else if attempt <? 2 then 60 else 0).
Proof.
  induction world as [|w world IH]; intros attempt s config Ha;
    cbn [attempts].
  - cbn. split; [constructor|]. destruct (attempt <? 1); [lia|].
    destruct (attempt <? 2); lia.
  - pose proof (attempt_once_backoff attempt s config w Ha) as [Hf Hs].
    destruct (att_next (attempt_once attempt s config w)).
    + specialize (IH (attempt + 1)
                     (att_session (attempt_once attempt s config w))
                     (att_config (attempt_once attempt s config w))
                     ltac:(lia)).
      cbn zeta in IH. destruct IH as [IHf IHs]. cbn [chk_backoff]. split.
      * apply Forall_app. now split.
      * rewrite fold_right_app.
        assert (Hsum : forall a b,
                  fold_right Z.add (fold_right Z.add 0 b) a
                  = fold_right Z.add 0 a + fold_right Z.add 0 b).
        { intros a b. induction a as [|x a IHa]; cbn; [reflexivity|].
          rewrite IHa. lia. }
        rewrite Hsum.
        destruct (Z.ltb_spec attempt 1), (Z.ltb_spec attempt 2),
                 (Z.ltb_spec (attempt + 1) 1), (Z.ltb_spec (attempt + 1) 2);
          lia.
    + cbn [chk_backoff]. split; [exact Hf|].
      destruct (Z.ltb_spec attempt 1), (Z.ltb_spec attempt 2); lia.
Qed.

(** X5. The waits of one call before its retries are of 20 or 30 seconds
    each and add up to at most 110 seconds: 20 then 30 for the two retries,
    and 30 more before each when the failure was a [MemoryError]. *)
Theorem check_rss_feed_backoff_bounded s config world :
  let waits := chk_backoff (check_rss_feed s config world) in
  Forall (fun t => t = 20 \/ t = 30) waits
  /\ fold_right Z.add 0 waits <= 110.
Proof.
  unfold check_rss_feed. destruct (is_empty (keywords config)).
  - cbn. split; [constructor | lia].
  - apply (attempts_backoff (firstn (Z.to_nat max_retries) world) 0 s config).
    lia.
Qed.

(** ** Saving twice *)

Section SaveFacts.
Context {V : Type}.
Variable time : V -> Z.

Lemma limit_newest_short n (d : Dict.t V) :
  Dict.len d <= Z.of_nat n -> limit_newest time n d = d.
Proof.
  intros H. unfold limit_newest.
  destruct (Z.ltb_spec (Z.of_nat n) (Dict.len d)); [lia | reflexivity].
Qed.

Lemma keep_newest_again n (d : Dict.t V) :
  Dict.wf d ->
  keep_newest time n (keep_newest time n d) = keep_newest time n d.
Proof.
  intros H. rewrite (keep_newest_wf time n d H).
  rewrite keep_newest_wf by now apply wf_firstn, wf_sorted_newest.
  rewrite sorted_newest_fixed
    by apply (newest_first_split time n), sorted_newest_sorted.
  rewrite firstn_firstn. now rewrite Nat.min_id.
Qed.
End SaveFacts.

Lemma basic_config_eq config :
  basic_config config
  = {| keywords := keywords config;
       notified_entries := keep_newest ne_time 20 (notified_entries config);
       title_notifications :=
         keep_newest te_time 20 (title_notifications config);
       telegram := telegram config |}.
Proof.
  unfold basic_config.
  destruct (notified_entries config), (title_notifications config);
    reflexivity.
Qed.

Lemma capped_basic_config config :
  capped (basic_config config) = basic_config config.
Proof.
  rewrite basic_config_eq. unfold capped.
  cbn [notified_entries title_notifications set_notified_entries
       set_title_notifications keywords telegram].
  rewrite (limit_newest_short ne_time 50), (limit_newest_short te_time 100).
  - reflexivity.
  - pose proof (length_keep_newest te_time 20 (title_notifications config)).
    unfold Dict.len. lia.
  - pose proof (length_keep_newest ne_time 20 (notified_entries config)).
    unfold Dict.len. lia.
Qed.

Lemma basic_config_again config :
  config_wf config ->
  basic_config (basic_config config) = basic_config config.
Proof.
  intros [Hn Ht]. rewrite (basic_config_eq (basic_config config)).
  rewrite (basic_config_eq config).
  cbn [notified_entries title_notifications keywords telegram].
  now rewrite (keep_newest_again ne_time 20 _ Hn),
              (keep_newest_again te_time 20 _ Ht).
Qed.

(** X6. Saving never loses a keyword or a Telegram setting, whichever trim
    applies, and saving the record that was written writes the same record
    again. *)
Theorem save_config_idempotent config :
  config_wf config ->
  keywords (save_config config) = keywords config
  /\ telegram (save_config config) = telegram config
  /\ save_config (save_config config) = save_config config.
Proof.
  intros Hwf. destruct (save_config_settings config) as [Hk Ht].
  split; [exact Hk|]. split; [exact Ht|].
  pose proof (capped_wf config Hwf) as Hwf1.
  destruct (1024 * 1024 <? Json.dumps_len (capped config)) eqn:E.
  - unfold save_config. cbn zeta. rewrite E, capped_basic_config.
    rewrite (basic_config_again _ Hwf1).
    destruct (1024 * 1024 <? Json.dumps_len (basic_config (capped config)));
      reflexivity.
  - unfold save_config. cbn zeta. rewrite E, capped_idem. now rewrite E.
Qed.

Lemma save_config_idempotent_witness :
  config_wf bulky_config
  /\ save_config (save_config bulky_config) = save_config bulky_config.
Proof.
  assert (Hwf : config_wf bulky_config).
  { split; apply distinct_wf; vm_compute; reflexivity. }
  split; [exact Hwf|].
  exact (proj2 (proj2 (save_config_idempotent bulky_config Hwf))).
Defined.

(** ** Identity keys *)

Lemma digits_spec s :
  exists rest,
    s = Str.digits s ++ rest
    /\ Text.all_digits (Str.digits s)
    /\ Text.no_digit_ahead rest.
Proof.
  induction s as [|c s (rest & Hs & Hd & Hr)]; cbn [Str.digits].
  - exists "". repeat split.
  - destruct (Str.isdigit c) eqn:Hc.
    + exists rest. cbn [append Text.all_digits]. repeat split; auto.
      now rewrite <- Hs.
    + exists (String c s). repeat split. exact Hc.
Qed.

Lemma digits_head c r : Str.isdigit c = true -> Str.digits (String c r) <> "".
Proof. intros H. cbn [Str.digits]. now rewrite H. Qed.

Lemma nonempty_digits d :
  d <> "" -> Text.all_digits d ->
  exists c r, d = String c r /\ Str.isdigit c = true.
Proof. destruct d as [|c r]; [congruence|]. intros _ [Hc _]. eauto. Qed.

Section DigitSearch.
Variable prefix : string.

Lemma capture_at_some t d :
  Text.capture_at prefix t = Some d ->
  exists after,
    t = prefix ++ d ++ after
    /\ d <> "" /\ Text.all_digits d /\ Text.no_digit_ahead after.
Proof.
  unfold Text.capture_at. destruct (Str.after_prefix prefix t) as [rest|] eqn:E;
    [|discriminate].
  apply StrFacts.after_prefix_spec in E.
  destruct (digits_spec rest) as (after & Hrest & Hd & Ha).
  destruct (Str.digits rest) as [|c ds] eqn:Ed; [discriminate|].
  intros [= <-]. exists after.
  split; [congruence|]. split; [discriminate|]. now split.
Qed.

Lemma capture_at_none t :
  Text.capture_at prefix t = None -> ~ Text.matches_at prefix "" t.
Proof.
  unfold Text.capture_at. intros H (c & after & Ht & Hc). cbn [append] in Ht.
  apply StrFacts.after_prefix_spec in Ht. rewrite Ht in H.
  pose proof (digits_head c after Hc) as Hne.
  destruct (Str.digits (String c after)); [congruence | discriminate].
Qed.

Lemma search_digits_after_unfold s :
  Str.search_digits_after prefix s
  = match Text.capture_at prefix s with
    | Some d => Some d
    | None =>
        match s with
        | EmptyString => None
        | String _ r => Str.search_digits_after prefix r
        end
    end.
Proof. destruct s; reflexivity. Qed.

Lemma matches_at_tail a before s :
  Text.matches_at prefix (String a before) (String a s)
  <-> Text.matches_at prefix before s.
Proof.
  unfold Text.matches_at. cbn [append]. split.
  - intros (c & after & [= ->] & Hc). eauto.
  - intros (c & after & -> & Hc). eauto.
Qed.

(** Nothing found: the pattern is nowhere followed by a digit. *)
Lemma search_digits_after_none s :
  Str.search_digits_after prefix s = None -> ~ Text.digit_follows prefix s.
Proof.
  induction s as [|a s IH]; rewrite search_digits_after_unfold;
    destruct (Text.capture_at prefix _) eqn:E; try discriminate; intros H [before Hm].
  - destruct before as [|b before]; [exact (capture_at_none _ E Hm)|].
    destruct Hm as (c & after & Hs & _). discriminate.
  - destruct before as [|b before]; [exact (capture_at_none _ E Hm)|].
    assert (b = a) as ->
      by (destruct Hm as (c & after & Hs & _); cbn [append] in Hs; congruence).
    apply matches_at_tail in Hm. apply (IH H). now exists before.
Qed.

(** Something found: it is the whole run of digits after the leftmost place
    where the pattern is followed by a digit. *)
Lemma search_digits_after_some s : forall d,
  Str.search_digits_after prefix s = Some d ->
  exists before after,
    s = before ++ prefix ++ d ++ after
    /\ (forall before', Text.matches_at prefix before' s ->
                        (String.length before <= String.length before')%nat)
    /\ d <> "" /\ Text.all_digits d /\ Text.no_digit_ahead after.
Proof.
  induction s as [|a s IH]; intros d; rewrite search_digits_after_unfold;
    destruct (Text.capture_at prefix _) as [d'|] eqn:E; try discriminate.
  - intros [= <-]. destruct (capture_at_some _ _ E) as (after & Hs & H).
    exists "", after. split; [exact Hs|]. split; [|exact H].
    intros before' _. cbn [String.length]. lia.
  - intros [= <-]. destruct (capture_at_some _ _ E) as (after & Hs & H).
    exists "", after. split; [exact Hs|]. split; [|exact H].
    intros before' _. cbn [String.length]. lia.
  - intros H. destruct (IH d H) as (before & after & -> & Hleft & Hrest).
    exists (String a before), after. split; [reflexivity|].
    split; [|exact Hrest].
    intros [|b before'] Hm; [destruct (capture_at_none _ E Hm)|].
    assert (b = a) as ->
      by (destruct Hm as (c & after' & Hs & _); cbn [append] in Hs;
          congruence).
    apply matches_at_tail in Hm. specialize (Hleft before' Hm).
    cbn [String.length]. lia.
Qed.

Lemma search_digits_after_finds s :
  Text.digit_follows prefix s ->
  exists d, Str.search_digits_after prefix s = Some d.
Proof.
  intros H. destruct (Str.search_digits_after prefix s) as [d|] eqn:E;
    [eauto|]. destruct (search_digits_after_none s E H).
Qed.

Lemma search_digits_after_misses s :
  ~ Text.digit_follows prefix s -> Str.search_digits_after prefix s = None.
Proof.
  intros H. destruct (Str.search_digits_after prefix s) as [d|] eqn:E;
    [|reflexivity].
  destruct (search_digits_after_some s d E)
    as (before & after & -> & _ & Hne & Hd & _).
  destruct (nonempty_digits d Hne Hd) as (c & r & -> & Hc).
  destruct H. exists before, c, (r ++ after). now split.
Qed.

End DigitSearch.

Lemma find_post_id_none patterns link :
  (forall p, In p patterns -> ~ Text.digit_follows p link) ->
  find_post_id patterns link = None.
Proof.
  induction patterns as [|p ps IH]; intros H; cbn [find_post_id];
    [reflexivity|].
  rewrite (search_digits_after_misses p link (H p (or_introl eq_refl))).
  apply IH. intros q Hq. apply H. now right.
Qed.

Lemma find_post_id_first earlier pattern later link d :
  (forall p, In p earlier -> ~ Text.digit_follows p link) ->
  Str.search_digits_after pattern link = Some d ->
  find_post_id (earlier ++ pattern :: later) link = Some d.
Proof.
  induction earlier as [|p ps IH]; intros H Hd; cbn [find_post_id app].
  - now rewrite Hd.
  - rewrite (search_digits_after_misses p link (H p (or_introl eq_refl))).
    apply IH; [|exact Hd]. intros q Hq. apply H. now right.
Qed.

(** X7. The identity key of a link. The five path markers are tried in the
    order of the list, and the first of them that is somewhere followed by a
    digit decides: the key is [post_] followed by the whole run of digits
    that follows the leftmost place where that marker is followed by a
    digit. When no marker is followed by a digit anywhere, the key is the
    link itself. *)
Theorem entry_id_shape link :
  ((forall pattern, In pattern post_id_patterns ->
                    ~ Text.digit_follows pattern link) ->
   entry_id link = link)
  /\ forall earlier pattern later,
       post_id_patterns = (earlier ++ pattern :: later)%list ->
       (forall p, In p earlier -> ~ Text.digit_follows p link) ->
       Text.digit_follows pattern link ->
       exists before digits after,
         link = before ++ pattern ++ digits ++ after
         /\ (forall before',
               Text.matches_at pattern before' link ->
               (String.length before <= String.length before')%nat)
         /\ digits <> ""
         /\ Text.all_digits digits
         /\ Text.no_digit_ahead after
         /\ entry_id link = "post_" ++ digits.
Proof.
  unfold entry_id. split.
  - intros H. now rewrite (find_post_id_none _ _ H).
  - intros earlier pattern later -> Hearlier Hhere.
    destruct (search_digits_after_finds pattern link Hhere) as [d Hd].
    rewrite (find_post_id_first earlier pattern later link d Hearlier Hd).
    destruct (search_digits_after_some pattern link d Hd)
      as (before & after & Hl & Hleft & Hne & Hall & Hafter).
    exists before, d, after. repeat (split; [assumption|]). reflexivity.
Qed.

Lemma entry_id_shape_witness :
  Text.digit_follows "/topic/" "/thread/x/topic/12/post/345?p=6"
  /\ ~ Text.digit_follows "/thread/" "/thread/x/topic/12/post/345?p=6"
  /\ exists before digits after,
       "/thread/x/topic/12/post/345?p=6" = before ++ "/post/" ++ digits ++ after
       /\ digits <> ""
       /\ Text.no_digit_ahead after
       /\ entry_id "/thread/x/topic/12/post/345?p=6" = "post_" ++ digits.
Proof.
  split; [exists "/thread/x", "1"%char, "2/post/345?p=6"; now split|].
  split.
  { apply search_digits_after_none. reflexivity. }
  destruct (entry_id_shape "/thread/x/topic/12/post/345?p=6") as [_ H].
  destruct (H [] "/post/" ["/topic/"; "/thread/"; "/space/"; "/discussion/"]
              eq_refl)
    as (before & digits & after & Hl & _ & Hne & _ & Ha & Hid).
  - intros p [].
  - exists "/thread/x/topic/12", "3"%char, "45?p=6". now split.
  - exists before, digits, after. repeat (split; [assumption|]). exact Hid.
Defined.

(** ** Normalized titles and keywords *)

Lemma lower_char_idem c : Str.lower_char (Str.lower_char c) = Str.lower_char c.
Proof. destruct c as [[] [] [] [] [] [] [] []]; reflexivity. Qed.

Lemma isspace_lower_char c : Str.isspace (Str.lower_char c) = Str.isspace c.
Proof. destruct c as [[] [] [] [] [] [] [] []]; reflexivity. Qed.

Lemma lower_idem s : Str.lower (Str.lower s) = Str.lower s.
Proof.
  induction s as [|c s IH]; cbn [Str.lower]; [reflexivity|].
  now rewrite lower_char_idem, IH.
Qed.

Lemma lower_lstrip s : Str.lower (Str.lstrip s) = Str.lstrip (Str.lower s).
Proof.
  induction s as [|c s IH]; cbn [Str.lower Str.lstrip]; [reflexivity|].
  rewrite isspace_lower_char. destruct (Str.isspace c); [exact IH|].
  reflexivity.
Qed.

Lemma lower_rstrip s : Str.lower (Str.rstrip s) = Str.rstrip (Str.lower s).
Proof.
  induction s as [|c s IH]; cbn [Str.lower Str.rstrip]; [reflexivity|].
  rewrite <- IH, isspace_lower_char.
  destruct (Str.rstrip s); cbn [Str.lower]; [|reflexivity].
  now destruct (Str.isspace c).
Qed.

Lemma lower_strip s : Str.lower (Str.strip s) = Str.strip (Str.lower s).
Proof. unfold Str.strip. now rewrite lower_rstrip, lower_lstrip. Qed.

Lemma lstrip_starts_clean s : Text.starts_clean (Str.lstrip s).
Proof.
  induction s as [|c s IH]; cbn [Str.lstrip]; [exact I|].
  destruct (Str.isspace c) eqn:E; [exact IH | exact E].
Qed.

Lemma lstrip_clean s : Text.starts_clean s -> Str.lstrip s = s.
Proof. destruct s as [|c s]; cbn; [reflexivity | now intros ->]. Qed.

Lemma rstrip_starts_clean s :
  Text.starts_clean s -> Text.starts_clean (Str.rstrip s).
Proof.
  destruct s as [|c s]; cbn [Str.rstrip Text.starts_clean]; [easy|].
  intros H. destruct (Str.rstrip s); [rewrite H|]; exact H.
Qed.

Lemma rstrip_cons c r :
  Str.rstrip (String c r)
  = match Str.rstrip r with
    | EmptyString =>
        if Str.isspace c then EmptyString else String c EmptyString
    | r' => String c r'
    end.
Proof. reflexivity. Qed.

Lemma rstrip_idem s : Str.rstrip (Str.rstrip s) = Str.rstrip s.
Proof.
  induction s as [|c s IH]; [reflexivity|]. rewrite (rstrip_cons c s).
  destruct (Str.rstrip s) as [|d t] eqn:E.
  - destruct (Str.isspace c) eqn:Hc; [reflexivity|].
    rewrite rstrip_cons. cbn [Str.rstrip]. now rewrite Hc.
  - rewrite rstrip_cons, IH. reflexivity.
Qed.

Lemma strip_idem s : Str.strip (Str.strip s) = Str.strip s.
Proof.
  unfold Str.strip.
  rewrite (lstrip_clean (Str.rstrip (Str.lstrip s)))
    by apply rstrip_starts_clean, lstrip_starts_clean.
  apply rstrip_idem.
Qed.

(** X8. A title key is a fixed point of the normalization, and the
    normalization does not see the case of the title: keys stored in
    [title_notifications] are found again whatever the case of the title
    met. *)
Theorem normalized_title_stable title :
  normalized_title (normalized_title title) = normalized_title title
  /\ normalized_title (Str.lower title) = normalized_title title
  /\ Str.lower (normalized_title title) = normalized_title title
  /\ Str.strip (normalized_title title) = normalized_title title.
Proof.
  unfold normalized_title. repeat split.
  - now rewrite lower_strip, lower_idem, strip_idem.
  - now rewrite lower_idem.
  - now rewrite lower_strip, lower_idem.
  - apply strip_idem.
Qed.

(** X9. Two keys are similar exactly when they are equal or one occurs in
    the other; the test therefore gives the same answer whichever of the
    two titles came first, holds between a key and itself, and holds between
    the empty key and every key. *)
Theorem similar_spec a b :
  (similar a b = true <->
   a = b \/ Str.occurs_in a b \/ Str.occurs_in b a)
  /\ similar a b = similar b a
  /\ similar a a = true
  /\ similar a "" = true.
Proof.
  unfold similar. repeat split.
  - intros H. apply orb_true_iff in H as [H|H];
      [apply orb_true_iff in H as [H|H]|].
    + left. now apply String.eqb_eq.
    + right. left. now apply StrFacts.contains_spec.
    + right. right. now apply StrFacts.contains_spec.
  - intros [->|[H|H]].
    + now rewrite String.eqb_refl.
    + apply StrFacts.contains_spec in H. rewrite H.
      now rewrite orb_true_r.
    + apply StrFacts.contains_spec in H. rewrite H.
      now rewrite !orb_true_r.
  - rewrite (String.eqb_sym a b).
    destruct (String.eqb b a), (Str.contains a b), (Str.contains b a);
      reflexivity.
  - now rewrite String.eqb_refl.
  - assert (H : Str.contains "" a = true).
    { apply StrFacts.contains_spec. now exists "", a. }
    rewrite H. now rewrite !orb_true_r.
Qed.

Lemma subsequence_refl {A} (l : list A) : subsequence l l.
Proof. induction l; now constructor. Qed.

Lemma subsequence_trans {A} (l2 l3 : list A) :
  subsequence l2 l3 -> forall l1, subsequence l1 l2 -> subsequence l1 l3.
Proof.
  induction 1 as [|x l2 l3 _ IH|x l2 l3 _ IH]; intros l1 H1.
  - exact H1.
  - inversion H1; subst; constructor; now apply IH.
  - constructor. now apply IH.
Qed.

Lemma subsequence_In {A} (kept all : list A) :
  subsequence kept all -> forall x, In x kept -> In x all.
Proof.
  induction 1 as [|x kept all _ IH|x kept all _ IH]; intros y Hy.
  - exact Hy.
  - destruct Hy as [->|Hy]; [now left | right; now apply IH].
  - right. now apply IH.
Qed.

Lemma subsequence_length {A} (kept all : list A) :
  subsequence kept all -> (List.length kept <= List.length all)%nat.
Proof. induction 1; cbn [List.length]; lia. Qed.

Lemma subsequence_filter {A} (f : A -> bool) (l : list A) :
  subsequence (filter f l) l.
Proof.
  induction l as [|x l IH]; cbn [filter]; [constructor|].
  destruct (f x); now constructor.
Qed.

Lemma count_occ_filter (f : string -> bool) (l : list string) x :
  f x = true ->
  count_occ string_dec (filter f l) x = count_occ string_dec l x.
Proof.
  intros Hx. induction l as [|y l IH]; cbn [filter count_occ]; [reflexivity|].
  destruct (string_dec y x) as [->|Hne].
  - rewrite Hx. cbn [count_occ].
    destruct (string_dec x x); [now rewrite IH | contradiction].
  - destruct (f y); [|exact IH]. cbn [count_occ].
    destruct (string_dec y x); [contradiction | exact IH].
Qed.

(** X10. The matched keywords are the configured keywords that occur in the
    title when both are put in lower case, in the order of the
    configuration: they are the configured list without the keywords that
    do not occur, the others in their order and as many times as they are
    configured. The case of the title changes nothing, and an empty keyword
    matches every title. *)
Theorem matched_keywords_spec config title :
  (forall keyword,
     In keyword (matched_keywords config title) <->
     In keyword (keywords config)
     /\ Str.occurs_in (Str.lower keyword) (Str.lower title))
  /\ subsequence (matched_keywords config title) (keywords config)
  /\ (forall keyword,
        Str.occurs_in (Str.lower keyword) (Str.lower title) ->
        count_occ string_dec (matched_keywords config title) keyword
        = count_occ string_dec (keywords config) keyword)
  /\ matched_keywords config (Str.lower title) = matched_keywords config title
  /\ (In "" (keywords config) -> In "" (matched_keywords config title)).
Proof.
  unfold matched_keywords. split; [|split; [|split; [|split]]].
  - intros keyword. rewrite filter_In.
    split; intros [Hin H]; (split; [exact Hin|]);
      now apply StrFacts.contains_spec.
  - apply subsequence_filter.
  - intros keyword Hocc.
    apply (count_occ_filter
             (fun k => Str.contains (Str.lower k) (Str.lower title))).
    now apply StrFacts.contains_spec.
  - now rewrite lower_idem.
  - intros Hin. apply filter_In. split; [exact Hin|].
    apply StrFacts.contains_spec. now exists "", (Str.lower title).
Qed.

(** ** Commands received through Telegram *)

Lemma mem_In x l : Text.mem x l = true <-> In x l.
Proof.
  unfold Text.mem. rewrite existsb_exists. split.
  - intros (y & Hy & E). apply String.eqb_eq in E. now subst.
  - intros H. exists x. split; [exact H | apply String.eqb_refl].
Qed.

Lemma mem_false_In x l : Text.mem x l = false <-> ~ In x l.
Proof.
  rewrite <- mem_In. destruct (Text.mem x l); split; congruence.
Qed.

Lemma In_remove x k l : In x (Text.remove k l) -> In x l.
Proof.
  induction l as [|y l IH]; cbn [Text.remove]; [easy|].
  destruct (String.eqb k y); [now right|].
  intros [<-|H]; [now left | right; now apply IH].
Qed.

Lemma NoDup_remove_first k l : NoDup l -> NoDup (Text.remove k l).
Proof.
  induction l as [|y l IH]; cbn [Text.remove]; [easy|].
  intros H. inversion H as [|? ? Hy Hl]; subst.
  destruct (String.eqb k y); [exact Hl|].
  constructor; [|now apply IH]. intros Hin. apply Hy.
  now apply In_remove in Hin.
Qed.

Lemma remove_last k l : ~ In k l -> Text.remove k (l ++ [k]) = l.
Proof.
  induction l as [|y l IH]; cbn [Text.remove app]; intros H.
  - now rewrite String.eqb_refl.
  - destruct (String.eqb_spec k y) as [->|Hne].
    + exfalso. apply H. now left.
    + rewrite IH; [reflexivity|]. intros Hin. apply H. now right.
Qed.

Lemma nonempty_true s : Str.nonempty s = true <-> s <> "".
Proof. destruct s; cbn; split; congruence. Qed.

Lemma listen_foreign l u :
  upd_sender u <> chat_id (telegram (l_config l)) ->
  l_config (listen l u) = l_config l
  /\ l_file (listen l u) = l_file l
  /\ l_replies (listen l u) = l_replies l.
Proof.
  intros H. unfold listen, handle_update.
  destruct (String.eqb_spec (upd_sender u) (chat_id (telegram (l_config l))));
    [contradiction|].
  cbn. now rewrite app_nil_r.
Qed.

(** X11. Updates that do not come from the configured chat are passed over:
    whatever their text, the record is not changed, nothing is written and
    nothing is answered. *)
Theorem foreign_updates_are_ignored config updates :
  Forall (fun u => upd_sender u <> chat_id (telegram config)) updates ->
  let l := handle_telegram_commands config updates in
  l_config l = config /\ l_file l = None /\ l_replies l = [].
Proof.
  intros Hall. unfold handle_telegram_commands.
  destruct (negb (Str.nonempty (bot_token (telegram config)))
            || negb (Str.nonempty (chat_id (telegram config))));
    [repeat split|].
  set (start := {| l_config := config; last_update_id := None;
                   l_file := None; l_replies := [] |}).
  enough (H : forall l,
            l_config l = config ->
            l_config (fold_left listen updates l) = l_config l
            /\ l_file (fold_left listen updates l) = l_file l
            /\ l_replies (fold_left listen updates l) = l_replies l)
    by exact (H start eq_refl).
  induction Hall as [|u updates Hu Hall IH]; intros l Hl; cbn [fold_left];
    [repeat split|].
  rewrite <- Hl in Hu. destruct (listen_foreign l u Hu) as (Hc & Hf & Hr).
  destruct (IH (listen l u)) as (IHc & IHf & IHr); [congruence|].
  repeat split; congruence.
Qed.

Lemma foreign_updates_are_ignored_witness :
  let updates := [stranger_says 7 "/add free"; stranger_says 8 "/del deal"] in
  Forall (fun u => upd_sender u <> chat_id (telegram sample_config)) updates
  /\ l_config (handle_telegram_commands sample_config updates) = sample_config
  /\ last_update_id (handle_telegram_commands sample_config updates) = Some 9.
Proof.
  intros updates.
  assert (H : Forall (fun u => upd_sender u <> chat_id (telegram sample_config))
                updates) by (repeat constructor; discriminate).
  split; [exact H|].
  split; [exact (proj1 (foreign_updates_are_ignored sample_config updates H))|].
  reflexivity.
Defined.

Lemma handle_update_keywords config u :
  NoDup (keywords config) -> ~ In "" (keywords config) ->
  NoDup (keywords (h_config (handle_update config u)))
  /\ ~ In "" (keywords (h_config (handle_update config u))).
Proof.
  intros Hnd Hne. unfold handle_update.
  destruct (negb _); [now split|].
  destruct (Str.startswith (upd_text u) "/add ").
  - destruct (Str.nonempty _) eqn:Hk; cbn [andb]; [|now split].
    destruct (Text.mem _ _) eqn:Hm; cbn [negb]; [now split|].
    cbn [h_config]. change (keywords (capped ?c)) with (keywords c).
    cbn [keywords set_keywords]. apply mem_false_In in Hm.
    apply nonempty_true in Hk. split.
    + apply NoDup_rev in Hnd. rewrite <- (rev_involutive (_ ++ _)).
      apply NoDup_rev. rewrite rev_app_distr. cbn. constructor; [|exact Hnd].
      now rewrite <- in_rev.
    + intros Hin. apply in_app_or in Hin as [Hin|[Hin|[]]]; [auto|].
      exact (Hk Hin).
  - destruct (Str.startswith (upd_text u) "/del ").
    + destruct (Text.mem _ _); [|now split].
      cbn [h_config]. change (keywords (capped ?c)) with (keywords c).
      cbn [keywords set_keywords]. split.
      * now apply NoDup_remove_first.
      * intros Hin. now apply In_remove in Hin.
    + destruct (Str.startswith (upd_text u) "/list"); [now split|].
      destruct (Str.startswith (upd_text u) "/help"); now split.
Qed.

(** X12. Commands never put a keyword twice in the list nor an empty
    keyword in it: a list of distinct, non-empty keywords stays one through
    any sequence of updates. *)
Theorem commands_keep_keywords_distinct config updates :
  NoDup (keywords config) -> ~ In "" (keywords config) ->
  let l := handle_telegram_commands config updates in
  NoDup (keywords (l_config l)) /\ ~ In "" (keywords (l_config l)).
Proof.
  intros Hnd Hne. unfold handle_telegram_commands.
  destruct (negb (Str.nonempty (bot_token (telegram config)))
            || negb (Str.nonempty (chat_id (telegram config))));
    [now split|].
  set (start := {| l_config := config; last_update_id := None;
                   l_file := None; l_replies := [] |}).
  enough (H : forall l,
            NoDup (keywords (l_config l)) -> ~ In "" (keywords (l_config l)) ->
            NoDup (keywords (l_config (fold_left listen updates l)))
            /\ ~ In "" (keywords (l_config (fold_left listen updates l))))
    by exact (H start Hnd Hne).
  induction updates as [|u updates IH]; intros l H1 H2; cbn [fold_left];
    [now split|].
  destruct (handle_update_keywords (l_config l) u H1 H2) as [H3 H4].
  now apply IH.
Qed.

Lemma commands_keep_keywords_distinct_witness :
  let updates := [owner_says 1 "/add vps"; owner_says 2 "/add  vps ";
                  owner_says 3 "/add "; owner_says 4 "/del deal"] in
  NoDup (keywords sample_config)
  /\ ~ In "" (keywords sample_config)
  /\ keywords (l_config (handle_telegram_commands sample_config updates))
     = ["vps"]
  /\ l_replies (handle_telegram_commands sample_config updates)
     = [ReplyAdded "vps"; ReplyExistsOrEmpty; ReplyExistsOrEmpty;
        ReplyDeleted "deal"]
  /\ NoDup (keywords (l_config (handle_telegram_commands sample_config
                                  updates))).
Proof.
  intros updates.
  assert (H1 : NoDup (keywords sample_config))
    by (repeat constructor; cbn; tauto).
  assert (H2 : ~ In "" (keywords sample_config))
    by (cbn; intros [H|[]]; discriminate H).
  split; [exact H1|]. split; [exact H2|].
  split; [reflexivity|]. split; [reflexivity|].
  exact (proj1 (commands_keep_keywords_distinct sample_config updates H1 H2)).
Defined.

(** X13. Adding a new keyword by [/add] and deleting it by [/del] gives the
    keyword list back: the first command puts the keyword last and answers
    that it was added, the second removes it and answers that it was
    deleted, and both write the record. *)
Theorem add_then_del_restores config keyword id1 id2 :
  Str.strip keyword = keyword ->
  keyword <> "" ->
  ~ In keyword (keywords config) ->
  let sender := chat_id (telegram config) in
  let added :=
    handle_update config
      {| update_id := id1; upd_text := "/add " ++ keyword;
         upd_sender := sender |} in
  let deleted :=
    handle_update (h_config added)
      {| update_id := id2; upd_text := "/del " ++ keyword;
         upd_sender := sender |} in
  h_reply added = Some (ReplyAdded keyword)
  /\ keywords (h_config added) = (keywords config ++ [keyword])%list
  /\ (exists written, h_saved added = Some written
                      /\ keywords written = (keywords config ++ [keyword])%list)
  /\ h_reply deleted = Some (ReplyDeleted keyword)
  /\ keywords (h_config deleted) = keywords config
  /\ (exists written, h_saved deleted = Some written
                      /\ keywords written = keywords config).
Proof.
  intros Hstrip Hne Hnew sender added deleted.
  assert (Hadd : added
                 = let c := set_keywords (keywords config ++ [keyword])%list
                              config in
                   {| h_config := capped c; h_saved := Some (save_config c);
                      h_reply := Some (ReplyAdded keyword) |}).
  { subst added sender. unfold handle_update.
    cbn [upd_sender upd_text]. rewrite String.eqb_refl. cbn [negb].
    change (Str.startswith ("/add " ++ keyword) "/add ") with true.
    change (Text.drop 5 ("/add " ++ keyword)) with keyword.
    cbv iota. rewrite Hstrip.
    apply nonempty_true in Hne. apply mem_false_In in Hnew.
    now rewrite Hne, Hnew. }
  assert (Hdel : deleted
                 = let c := set_keywords (keywords config) (h_config added) in
                   {| h_config := capped c; h_saved := Some (save_config c);
                      h_reply := Some (ReplyDeleted keyword) |}).
  { subst deleted sender. rewrite Hadd. cbn zeta. unfold handle_update.
    cbn [upd_sender upd_text h_config].
    change (chat_id (telegram (capped ?c))) with (chat_id (telegram c)).
    cbn [telegram set_keywords]. rewrite String.eqb_refl. cbn [negb].
    change (Str.startswith ("/del " ++ keyword) "/add ") with false.
    change (Str.startswith ("/del " ++ keyword) "/del ") with true.
    change (Text.drop 5 ("/del " ++ keyword)) with keyword.
    cbv iota. rewrite Hstrip.
    change (keywords (capped ?c)) with (keywords c).
    cbn [keywords set_keywords].
    assert (Hm : Text.mem keyword (keywords config ++ [keyword]) = true).
    { apply mem_In. apply in_or_app. right. now left. }
    rewrite Hm. now rewrite (remove_last keyword _ Hnew). }
  rewrite Hdel, Hadd. cbn zeta. cbn [h_reply h_config h_saved].
  repeat split.
  - eexists. split; [reflexivity|]. now rewrite (proj1 (save_config_settings _)).
  - eexists. split; [reflexivity|]. now rewrite (proj1 (save_config_settings _)).
Qed.

Lemma add_then_del_restores_witness :
  Str.strip "vps" = "vps"
  /\ ~ In "vps" (keywords sample_config)
  /\ keywords (h_config
       (handle_update
          (h_config (handle_update sample_config (owner_says 1 "/add vps")))
          (owner_says 2 "/del vps")))
     = keywords sample_config.
Proof.
  assert (Hnew : ~ In "vps" (keywords sample_config))
    by (cbn; intros [H|[]]; discriminate H).
  assert (Hne : "vps" <> "") by discriminate.
  split; [reflexivity|]. split; [exact Hnew|].
  destruct (add_then_del_restores sample_config "vps" 1 2 eq_refl Hne Hnew)
    as (_ & _ & _ & _ & H & _).
  exact H.
Defined.

(** X14. The listener and the monitor loop each hold their own record. When
    both started from the same keywords and the listener has added a
    keyword, the file it wrote holds that keyword; the record a pass of the
    monitor saves afterwards does not, since a pass saves the keywords of
    the record it was given. *)
Theorem pass_save_ignores_listener_keyword
    listener_config monitor_config u keyword posts saved :
  keywords listener_config = keywords monitor_config ->
  h_reply (handle_update listener_config u) = Some (ReplyAdded keyword) ->
  pass_saved (evaluate monitor_config posts) = Some saved ->
  (exists written,
     h_saved (handle_update listener_config u) = Some written
     /\ In keyword (keywords written))
  /\ ~ In keyword (keywords saved).
Proof.
  intros Hsame Hreply Hsaved.
  destruct (evaluate_settings monitor_config posts) as [_ Hs].
  destruct (Hs saved Hsaved) as [Hk _]. rewrite Hk, <- Hsame.
  revert Hreply. unfold handle_update.
  destruct (negb _); [discriminate|].
  destruct (Str.startswith (upd_text u) "/add ").
  - destruct (Str.nonempty _); cbn [andb]; [|discriminate].
    destruct (Text.mem _ _) eqn:Hm; cbn [negb]; [discriminate|].
    cbn [h_reply h_saved]. intros [= <-]. split.
    + eexists. split; [reflexivity|].
      rewrite (proj1 (save_config_settings _)). cbn [keywords set_keywords].
      apply in_or_app. right. now left.
    + now apply mem_false_In.
  - destruct (Str.startswith (upd_text u) "/del ").
    + destruct (Text.mem _ _); discriminate.
    + destruct (Str.startswith (upd_text u) "/list");
        [destruct (is_empty _); discriminate|].
      destruct (Str.startswith (upd_text u) "/help"); discriminate.
Qed.

Lemma pass_save_ignores_listener_keyword_witness :
  let u := owner_says 1 "/add vps" in
  let posts := [(post_of "Deal A" "/post/7", at_time 0 true)] in
  h_reply (handle_update sample_config u) = Some (ReplyAdded "vps")
  /\ (exists saved,
        pass_saved (evaluate sample_config posts) = Some saved
        /\ ~ In "vps" (keywords saved)).
Proof.
  intros u posts. split; [reflexivity|].
  eexists. split; [reflexivity|].
  exact (proj2 (pass_save_ignores_listener_keyword sample_config sample_config
                  u "vps" posts _ eq_refl eq_refl eq_refl)).
Defined.

(** ** The keyword menu *)

Lemma sub_spaces_true_clean s :
  Text.starts_clean (Text.sub_spaces_from true s).
Proof.
  induction s as [|c s IH]; cbn [Text.sub_spaces_from]; [exact I|].
  destruct (Str.isspace c) eqn:E; [exact IH | exact E].
Qed.

Lemma sub_spaces_false_clean s :
  Text.starts_clean s -> Text.starts_clean (Text.sub_spaces_from false s).
Proof.
  destruct s as [|c s]; cbn [Text.sub_spaces_from Text.starts_clean]; [easy|].
  intros H. now rewrite H.
Qed.

(** Once the white space at its end is taken off, the text with its runs of
    white space replaced is single-spaced. *)
Lemma rstrip_sub_spaces_single s : forall in_run,
  Text.single_spaced (Str.rstrip (Text.sub_spaces_from in_run s)).
Proof.
  induction s as [|c s IH]; intros in_run; cbn [Text.sub_spaces_from];
    [exact I|].
  destruct (Str.isspace c) eqn:Hc.
  - destruct in_run; [apply IH|]. rewrite rstrip_cons.
    pose proof (rstrip_starts_clean _ (sub_spaces_true_clean s)) as Hclean.
    pose proof (IH true) as Hsingle.
    destruct (Str.rstrip (Text.sub_spaces_from true s)) as [|d t];
      [exact I|].
    cbn [Text.single_spaced]. split; [|exact Hsingle].
    intros _. split; [reflexivity | exact Hclean].
  - rewrite rstrip_cons. pose proof (IH false) as Hsingle.
    destruct (Str.rstrip (Text.sub_spaces_from false s)) as [|d t].
    + rewrite Hc. cbn [Text.single_spaced]. split; [|exact I].
      intros H. congruence.
    + cbn [Text.single_spaced]. split; [|exact Hsingle].
      intros H. congruence.
Qed.

Lemma rstrip_single s : Text.single_spaced s -> Str.rstrip s = s.
Proof.
  induction s as [|c s IH]; [reflexivity|]. cbn [Text.single_spaced].
  intros [Hc Hs]. rewrite rstrip_cons, (IH Hs).
  destruct s as [|d t]; [|reflexivity].
  destruct (Str.isspace c); [|reflexivity]. now destruct (Hc eq_refl).
Qed.

Lemma sub_spaces_single s :
  Text.single_spaced s ->
  Text.sub_spaces_from false s = s
  /\ (Text.starts_clean s -> Text.sub_spaces_from true s = s).
Proof.
  induction s as [|c s IH]; [now split|]. cbn [Text.single_spaced].
  intros [Hc Hs]. destruct (IH Hs) as [IH1 IH2].
  cbn [Text.sub_spaces_from Text.starts_clean].
  destruct (Str.isspace c) eqn:E.
  - destruct (Hc eq_refl) as [-> Hnext]. split; [|discriminate].
    rewrite IH2; [reflexivity|]. now destruct s.
  - split; [|intros _]; now rewrite IH1.
Qed.

(** What [add_keyword] stores of the line typed. *)
Lemma menu_keyword_normal typed :
  let keyword := Str.strip (Text.sub_spaces (Str.strip typed)) in
  Text.starts_clean keyword
  /\ Text.single_spaced keyword
  /\ Str.strip (Text.sub_spaces (Str.strip keyword)) = keyword.
Proof.
  cbn zeta.
  assert (Hclean : forall x, Text.starts_clean (Str.strip x)).
  { intros x. apply rstrip_starts_clean, lstrip_starts_clean. }
  assert (Hsingle : Text.single_spaced
                      (Str.strip (Text.sub_spaces (Str.strip typed)))).
  { unfold Str.strip at 1. unfold Text.sub_spaces.
    rewrite lstrip_clean by apply sub_spaces_false_clean, Hclean.
    apply rstrip_sub_spaces_single. }
  split; [apply Hclean|]. split; [exact Hsingle|].
  set (k := Str.strip (Text.sub_spaces (Str.strip typed))) in *.
  assert (Hk : Str.strip k = k).
  { unfold Str.strip. rewrite (lstrip_clean k) by apply Hclean.
    now apply rstrip_single. }
  rewrite Hk. unfold Text.sub_spaces.
  rewrite (proj1 (sub_spaces_single k Hsingle)). exact Hk.
Qed.

(** X15. A keyword stored through the menu is not empty, has no white space
    at its ends and none inside but single spaces, and was not in the list;
    it goes last in the record written, and typing it again is answered by
    "already there" without a second write. *)
Theorem add_keyword_normalises config typed keyword saved :
  add_keyword config typed = (AddDone keyword, Some saved) ->
  keyword <> ""
  /\ Text.starts_clean keyword
  /\ Text.single_spaced keyword
  /\ ~ In keyword (keywords config)
  /\ keywords saved = (keywords config ++ [keyword])%list
  /\ add_keyword saved keyword = (AddExists keyword, None).
Proof.
  unfold add_keyword at 1. cbn zeta.
  destruct (menu_keyword_normal typed) as (Hclean & Hsingle & Hnorm).
  cbn zeta in Hclean, Hsingle, Hnorm.
  set (k := Str.strip (Text.sub_spaces (Str.strip typed))) in *.
  destruct (Str.nonempty k) eqn:Hne; cbn [negb]; [|discriminate].
  destruct (Text.mem k (keywords config)) eqn:Hm; [discriminate|].
  intros [= <- <-]. apply nonempty_true in Hne. apply mem_false_In in Hm.
  rewrite (proj1 (save_config_settings _)). cbn [keywords set_keywords].
  repeat split; try assumption.
  unfold add_keyword. cbn zeta. rewrite Hnorm.
  apply nonempty_true in Hne. rewrite Hne. cbn [negb].
  rewrite (proj1 (save_config_settings _)). cbn [keywords set_keywords].
  assert (Hin : Text.mem k (keywords config ++ [k]) = true).
  { apply mem_In. apply in_or_app. right. now left. }
  now rewrite Hin.
Qed.

Lemma add_keyword_normalises_witness :
  exists saved,
    add_keyword sample_config "  cheap   vps " = (AddDone "cheap vps", Some saved)
    /\ keywords saved = ["deal"; "cheap vps"].
Proof.
  eexists. split; [reflexivity|].
  destruct (add_keyword_normalises sample_config "  cheap   vps " "cheap vps"
              _ eq_refl) as (_ & _ & _ & _ & H & _).
  exact H.
Defined.

Lemma nth_pop i (l : list string) :
  (i < List.length l)%nat ->
  S (List.length (Text.pop i l)) = List.length l
  /\ (forall j, (j < i)%nat -> nth j (Text.pop i l) "" = nth j l "")
  /\ (forall j, (i <= j)%nat -> nth j (Text.pop i l) "" = nth (S j) l "").
Proof.
  intros Hi. unfold Text.pop.
  assert (Hlen : List.length (firstn i l) = i)
    by (apply firstn_length_le; lia).
  split; [|split].
  - rewrite length_app, Hlen, length_skipn. lia.
  - intros j Hj. rewrite app_nth1 by lia. rewrite nth_firstn.
    destruct (Nat.ltb_spec j i); [reflexivity | lia].
  - intros j Hj. rewrite app_nth2 by lia. rewrite Hlen, nth_skipn.
    f_equal. lia.
Qed.

(** X16. [delete_keyword] writes the record only when the answer is a
    number between 1 and the number of keywords; the record written then
    lacks exactly the keyword displayed under that number, the keywords
    before it keeping their place and those after it moving up by one. *)
Theorem delete_keyword_removes_one config choice result written :
  delete_keyword config choice = (result, Some written) ->
  exists i,
    Text.int choice = Some (Z.of_nat i + 1)
    /\ (i < List.length (keywords config))%nat
    /\ result = DelDone (nth i (keywords config) "")
    /\ S (List.length (keywords written)) = List.length (keywords config)
    /\ (forall j, (j < i)%nat ->
                  nth j (keywords written) "" = nth j (keywords config) "")
    /\ (forall j, (i <= j)%nat ->
                  nth j (keywords written) "" = nth (S j) (keywords config) "")
    /\ telegram written = telegram config.
Proof.
  unfold delete_keyword.
  destruct (is_empty (keywords config)); [discriminate|].
  destruct (_ || _); [discriminate|].
  destruct (Text.int choice) as [n|]; [|discriminate].
  destruct (Z.leb_spec 1 n); cbn [andb]; [|discriminate].
  destruct (Z.leb_spec n (llen (keywords config))); [|discriminate].
  intros [= <- <-]. exists (Z.to_nat (n - 1)).
  assert (Hi : (Z.to_nat (n - 1) < List.length (keywords config))%nat)
    by (unfold llen in *; lia).
  destruct (nth_pop _ _ Hi) as (Hlen & Hbefore & Hafter).
  rewrite (proj1 (save_config_settings _)), (proj2 (save_config_settings _)).
  cbn [keywords telegram set_keywords].
  split; [f_equal; lia|]. repeat split; assumption.
Qed.

Lemma delete_keyword_removes_one_witness :
  let config := set_keywords ["deal"; "vps"; "free"] sample_config in
  exists written,
    delete_keyword config " 2 " = (DelDone "vps", Some written)
    /\ keywords written = ["deal"; "free"]
    /\ S (List.length (keywords written)) = List.length (keywords config).
Proof.
  intros config. eexists. split; [reflexivity|]. split; [reflexivity|].
  destruct (delete_keyword_removes_one config " 2 " _ _ eq_refl)
    as (i & _ & _ & _ & H & _).
  exact H.
Defined.

(** ** The log viewer and the PID file *)





(** ** The monitor loop *)

Lemma tick_gc_range l c : loop_in_range l -> loop_in_range (tick_gc l c).
Proof.
  unfold loop_in_range, tick_gc. intros (Hg & Hm & Hr & Hd & He).
  cbn [gc_counter memory_check_counter reload_counter detection_counter
       consecutive_errors].
  destruct (Z.leb_spec 10 (gc_counter l + 1)); repeat split; lia.
Qed.

Lemma set_memory_check_counter_range n l :
  0 <= n < 5 -> loop_in_range l ->
  loop_in_range (set_memory_check_counter n l).
Proof.
  unfold loop_in_range, set_memory_check_counter.
  intros Hn (Hg & Hm & Hr & Hd & He).
  cbn [gc_counter memory_check_counter reload_counter detection_counter
       consecutive_errors].
  repeat split; lia.
Qed.

Lemma maybe_reload_range l c :
  loop_in_range l -> loop_in_range (fst (maybe_reload l c)).
Proof.
  unfold loop_in_range, maybe_reload. intros (Hg & Hm & Hr & Hd & He).
  cbn [fst gc_counter memory_check_counter reload_counter detection_counter
       consecutive_errors].
  destruct (Z.leb_spec 10 (reload_counter l)); repeat split; lia.
Qed.

Lemma after_check_range os l c r sampled reloaded :
  loop_in_range l ->
  loop_in_range (step_loop (after_check os l c r sampled reloaded)).
Proof.
  unfold loop_in_range, after_check, max_detection_count,
    max_consecutive_errors.
  intros (Hg & Hm & Hr & Hd & He).
  cbn [step_loop gc_counter memory_check_counter reload_counter
       detection_counter consecutive_errors].
  destruct (Z.leb_spec 10 (detection_counter l + 1)); repeat split; lia.
Qed.

Lemma after_error_range os l c error_msg sampled reloaded :
  loop_in_range l ->
  step_ending (after_error os l c error_msg sampled reloaded) = GoesOn ->
  loop_in_range (step_loop (after_error os l c error_msg sampled reloaded)).
Proof.
  unfold loop_in_range, after_error, max_detection_count,
    max_consecutive_errors.
  intros (Hg & Hm & Hr & Hd & He).
  cbn [step_loop step_ending gc_counter memory_check_counter reload_counter
       detection_counter consecutive_errors].
  intros ->. cbv beta iota.
  destruct (Z.leb_spec 5 (consecutive_errors l + 1));
    destruct (classify error_msg); cbv beta iota; repeat split; lia.
Qed.

(** The two ways through a cycle: the memory watch ends the process, or the
    cycle goes through the reload and the call of [check_rss_feed]. *)
Lemma cycle_cases os l c :
  let l1 := tick_gc l c in
  let n := memory_check_counter l1 + 1 in
  let stop := (5 <=? n) && suspects_leak c in
  (stop = true
   /\ restart os (cy_script_ok c) <> GoesOn
   /\ cycle os l c
      = {| step_loop := set_memory_check_counter n l1;
           step_ending := restart os (cy_script_ok c);
           step_sampled := 5 <=? n; step_reloaded := false;
           step_checked := None; step_pauses := [];
           step_interval := false |})
  \/ ((stop = false \/ restart os (cy_script_ok c) = GoesOn)
      /\ cycle os l c
         = let l2 := set_memory_check_counter
                       (if 5 <=? n then 0 else n) l1 in
           match cy_check c with
           | Completes world =>
               after_check os (fst (maybe_reload l2 c)) c
                 (check_rss_feed (loop_session l2)
                    (loop_config (fst (maybe_reload l2 c))) world)
                 (5 <=? n) (snd (maybe_reload l2 c))
           | Fails error_msg =>
               after_error os (fst (maybe_reload l2 c)) c error_msg
                 (5 <=? n) (snd (maybe_reload l2 c))
           end).
Proof.
  cbn zeta. unfold cycle.
  destruct ((5 <=? memory_check_counter (tick_gc l c) + 1)
            && suspects_leak c) eqn:Hs.
  - destruct (restart os (cy_script_ok c)) eqn:Hr.
    + right. split; [now right|]. reflexivity.
    + left. repeat split. discriminate.
    + left. repeat split. discriminate.
  - right. split; [now left|]. reflexivity.
Qed.

Lemma cycle_in_range os l c :
  loop_in_range l ->
  step_ending (cycle os l c) = GoesOn ->
  loop_in_range (step_loop (cycle os l c)).
Proof.
  intros H. pose proof (tick_gc_range l c H) as H1.
  destruct (cycle_cases os l c) as [(_ & Hr & ->)|(_ & ->)]; cbn zeta.
  - cbn [step_ending]. intros E. contradiction.
  - set (n := memory_check_counter (tick_gc l c) + 1).
    assert (Hn : 0 <= (if 5 <=? n then 0 else n) < 5).
    { destruct H1 as (_ & Hm & _). subst n.
      destruct (Z.leb_spec 5 (memory_check_counter (tick_gc l c) + 1)); lia. }
    pose proof (set_memory_check_counter_range _ _ Hn H1) as H2.
    pose proof (maybe_reload_range _ c H2) as H3.
    destruct (cy_check c).
    + intros _. now apply after_check_range.
    + now apply after_error_range.
Qed.

Lemma loop_start_in_range config clock : loop_in_range (loop_start config clock).
Proof.
  unfold loop_in_range, loop_start, max_detection_count,
    max_consecutive_errors. cbn. lia.
Qed.

(** X19. Whatever the world answers, the counters of the loop stay within
    their bounds while the process lives: after every cycle that does not
    end it, the collection counter is below 10, the memory counter below 5,
    the reload counter at most 10, the detection counter below 10 and the
    count of consecutive errors below 5. *)
Theorem monitor_loop_counters_bounded os config clock cycles :
  Forall (fun s => step_ending s = GoesOn -> loop_in_range (step_loop s))
         (monitor_loop os (loop_start config clock) cycles).
Proof.
  pose proof (loop_start_in_range config clock) as H.
  generalize dependent (loop_start config clock).
  induction cycles as [|c cycles IH]; intros l H; cbn [monitor_loop];
    [constructor|].
  constructor; [now apply cycle_in_range|].
  destruct (step_ending (cycle os l c)) eqn:E; [|constructor|constructor].
  apply IH. now apply cycle_in_range.
Qed.

Lemma cycle_posix_completes l c :
  completes c ->
  reload_counter l = detection_counter l ->
  0 <= detection_counter l < 10 ->
  let s := cycle Posix l c in
  step_reloaded s = false
  /\ step_ending s <> Exits
  /\ (step_ending s = GoesOn ->
      reload_counter (step_loop s) = detection_counter (step_loop s)
      /\ detection_counter (step_loop s) = detection_counter l + 1
      /\ detection_counter l + 1 < 10).
Proof.
  intros Hc Heq Hd. cbn zeta.
  destruct (cycle_cases Posix l c) as [(_ & _ & ->)|(_ & ->)]; cbn zeta.
  - cbn. repeat split; discriminate.
  - unfold completes in Hc. destruct (cy_check c) as [world|]; [|easy].
    unfold after_check, maybe_reload, max_detection_count.
    cbn [step_reloaded step_ending step_loop fst snd reload_counter
         detection_counter set_memory_check_counter tick_gc restart].
    destruct (Z.leb_spec 10 (reload_counter l)); [lia|].
    destruct (Z.leb_spec 10 (detection_counter l + 1)).
    + repeat split; discriminate.
    + repeat split; try discriminate; lia.
Qed.

Lemma posix_run l : forall cycles,
  Forall completes cycles ->
  reload_counter l = detection_counter l ->
  0 <= detection_counter l < 10 ->
  let steps := monitor_loop Posix l cycles in
  Z.of_nat (List.length steps) <= 10 - detection_counter l
  /\ Forall (fun s => step_reloaded s = false) steps
  /\ (10 - detection_counter l <= Z.of_nat (List.length cycles) ->
      exists before s,
        steps = (before ++ [s])%list /\ step_ending s = Restarts).
Proof.
  intros cycles. revert l.
  induction cycles as [|c cycles IH]; intros l Hall Heq Hd;
    cbn [monitor_loop]; cbn zeta.
  - cbn [List.length]. split; [lia|]. split; [constructor|].
    intros H. exfalso. lia.
  - inversion Hall as [|? ? Hc Hrest]; subst.
    destruct (cycle_posix_completes l c Hc Heq Hd) as (Hre & Hex & Hon).
    destruct (step_ending (cycle Posix l c)) eqn:E.
    + destruct (Hon eq_refl) as (Heq' & Hd' & Hlt).
      destruct (IH (step_loop (cycle Posix l c)) Hrest Heq' ltac:(lia))
        as (IHlen & IHre & IHlast).
      cbn [List.length]. rewrite Hd' in IHlen, IHlast.
      split; [lia|]. split; [now constructor|].
      intros Hlen. destruct IHlast as (before & s & -> & Hs); [lia|].
      now exists (cycle Posix l c :: before), s.
    + cbn [List.length]. split; [lia|]. split; [now repeat constructor|].
      intros _. now exists [], (cycle Posix l c).
    + congruence.
Qed.

(** X20. Elsewhere than on Windows and as long as no exception gets out of
    [check_rss_feed], a process runs at most ten cycles, never reloads the
    record from the file (the reload counter would need an eleventh cycle),
    and, given ten cycles, ends by restarting itself. *)
Theorem posix_run_restarts_without_reload config clock cycles :
  Forall completes cycles ->
  let steps := monitor_loop Posix (loop_start config clock) cycles in
  (List.length steps <= 10)%nat
  /\ Forall (fun s => step_reloaded s = false) steps
  /\ ((10 <= List.length cycles)%nat ->
      exists before s,
        steps = (before ++ [s])%list /\ step_ending s = Restarts).
Proof.
  intros Hall.
  destruct (posix_run (loop_start config clock) cycles Hall eq_refl)
    as (Hlen & Hre & Hlast); [cbn; lia|].
  cbn [loop_start detection_counter] in Hlen, Hlast. cbn zeta.
  split; [lia|]. split; [exact Hre|]. intros H. apply Hlast. lia.
Qed.

Lemma posix_run_restarts_without_reload_witness :
  let cycles := repeat quiet_cycle 12 in
  Forall completes cycles
  /\ List.length (monitor_loop Posix (loop_start sample_config 0) cycles)
     = 10%nat
  /\ Forall (fun s => step_reloaded s = false)
       (monitor_loop Posix (loop_start sample_config 0) cycles).
Proof.
  intros cycles.
  assert (H : Forall completes cycles) by (repeat constructor).
  split; [exact H|]. split; [vm_compute; reflexivity|].
  exact (proj1 (proj2 (posix_run_restarts_without_reload sample_config 0
                         cycles H))).
Defined.

Lemma cycle_sampling os l c :
  step_sampled (cycle os l c) = (5 <=? memory_check_counter l + 1)
  /\ (step_ending (cycle os l c) = GoesOn ->
      memory_check_counter (step_loop (cycle os l c))
      = if 5 <=? memory_check_counter l + 1 then 0
        else memory_check_counter l + 1).
Proof.
  destruct (cycle_cases os l c) as [(_ & Hr & ->)|(_ & ->)]; cbn zeta.
  - cbn [step_sampled step_ending]. split; [reflexivity|]. intros E.
    contradiction.
  - destruct (cy_check c); split; try reflexivity; intros _; reflexivity.
Qed.

Lemma sampling_from os : forall cycles l i s,
  0 <= memory_check_counter l < 5 ->
  nth_error (monitor_loop os l cycles) i = Some s ->
  step_sampled s
  = ((memory_check_counter l + Z.of_nat i + 1) mod 5 =? 0).
Proof.
  induction cycles as [|c cycles IH]; intros l i s Hm; cbn [monitor_loop].
  - destruct i; discriminate.
  - destruct (cycle_sampling os l c) as [Hs Hnext]. destruct i as [|i].
    + cbn [nth_error]. intros [= <-]. rewrite Hs.
      replace (memory_check_counter l + Z.of_nat 0 + 1)
        with (memory_check_counter l + 1) by lia.
      destruct (Z.leb_spec 5 (memory_check_counter l + 1)).
      * assert (memory_check_counter l + 1 = 5) as -> by lia. reflexivity.
      * rewrite Z.mod_small by lia.
        symmetry. apply Z.eqb_neq. lia.
    + cbn [nth_error].
      destruct (step_ending (cycle os l c)) eqn:E;
        [|destruct i; discriminate|destruct i; discriminate].
      intros Hnth. specialize (Hnext eq_refl).
      assert (Hm' : 0 <= memory_check_counter (step_loop (cycle os l c)) < 5).
      { rewrite Hnext.
        destruct (Z.leb_spec 5 (memory_check_counter l + 1)); lia. }
      rewrite (IH _ i s Hm' Hnth), Hnext.
      destruct (Z.leb_spec 5 (memory_check_counter l + 1)).
      * assert (Hl : memory_check_counter l = 4) by lia. rewrite Hl.
        replace (4 + Z.of_nat (S i) + 1) with (0 + Z.of_nat i + 1 + 1 * 5)
          by lia.
        now rewrite Z.mod_add by lia.
      * do 2 f_equal. lia.
Qed.

(** X21. The memory of the process is read in every fifth cycle and in no
    other: in the cycles number 5, 10, 15 and so on of a process, whether
    the cycles before completed or failed. *)
Theorem memory_sampled_every_fifth_cycle os config clock cycles i s :
  nth_error (monitor_loop os (loop_start config clock) cycles) i = Some s ->
  step_sampled s = ((Z.of_nat i + 1) mod 5 =? 0).
Proof.
  intros H.
  rewrite (sampling_from os cycles (loop_start config clock) i s);
    [reflexivity | cbn; lia | exact H].
Qed.

Lemma memory_sampled_every_fifth_cycle_witness :
  exists s,
    nth_error
      (monitor_loop Windows (loop_start sample_config 0)
         [quiet_cycle; failing_cycle; quiet_cycle; failing_cycle;
          quiet_cycle; quiet_cycle]) 4 = Some s
    /\ step_sampled s = true.
Proof.
  destruct (nth_error
              (monitor_loop Windows (loop_start sample_config 0)
                 [quiet_cycle; failing_cycle; quiet_cycle; failing_cycle;
                  quiet_cycle; quiet_cycle]) 4) as [s|] eqn:E.
  - exists s. split; [reflexivity|].
    now rewrite (memory_sampled_every_fifth_cycle _ _ _ _ _ _ E).
  - exfalso. revert E. vm_compute. discriminate.
Defined.

Lemma cycle_fails os l c :
  fails c ->
  step_ending (cycle os l c) = GoesOn ->
  let s := cycle os l c in
  let errors := consecutive_errors l + 1 in
  (5 <= errors ->
   consecutive_errors (step_loop s) = 0
   /\ reload_counter (step_loop s) = 10
   /\ last (step_pauses s) 0 = 80
   /\ step_interval s = false)
  /\ (errors < 5 ->
      consecutive_errors (step_loop s) = errors
      /\ ~ In 80 (step_pauses s)
      /\ step_interval s = true).
Proof.
  intros Hf. cbn zeta.
  destruct (cycle_cases os l c) as [(_ & Hr & ->)|(_ & ->)]; cbn zeta.
  - cbn [step_ending]. intros E. contradiction.
  - unfold fails in Hf. destruct (cy_check c) as [|error_msg]; [easy|].
    unfold after_error, max_consecutive_errors, max_interval.
    cbn [step_ending step_loop step_pauses step_interval consecutive_errors
         reload_counter fst maybe_reload set_memory_check_counter tick_gc].
    intros ->. cbv beta iota.
    destruct (Z.leb_spec 5 (consecutive_errors l + 1)) as [Hle|Hgt];
      cbv beta iota; (split; intros Hcase; [|]); try (exfalso; lia).
    + split; [reflexivity|]. split; [reflexivity|]. split; [|reflexivity].
      now rewrite last_last.
    + split; [reflexivity|]. split; [|reflexivity].
      rewrite app_nil_r. destruct (classify error_msg); cbn; lia.
Qed.

Lemma cycle_reloads os l c :
  reload_counter l = 10 ->
  step_ending (cycle os l c) = GoesOn ->
  step_reloaded (cycle os l c) = true.
Proof.
  intros Hr.
  destruct (cycle_cases os l c) as [(_ & Hne & ->)|(_ & ->)]; cbn zeta.
  - cbn [step_ending]. intros E. contradiction.
  - intros _.
    assert (Hs : snd (maybe_reload
                        (set_memory_check_counter
                           (if 5 <=? memory_check_counter (tick_gc l c) + 1
                            then 0
                            else memory_check_counter (tick_gc l c) + 1)
                           (tick_gc l c)) c) = true).
    { unfold maybe_reload.
      cbn [snd reload_counter set_memory_check_counter tick_gc].
      now rewrite Hr. }
    destruct (cy_check c); cbn [after_check after_error step_reloaded];
      exact Hs.
Qed.

Lemma monitor_loop_cons os l c cycles s steps :
  monitor_loop os l (c :: cycles) = s :: steps ->
  s = cycle os l c
  /\ (steps <> [] ->
      step_ending s = GoesOn
      /\ steps = monitor_loop os (step_loop s) cycles).
Proof.
  cbn [monitor_loop]. intros [= <- <-]. split; [reflexivity|].
  destruct (step_ending (cycle os l c)); [now split | easy | easy].
Qed.

(** X22. Five cycles in a row that end with an exception bring the
    cool-down: the first four are followed by the usual random wait, the
    fifth waits 80 seconds instead and resets the count of consecutive
    errors, and the cycle after it reloads the record from the file. *)
Theorem five_failures_force_cooldown
    os l c1 c2 c3 c4 c5 c6 s1 s2 s3 s4 s5 s6 :
  consecutive_errors l = 0 ->
  fails c1 -> fails c2 -> fails c3 -> fails c4 -> fails c5 ->
  monitor_loop os l [c1; c2; c3; c4; c5; c6] = [s1; s2; s3; s4; s5; s6] ->
  step_ending s6 = GoesOn ->
  Forall (fun s => step_interval s = true /\ ~ In 80 (step_pauses s))
         [s1; s2; s3; s4]
  /\ last (step_pauses s5) 0 = 80
  /\ step_interval s5 = false
  /\ consecutive_errors (step_loop s5) = 0
  /\ step_reloaded s6 = true.
Proof.
  intros H0 F1 F2 F3 F4 F5 Hrun H6.
  destruct (monitor_loop_cons _ _ _ _ _ _ Hrun) as [E1 N1].
  destruct N1 as [G1 R1]; [discriminate|]. symmetry in R1.
  destruct (monitor_loop_cons _ _ _ _ _ _ R1) as [E2 N2].
  destruct N2 as [G2 R2]; [discriminate|]. symmetry in R2.
  destruct (monitor_loop_cons _ _ _ _ _ _ R2) as [E3 N3].
  destruct N3 as [G3 R3]; [discriminate|]. symmetry in R3.
  destruct (monitor_loop_cons _ _ _ _ _ _ R3) as [E4 N4].
  destruct N4 as [G4 R4]; [discriminate|]. symmetry in R4.
  destruct (monitor_loop_cons _ _ _ _ _ _ R4) as [E5 N5].
  destruct N5 as [G5 R5]; [discriminate|]. symmetry in R5.
  destruct (monitor_loop_cons _ _ _ _ _ _ R5) as [E6 _].
  subst s1. destruct (cycle_fails os l c1 F1 G1) as [_ A1].
  destruct A1 as (C1 & P1 & I1); [lia|]. rewrite H0 in C1.
  subst s2. destruct (cycle_fails os _ c2 F2 G2) as [_ A2].
  destruct A2 as (C2 & P2 & I2); [lia|]. rewrite C1 in C2.
  subst s3. destruct (cycle_fails os _ c3 F3 G3) as [_ A3].
  destruct A3 as (C3 & P3 & I3); [lia|]. rewrite C2 in C3.
  subst s4. destruct (cycle_fails os _ c4 F4 G4) as [_ A4].
  destruct A4 as (C4 & P4 & I4); [lia|]. rewrite C3 in C4.
  subst s5. destruct (cycle_fails os _ c5 F5 G5) as [A5 _].
  destruct A5 as (C5 & Rl5 & P5 & I5); [lia|].
  subst s6. split; [repeat constructor; assumption|].
  split; [exact P5|]. split; [exact I5|]. split; [exact C5|].
  now apply cycle_reloads.
Qed.

Lemma five_failures_force_cooldown_witness :
  consecutive_errors (loop_start sample_config 0) = 0
  /\ fails failing_cycle
  /\ monitor_loop Posix (loop_start sample_config 0)
       [failing_cycle; failing_cycle; failing_cycle; failing_cycle;
        failing_cycle; quiet_cycle]
     = [failed1; failed2; failed3; failed4; failed5; reloading]
  /\ step_ending reloading = GoesOn
  /\ step_pauses failed5 = [80]
  /\ step_reloaded reloading = true.
Proof.
  assert (Hrun : monitor_loop Posix (loop_start sample_config 0)
                   [failing_cycle; failing_cycle; failing_cycle;
                    failing_cycle; failing_cycle; quiet_cycle]
                 = [failed1; failed2; failed3; failed4; failed5; reloading])
    by (vm_compute; reflexivity).
  assert (Hon : step_ending reloading = GoesOn) by (vm_compute; reflexivity).
  split; [reflexivity|]. split; [exact I|]. split; [exact Hrun|].
  split; [exact Hon|]. split; [vm_compute; reflexivity|].
  exact (proj2 (proj2 (proj2 (proj2
    (five_failures_force_cooldown Posix (loop_start sample_config 0)
       failing_cycle failing_cycle failing_cycle failing_cycle failing_cycle
       quiet_cycle failed1 failed2 failed3 failed4 failed5 reloading
       eq_refl I I I I I Hrun Hon))))).
Defined.

(** ** More on the gates and on what a pass writes *)

(** X23. The title gate opens again after two hours: when every similar
    title record is at least 7200 seconds old, the item is not skipped for
    its title, whether those records were purged or not. *)
Theorem title_gate_opens_after_two_hours config now ok item :
  Dict.wf (title_notifications config) ->
  (forall t_key t_data,
     In (t_key, t_data) (title_notifications config) ->
     similar (normalized_title (item_title item)) t_key = true ->
     seconds 7200 <= age now (te_time t_data)) ->
  snd (notify_item config now ok item) <> SimilarTitle.
Proof.
  intros Hwf Hold Hskip. apply similar_title_iff in Hskip.
  apply existsb_exists in Hskip as ([t_key t_data] & Hin & Hok).
  apply andb_true_iff in Hok as [Hsim Hrec]. cbn [fst snd] in *.
  apply (In_purge_titles _ _ _ Hwf) in Hin as [Hin _].
  specialize (Hold t_key t_data Hin Hsim).
  unfold recent in Hrec. apply Z.ltb_lt in Hrec.
  unfold seconds in Hold. lia.
Qed.

Lemma title_gate_opens_after_two_hours_witness :
  Dict.wf (title_notifications day_old_config)
  /\ snd (notify_item day_old_config (seconds 7200) true deal_a_again)
     = Sent {| n_keywords := ["deal"]; n_title := "DEAL A";
               n_link := "https://www.nodeseek.com/post/8" |}.
Proof.
  assert (Hwf : Dict.wf (title_notifications day_old_config)).
  { unfold Dict.wf. simpl. repeat constructor. simpl. tauto. }
  split; [exact Hwf|].
  assert (Hopen : snd (notify_item day_old_config (seconds 7200) true
                         deal_a_again) <> SimilarTitle).
  { apply (title_gate_opens_after_two_hours _ _ _ _ Hwf).
    intros t_key t_data [[= <- <-]|[]] _. vm_compute. discriminate. }
  reflexivity.
Defined.

Lemma length_del {V} k (d : Dict.t V) :
  (List.length (Dict.del k d) <= List.length d)%nat.
Proof.
  induction d as [|[k0 v0] d IH]; cbn [Dict.del List.length]; [lia|].
  destruct (String.eqb k k0); cbn [List.length]; lia.
Qed.

Lemma length_purge_le now (d : Dict.t TitleEntry) :
  (List.length (purge_titles now d) <= List.length d)%nat.
Proof.
  unfold purge_titles. generalize (title_cleanup now d) as ks.
  intros ks. revert d. induction ks as [|k ks IH]; intros d;
    cbn [fold_left]; [lia|].
  etransitivity; [apply IH|].
  destruct (Dict.mem k d); [apply length_del | lia].
Qed.

Lemma notify_item_quiet config now ok item :
  changes_config (snd (notify_item config now ok item)) = false ->
  notified_entries (fst (notify_item config now ok item))
  = notified_entries config
  /\ (List.length (title_notifications (fst (notify_item config now ok item)))
      <= List.length (title_notifications config))%nat.
Proof.
  pose proof (length_purge_le now (title_notifications config)) as Hp.
  unfold notify_item. cbn zeta.
  destruct (title_already_notified _ _ _); [now split|].
  destruct (Dict.mem _ _); [now split|].
  destruct (is_empty _); [now split|].
  destruct (send_telegram_message _ _); [discriminate|].
  destruct (Dict.mem _ _); discriminate.
Qed.

Lemma process_posts_quiet posts : forall config,
  Forall (fun o => changes_config o = false)
         (snd (process_posts config posts)) ->
  notified_entries (fst (process_posts config posts))
  = notified_entries config
  /\ (List.length (title_notifications (fst (process_posts config posts)))
      <= List.length (title_notifications config))%nat.
Proof.
  induction posts as [|[post m] posts IH]; intros config;
    cbn [process_posts]; [now split|].
  assert (H1 : changes_config (snd (process_post config m post)) = false ->
               notified_entries (fst (process_post config m post))
               = notified_entries config
               /\ (List.length
                     (title_notifications (fst (process_post config m post)))
                   <= List.length (title_notifications config))%nat).
  { unfold process_post. destruct (extract_item post); [|now split].
    apply notify_item_quiet. }
  destruct (process_post config m post) as [c1 o]. cbn [fst snd] in H1.
  specialize (IH c1). destruct (process_posts c1 posts) as [c2 os].
  cbn [fst snd] in *. intros Hall.
  inversion Hall as [|? ? Ho Hos]; subst.
  destruct (H1 Ho) as [E1 L1]. destruct (IH Hos) as [E2 L2].
  split; [congruence | lia].
Qed.

Lemma subsequence_del {V} k (d : Dict.t V) : subsequence (Dict.del k d) d.
Proof.
  induction d as [|[k0 v0] d IH]; cbn [Dict.del]; [constructor|].
  destruct (String.eqb k k0); constructor;
    first [exact IH | apply subsequence_refl].
Qed.

Lemma subsequence_purge now (d : Dict.t TitleEntry) :
  subsequence (purge_titles now d) d.
Proof.
  unfold purge_titles. generalize (title_cleanup now d) as ks.
  intros ks. revert d. induction ks as [|k ks IH]; intros d;
    cbn [fold_left]; [apply subsequence_refl|].
  eapply subsequence_trans; [|apply IH].
  destruct (Dict.mem k d); [apply subsequence_del | apply subsequence_refl].
Qed.

Lemma notify_item_quiet_titles config now ok item :
  changes_config (snd (notify_item config now ok item)) = false ->
  title_notifications (fst (notify_item config now ok item))
  = purge_titles now (title_notifications config).
Proof.
  unfold notify_item. cbn zeta.
  destruct (title_already_notified _ _ _); [reflexivity|].
  destruct (Dict.mem _ _); [reflexivity|].
  destruct (is_empty _); [reflexivity|].
  destruct (send_telegram_message _ _); [discriminate|].
  destruct (Dict.mem _ _); discriminate.
Qed.

Lemma process_post_quiet_titles config m post :
  changes_config (snd (process_post config m post)) = false ->
  title_notifications (fst (process_post config m post))
  = match extract_item post with
    | inl _ => purge_titles (current_time m) (title_notifications config)
    | inr _ => title_notifications config
    end.
Proof.
  unfold process_post. destruct (extract_item post); [|reflexivity].
  apply notify_item_quiet_titles.
Qed.

(** The title store after a run of posts none of which got a notification
    attempt: the old one without the records that were more than 24 hours
    old when one of the posts reached the gates. *)
Lemma process_posts_quiet_titles posts : forall config,
  Forall (fun o => changes_config o = false)
         (snd (process_posts config posts)) ->
  subsequence (title_notifications (fst (process_posts config posts)))
              (title_notifications config)
  /\ (Dict.wf (title_notifications config) ->
      forall t_key t_data,
        In (t_key, t_data)
           (title_notifications (fst (process_posts config posts)))
        <-> In (t_key, t_data) (title_notifications config)
            /\ Forall (fun pm =>
                         forall item,
                           extract_item (fst pm) = inl item ->
                           expired (current_time (snd pm)) t_data = false)
                      posts).
Proof.
  induction posts as [|[post m] posts IH]; intros config;
    cbn [process_posts].
  - intros _. split; [apply subsequence_refl|]. intros _ t_key t_data.
    cbn [fst]. split; [now split | now intros [H _]].
  - pose proof (process_post_quiet_titles config m post) as H1.
    destruct (process_post config m post) as [c1 o]. cbn [fst snd] in H1.
    specialize (IH c1). destruct (process_posts c1 posts) as [c2 os].
    cbn [fst snd] in *. intros Hall.
    inversion Hall as [|? ? Ho Hos]; subst.
    specialize (H1 Ho). destruct (IH Hos) as [Hsub Hin]. split.
    + eapply subsequence_trans; [|exact Hsub]. rewrite H1.
      destruct (extract_item post);
        [apply subsequence_purge | apply subsequence_refl].
    + intros Hwf t_key t_data.
      assert (Hwf1 : Dict.wf (title_notifications c1)).
      { rewrite H1. destruct (extract_item post);
          [now apply wf_purge_titles | exact Hwf]. }
      rewrite (Hin Hwf1 t_key t_data), Forall_cons_iff. cbn [fst snd].
      rewrite H1. destruct (extract_item post) as [item0|why].
      * rewrite (In_purge_titles _ _ _ Hwf). cbn [snd]. split.
        -- intros [[Hd He] Hrest]. split; [exact Hd|].
           split; [now intros item _ | exact Hrest].
        -- intros [Hd [He Hrest]]. split; [|exact Hrest].
           split; [exact Hd | exact (He item0 eq_refl)].
      * split.
        -- intros [Hd Hrest]. split; [exact Hd|].
           split; [intros item; discriminate | exact Hrest].
        -- intros [Hd [_ Hrest]]. now split.
Qed.

(** X24. A pass in which no notification is attempted writes nothing when
    the stores were within their caps: the file is not touched and
    [notified_entries] is what it was. The title store can only have lost
    records to the purge: it is the old store without some of its records,
    the others in their order, and the records that remain are exactly
    those that were not more than 24 hours old at any of the moments at
    which a post of the pass reached the gates. What the purge removed is
    removed in memory only. *)
Theorem quiet_pass_writes_nothing config posts :
  Dict.len (notified_entries config) <= 50 ->
  Dict.len (title_notifications config) <= 100 ->
  Forall (fun o => changes_config o = false)
         (pass_outcomes (evaluate config posts)) ->
  pass_saved (evaluate config posts) = None
  /\ notified_entries (pass_config (evaluate config posts))
     = notified_entries config
  /\ Dict.len (title_notifications (pass_config (evaluate config posts)))
     <= Dict.len (title_notifications config)
  /\ subsequence (title_notifications (pass_config (evaluate config posts)))
                 (title_notifications config)
  /\ (Dict.wf (title_notifications config) ->
      forall t_key t_data,
        In (t_key, t_data)
           (title_notifications (pass_config (evaluate config posts)))
        <-> In (t_key, t_data) (title_notifications config)
            /\ Forall (fun pm =>
                         forall item,
                           extract_item (fst pm) = inl item ->
                           expired (current_time (snd pm)) t_data = false)
                      posts).
Proof.
  intros Hn Ht. rewrite pass_outcomes_evaluate. intros Hall.
  destruct (process_posts_quiet posts config Hall) as [En Lt].
  destruct (process_posts_quiet_titles posts config Hall) as [Hsub Hin].
  assert (Hnone : existsb changes_config (snd (process_posts config posts))
                  = false).
  { apply not_true_is_false. intros H.
    apply existsb_exists in H as (o & Ho_in & Ho).
    rewrite Forall_forall in Hall. specialize (Hall o Ho_in). congruence. }
  unfold evaluate. destruct (process_posts config posts) as [c1 os].
  cbn [fst snd] in *. unfold limit_history, Dict.len in *. rewrite En.
  destruct (Z.ltb_spec 50 (Z.of_nat (List.length (notified_entries config))));
    [lia|].
  destruct (Z.ltb_spec 100 (Z.of_nat (List.length (title_notifications c1))));
    [lia|].
  rewrite Hnone. cbn [orb pass_saved pass_config].
  split; [reflexivity|]. split; [exact En|]. split; [lia|].
  split; [exact Hsub | exact Hin].
Qed.

Lemma quiet_pass_writes_nothing_witness :
  let posts := [(post_of "Deal A" "/post/7", at_time 90000 true)] in
  Dict.len (notified_entries day_old_config) <= 50
  /\ Dict.len (title_notifications day_old_config) <= 100
  /\ pass_outcomes (evaluate day_old_config posts) = [KnownEntry]
  /\ pass_saved (evaluate day_old_config posts) = None
  /\ title_notifications day_old_config
     = [("deal a", {| te_title := "Deal A";
                      te_link := "https://www.nodeseek.com/post/7";
                      te_time := 0 |})]
  /\ title_notifications (pass_config (evaluate day_old_config posts)) = [].
Proof.
  intros posts.
  assert (Hn : Dict.len (notified_entries day_old_config) <= 50)
    by (vm_compute; discriminate).
  assert (Ht : Dict.len (title_notifications day_old_config) <= 100)
    by (vm_compute; discriminate).
  assert (Hq : Forall (fun o => changes_config o = false)
                      (pass_outcomes (evaluate day_old_config posts)))
    by (vm_compute; repeat constructor).
  split; [exact Hn|]. split; [exact Ht|]. split; [reflexivity|].
  split; [|split; reflexivity].
  exact (proj1 (quiet_pass_writes_nothing day_old_config posts Hn Ht Hq)).
Defined.

(** X25. Every item that leaves the field recovery has a title of at least
    two characters and a link that begins with [http], holds no [/space/]
    and is left as it is by the conversion to an absolute URL. *)
Theorem extracted_item_shape post item :
  extract_item post = inl item ->
  2 <= Str.len (item_title item)
  /\ Str.startswith (item_link item) "http" = true
  /\ Str.contains "/space/" (item_link item) = false
  /\ to_absolute (item_link item) = item_link item.
Proof.
  intros H. destruct (extracted_link_shape post item H) as (Hhttp & Hspace & _).
  split; [|split; [exact Hhttp|split; [exact Hspace|]]].
  - clear Hhttp Hspace. revert H. unfold extract_item.
    destruct (find_title_element post) as [e|]; [|discriminate].
    destruct (Z.ltb_spec (Str.len (recover_title post e)) 2) as [|Hlen];
      [discriminate|].
    destruct (recover_link post e) as [link|]; [|discriminate].
    destruct (Str.contains "/space/" link); [discriminate|].
    intros [= E]. subst item. exact Hlen.
  - unfold to_absolute. now rewrite Hhttp.
Qed.

Lemma extracted_item_shape_witness :
  extract_item (post_of "Deal A" "post/7")
  = inl {| item_title := "Deal A";
           item_link := "https://www.nodeseek.com/post/7" |}
  /\ to_absolute "https://www.nodeseek.com/post/7"
     = "https://www.nodeseek.com/post/7".
Proof.
  split; [reflexivity|].
  exact (proj2 (proj2 (proj2
    (extracted_item_shape (post_of "Deal A" "post/7") _ eq_refl)))).
Defined.

Lemma handle_update_answers config u :
  telegram (h_config (handle_update config u)) = telegram config
  /\ (upd_sender u = chat_id (telegram config) ->
      exists r, h_reply (handle_update config u) = Some r)
  /\ (upd_sender u <> chat_id (telegram config) ->
      h_reply (handle_update config u) = None).
Proof.
  unfold handle_update.
  destruct (String.eqb_spec (upd_sender u) (chat_id (telegram config)))
    as [E|E]; cbn [negb].
  - assert (Hno : upd_sender u <> chat_id (telegram config) ->
                  forall r : option Reply, r = None)
      by (intros Hne; contradiction).
    destruct (Str.startswith (upd_text u) "/add ");
      [destruct (_ && _)|
       destruct (Str.startswith (upd_text u) "/del ");
       [destruct (Text.mem _ _)|
        destruct (Str.startswith (upd_text u) "/list");
        [|destruct (Str.startswith (upd_text u) "/help")]]];
      cbn [h_config h_reply];
      (split; [reflexivity|
               split; [intros _; eexists; reflexivity | intros Hne; now apply Hno]]).
  - split; [reflexivity|]. split; [intros; contradiction | reflexivity].
Qed.

(** X26. With a token and a chat identifier set, every update from the
    configured chat gets exactly one answer and no other update gets any:
    the answers are as many as the updates of that chat, and the Telegram
    settings are never changed by a command. *)
Theorem every_owner_update_is_answered config updates :
  bot_token (telegram config) <> "" ->
  chat_id (telegram config) <> "" ->
  let l := handle_telegram_commands config updates in
  List.length (l_replies l)
  = List.length
      (filter (fun u => String.eqb (upd_sender u) (chat_id (telegram config)))
              updates)
  /\ telegram (l_config l) = telegram config.
Proof.
  intros Hb Hc. unfold handle_telegram_commands.
  apply nonempty_true in Hb. apply nonempty_true in Hc.
  rewrite Hb, Hc. cbn [negb orb].
  set (start := {| l_config := config; last_update_id := None;
                   l_file := None; l_replies := [] |}).
  enough (H : forall l,
            telegram (l_config l) = telegram config ->
            List.length (l_replies (fold_left listen updates l))
            = (List.length (l_replies l)
               + List.length
                   (filter (fun u => String.eqb (upd_sender u)
                                       (chat_id (telegram config)))
                           updates))%nat
            /\ telegram (l_config (fold_left listen updates l))
               = telegram config)
    by exact (H start eq_refl).
  induction updates as [|u updates IH]; intros l Hl;
    cbn [fold_left filter];
    [split; [cbn [List.length]; lia | exact Hl]|].
  destruct (handle_update_answers (l_config l) u) as (Ht & Hyes & Hno).
  assert (Hl' : telegram (l_config (listen l u)) = telegram config)
    by (unfold listen; cbn [l_config]; congruence).
  destruct (IH (listen l u) Hl') as [IHlen IHt]. split; [|exact IHt].
  rewrite IHlen. unfold listen at 1. cbn [l_replies]. rewrite length_app.
  rewrite Hl in Hyes, Hno.
  destruct (String.eqb_spec (upd_sender u) (chat_id (telegram config)))
    as [E|E].
  - destruct (Hyes E) as [r ->]. cbn [List.length]. lia.
  - rewrite (Hno E). cbn [List.length]. lia.
Qed.

Lemma every_owner_update_is_answered_witness :
  let updates := [owner_says 1 "/list"; stranger_says 2 "/help";
                  owner_says 3 "hello"; owner_says 4 "/add"] in
  bot_token (telegram sample_config) <> ""
  /\ chat_id (telegram sample_config) <> ""
  /\ l_replies (handle_telegram_commands sample_config updates)
     = [ReplyList ["deal"]; ReplyUnknown; ReplyUnknown]
  /\ List.length (l_replies (handle_telegram_commands sample_config updates))
     = 3%nat.
Proof.
  intros updates.
  assert (Hb : bot_token (telegram sample_config) <> "") by discriminate.
  assert (Hc : chat_id (telegram sample_config) <> "") by discriminate.
  split; [exact Hb|]. split; [exact Hc|]. split; [reflexivity|].
  exact (proj1 (every_owner_update_is_answered sample_config updates Hb Hc)).
Defined.
